(** * YouTube transcript pipeline: a shallow embedding and its properties

    The development follows four source files of the repository:
    - [learning/scripts/youtube/transcript-to-markdown.ts] (the standalone
      caption script, module [Script]),
    - the HTTP route [POST] of the transcript page (module [Route]),
    - [transcribe-audio.ts] (the batch transcription client, module [Speech]),
    - [download-video-simple.ts] (module [Download]).

    The functions around these are modelled with their requests and
    file-system operations as logged events (module [Effect]): the route and
    the script as wholes (modules [Handler] and [Converter]), the upload, the
    polling and the reading of a batch response (module [Transcriber]) and
    the download of the audio (module [Downloader]).

    JavaScript strings are [string]s, one [ascii] per code unit.  JavaScript
    numbers are modelled as exact rationals extended with the two infinities
    and NaN; the rounding of IEEE doubles and the sign of zero are outside the
    model.  Every arithmetic operation normalises its result with [Qred], so
    equal numbers are equal terms. *)

From Stdlib Require Import Bool List String Ascii ZArith QArith Qround Lia.
From Stdlib Require Import DecimalString DecimalZ DecimalFacts.
Import ListNotations.

Local Open Scope list_scope.
Local Open Scope string_scope.

(* ================================================================== *)
(** * Part I. Definitions *)
(* ================================================================== *)

(** ** The JavaScript values the pipeline handles *)

Module JS.

(** A property that may be absent ([undefined]), [null], or hold a value. *)
Inductive js (A : Type) : Type :=
| Undefined
| Null
| Def (a : A).
Arguments Undefined {A}.
Arguments Null {A}.
Arguments Def {A} a.

Definition isNullish {A} (v : js A) : bool :=
  match v with Def _ => false | _ => true end.

(** [typeof v === 'undefined'] *)
Definition isUndefined {A} (v : js A) : bool :=
  match v with Undefined => true | _ => false end.

(** [s || ''] for a string-valued property: every falsy value, the empty
    string included, gives the empty string. *)
Definition orEmpty (v : js string) : string :=
  match v with Def s => s | _ => "" end.

(** *** Numbers *)

Inductive number : Type :=
| Fin (q : Q)
| PosInf
| NegInf
| NaN.

Definition ofZ (z : Z) : number := Fin (inject_Z z).

(** [a + b] *)
Definition add (a b : number) : number :=
  match a, b with
  | Fin x, Fin y => Fin (Qred (x + y))
  | NaN, _ | _, NaN => NaN
  | PosInf, NegInf | NegInf, PosInf => NaN
  | PosInf, _ | _, PosInf => PosInf
  | NegInf, _ | _, NegInf => NegInf
  end.

(** [a / d] for a positive literal divisor [d] (1000, 3600, 60, 1e9, 2^20). *)
Definition divBy (a : number) (d : positive) : number :=
  match a with
  | Fin x => Fin (Qred (x / inject_Z (Zpos d)))
  | other => other
  end.

(** Truncation towards zero. *)
Definition Qtrunc (x : Q) : Z :=
  if Qle_bool 0 x then Qfloor x else Qceiling x.

(** [a % d] for a positive literal [d]: the remainder has the sign of the
    dividend, [a - d * trunc (a / d)]; it is NaN for an infinite dividend. *)
Definition remBy (a : number) (d : positive) : number :=
  match a with
  | Fin x =>
      let dq := inject_Z (Zpos d) in
      Fin (Qred (x - dq * inject_Z (Qtrunc (x / dq))))
  | _ => NaN
  end.


(** Truthiness of a number: 0 and NaN are falsy. *)
Definition truthy (a : number) : bool :=
  match a with
  | Fin x => negb (Qeq_bool x 0)
  | NaN => false
  | _ => true
  end.

(** [Number(v || 0)] and [v || 0] for a number-valued property. *)
Definition orZero (v : js number) : number :=
  match v with
  | Def n => if truthy n then n else ofZ 0
  | _ => ofZ 0
  end.

(** The results of [Math.floor]: integral numbers. *)
Inductive integral : Type :=
| Int (z : Z)
| IPosInf
| INegInf
| INaN.

Definition Math_floor (a : number) : integral :=
  match a with
  | Fin x => Int (Qfloor x)
  | PosInf => IPosInf
  | NegInf => INegInf
  | NaN => INaN
  end.

(** [h > 0] on an integral number. *)
Definition positiveInt (h : integral) : bool :=
  match h with
  | Int z => (0 <? z)%Z
  | IPosInf => true
  | _ => false
  end.

(** *** Strings *)

(** Decimal rendering of an integer, as [Number.prototype.toString] gives
    for integral values (positional notation, a leading minus sign for
    negatives, no leading zero).  JavaScript turns to exponent notation from
    1e21 on; such magnitudes are outside the model. *)
Definition decimal (z : Z) : string := NilZero.string_of_int (Z.to_int z).

Definition toString (h : integral) : string :=
  match h with
  | Int z => decimal z
  | IPosInf => "Infinity"
  | INegInf => "-Infinity"
  | INaN => "NaN"
  end.

Fixpoint repeatChar (c : ascii) (n : nat) : string :=
  match n with
  | O => ""
  | S n' => String c (repeatChar c n')
  end.

(** [s.padStart(width, c)] for a one-character filler. *)
Definition padStart (s : string) (width : nat) (c : ascii) : string :=
  repeatChar c (width - length s) ++ s.

(** White space removed by [trim]: TAB, LF, VT, FF, CR, SPACE and NBSP (the
    white-space code units below 256). *)
Definition isWhiteSpace (c : ascii) : bool :=
  match nat_of_ascii c with
  | 9%nat | 10%nat | 11%nat | 12%nat | 13%nat | 32%nat | 160%nat => true
  | _ => false
  end.

Fixpoint trimStart (s : string) : string :=
  match s with
  | String c r => if isWhiteSpace c then trimStart r else s
  | "" => ""
  end.

Fixpoint trimEnd (s : string) : string :=
  match s with
  | String c r =>
      match trimEnd r with
      | "" => if isWhiteSpace c then "" else String c ""
      | r' => String c r'
      end
  | "" => ""
  end.

Definition trim (s : string) : string := trimEnd (trimStart s).

(** [parts.join(sep)] *)
Fixpoint join (sep : string) (parts : list string) : string :=
  match parts with
  | [] => ""
  | [p] => p
  | p :: rest => p ++ sep ++ join sep rest
  end.

(** [Some rest] when [s = p ++ rest]. *)
Fixpoint dropPrefix (p s : string) : option string :=
  match p, s with
  | "", _ => Some s
  | String a p', String b s' =>
      if Ascii.eqb a b then dropPrefix p' s' else None
  | String _ _, "" => None
  end.

(** [s.replace(c, '')] with a one-character string pattern: only the first
    occurrence is removed. *)
Fixpoint removeFirst (c : ascii) (s : string) : string :=
  match s with
  | String a r => if Ascii.eqb a c then r else String a (removeFirst c r)
  | "" => ""
  end.

Fixpoint allChars (p : ascii -> bool) (s : string) : bool :=
  match s with
  | String c r => p c && allChars p r
  | "" => true
  end.

Definition inRange (lo hi c : ascii) : bool :=
  (N_of_ascii lo <=? N_of_ascii c)%N && (N_of_ascii c <=? N_of_ascii hi)%N.

Definition isDigit (c : ascii) : bool := inRange "0" "9" c.

End JS.
Import JS.

(* ------------------------------------------------------------------ *)
(** ** Video Identifier Resolver (caption pipeline)

    [extractVideoId] has the same text in the script and in the route. *)

(** The character class [[a-zA-Z0-9_-]]. *)
Definition isIdChar (c : ascii) : bool :=
  inRange "a" "z" c || inRange "A" "Z" c || inRange "0" "9" c
  || Ascii.eqb c "_" || Ascii.eqb c "-".

(** The complement of the class [[^&\n?#]]. *)
Definition isDelimiter (c : ascii) : bool :=
  Ascii.eqb c "&" || Ascii.eqb c "010" || Ascii.eqb c "?" || Ascii.eqb c "#".

(** The alternation
    [(?:youtube\.com\/watch\?v=|youtu\.be\/|youtube\.com\/embed\/)]. *)
Definition urlPrefixes : list string :=
  ["youtube.com/watch?v="; "youtu.be/"; "youtube.com/embed/"].

(** The greedy group [([^&\n?#]+)]: nothing follows it in the pattern, so it
    takes the longest run of non-delimiters. *)
Fixpoint captureRun (s : string) : string :=
  match s with
  | String c r => if isDelimiter c then "" else String c (captureRun r)
  | "" => ""
  end.

(** The first pattern tried at the start of [s]: the alternatives in order,
    each followed by a non-empty capture. *)
Fixpoint matchUrlAt (alts : list string) (s : string) : option string :=
  match alts with
  | [] => None
  | p :: alts' =>
      match dropPrefix p s with
      | Some rest =>
          match captureRun rest with
          | "" => matchUrlAt alts' s
          | cap => Some cap
          end
      | None => matchUrlAt alts' s
      end
  end.

(** The pattern is not anchored: the leftmost position that matches wins. *)
Fixpoint searchUrl (s : string) : option string :=
  match matchUrlAt urlPrefixes s with
  | Some cap => Some cap
  | None =>
      match s with
      | String _ r => searchUrl r
      | "" => None
      end
  end.

(** The second pattern, [/^([a-zA-Z0-9_-]{11})$/]. *)
Definition matchBareId (s : string) : option string :=
  if (length s =? 11)%nat && allChars isIdChar s then Some s else None.

(** [extractVideoId]: the two patterns in order, the first match's group;
    [None] is the [null] result. *)
Definition extractVideoId (url : string) : option string :=
  match searchUrl url with
  | Some cap => Some cap
  | None => matchBareId url
  end.

(* ------------------------------------------------------------------ *)
(** ** Timestamp formatting ([formatTimestamp], same text in both files) *)

Definition formatTimestamp (seconds : number) : string :=
  let h := Math_floor (divBy seconds 3600) in
  let m := Math_floor (divBy (remBy seconds 3600) 60) in
  let s := Math_floor (remBy seconds 60) in
  if positiveInt h then
    toString h ++ ":" ++ padStart (toString m) 2 "0" ++ ":"
      ++ padStart (toString s) 2 "0"
  else
    toString m ++ ":" ++ padStart (toString s) 2 "0".

(* ------------------------------------------------------------------ *)
(** ** Thrown errors *)

(** A computation either returns or throws an [Error] with a message. *)
Inductive result (A : Type) : Type :=
| Ok (a : A)
| Throw (message : string).
Arguments Ok {A} a.
Arguments Throw {A} message.

Definition bindResult {A B} (r : result A) (k : A -> result B) : result B :=
  match r with
  | Ok a => k a
  | Throw m => Throw m
  end.

Declare Scope result_scope.
Delimit Scope result_scope with result.
Notation "x <- r ;; k" := (bindResult r (fun x => k))
  (at level 61, r at next level, right associativity) : result_scope.

(* ------------------------------------------------------------------ *)
(** ** Video Identifier Resolver of the audio download script *)

Module Download.

(** The group [([a-zA-Z0-9_-]{11})]: exactly eleven identifier characters. *)
Definition captureId (s : string) : option string :=
  let cap := substring 0 11 s in
  if (length cap =? 11)%nat && allChars isIdChar cap then Some cap else None.

Fixpoint matchIdAt (alts : list string) (s : string) : option string :=
  match alts with
  | [] => None
  | p :: alts' =>
      match dropPrefix p s with
      | Some rest =>
          match captureId rest with
          | Some cap => Some cap
          | None => matchIdAt alts' s
          end
      | None => matchIdAt alts' s
      end
  end.

Fixpoint searchId (alts : list string) (s : string) : option string :=
  match matchIdAt alts s with
  | Some cap => Some cap
  | None =>
      match s with
      | String _ r => searchId alts r
      | "" => None
      end
  end.

(** [/(?:youtube\.com\/watch\?v=|youtu\.be\/)([a-zA-Z0-9_-]{11})/] and
    [/youtube\.com\/embed\/([a-zA-Z0-9_-]{11})/]. *)
Definition patterns : list (list string) :=
  [ ["youtube.com/watch?v="; "youtu.be/"]; ["youtube.com/embed/"] ].

Fixpoint firstMatch (pats : list (list string)) (input : string)
  : option string :=
  match pats with
  | [] => None
  | alts :: pats' =>
      match searchId alts input with
      | Some cap => Some cap
      | None => firstMatch pats' input
      end
  end.

Definition extractVideoId (input : string) : result string :=
  if (length input =? 11)%nat && allChars isIdChar input then Ok input
  else
    match firstMatch patterns input with
    | Some cap => Ok cap
    | None => Throw ("Invalid YouTube URL or video ID: " ++ input)
    end.

End Download.

(* ------------------------------------------------------------------ *)
(** ** File-system effects

    The two formatters create a directory and write one file.  An effectful
    computation threads the log of file-system operations performed so far and
    may throw. *)

Module Fs.

Inductive FsOp : Type :=
| Mkdir (dir : string)
| WriteFile (path content : string).

Definition Eff (A : Type) : Type := list FsOp -> result A * list FsOp.

Definition ret {A} (a : A) : Eff A := fun log => (Ok a, log).

Definition throw {A} (message : string) : Eff A :=
  fun log => (Throw message, log).

Definition bind {A B} (m : Eff A) (k : A -> Eff B) : Eff B :=
  fun log =>
    match m log with
    | (Ok a, log') => k a log'
    | (Throw msg, log') => (Throw msg, log')
    end.

Definition perform (op : FsOp) : Eff unit :=
  fun log => (Ok tt, (log ++ [op])%list).

(** [fs.mkdir(dir, { recursive: true })] *)
Definition mkdir (dir : string) : Eff unit := perform (Mkdir dir).

(** [fs.writeFile(path, content, 'utf-8')] *)
Definition writeFile (path content : string) : Eff unit :=
  perform (WriteFile path content).

Definition lift {A} (r : result A) : Eff A := fun log => (r, log).

End Fs.

Declare Scope eff_scope.
Delimit Scope eff_scope with eff.
Notation "x <- m ;; k" := (Fs.bind m (fun x => k))
  (at level 61, m at next level, right associativity) : eff_scope.
Notation "m ;; k" := (Fs.bind m (fun _ => k))
  (at level 61, right associativity) : eff_scope.

(** [!markdownContent || markdownContent.length < 100], the same test in the
    route and in the script. *)
Definition degenerate (markdownContent : string) : bool :=
  (markdownContent =? "") || (length markdownContent <? 100)%nat.

(* ------------------------------------------------------------------ *)
(** ** Caption segments as the caption service returns them *)

Module Caption.

Record CaptionSegment : Type := {
  text : js string;
  offset : js number;
  duration : js number
}.

End Caption.

(** The numeric value of a property used in arithmetic: [undefined] is NaN
    and [null] is 0. *)
Definition toNumber (v : js number) : number :=
  match v with
  | Def n => n
  | Null => ofZ 0
  | Undefined => NaN
  end.

(* ------------------------------------------------------------------ *)
(** ** The standalone script: Segment Normalizer and Document Formatter *)

Module Script.

Record NormalizedSegment : Type := {
  text : string;
  timestamp : number;
  duration : number
}.

Record Processed : Type := {
  transcriptSegments : list NormalizedSegment;
  totalDuration : number;
  fullTranscriptText : string
}.

Section Normalizer.

(** [JSON.stringify] of a segment, used only inside error messages. *)
Variable stringify : js Caption.CaptionSegment -> string.

(** The message of the error thrown for a malformed element. *)
Definition invalidSegment (index : nat) (item : js Caption.CaptionSegment)
  : string :=
  "Invalid transcript segment at index " ++ decimal (Z.of_nat index)
    ++ ": " ++ stringify item.

(** The callback of [rawTranscript.map((item, index) => ...)]: the element
    is rejected when [!item], or when its offset or its duration is
    [undefined]. *)
Definition normalizeItem (index : nat) (item : js Caption.CaptionSegment)
  : result NormalizedSegment :=
  match item with
  | Def it =>
      if isUndefined (Caption.offset it) || isUndefined (Caption.duration it)
      then Throw (invalidSegment index item)
      else Ok {| text := orEmpty (Caption.text it);
                 timestamp := divBy (toNumber (Caption.offset it)) 1000;
                 duration := divBy (toNumber (Caption.duration it)) 1000 |}
  | _ => Throw (invalidSegment index item)
  end.

(** [map] visits the elements in order and stops at the first throw. *)
Fixpoint mapSegments (index : nat) (items : list (js Caption.CaptionSegment))
  : result (list NormalizedSegment) :=
  match items with
  | [] => Ok []
  | item :: rest =>
      (seg <- normalizeItem index item ;;
       segs <- mapSegments (S index) rest ;;
       Ok (seg :: segs))%result
  end.

Definition timestampLine (seg : NormalizedSegment) : string :=
  "[" ++ formatTimestamp (timestamp seg) ++ "] " ++ text seg.

(** Step 2 of [transcriptToMarkdown]. *)
Definition processSegments (rawTranscript : list (js Caption.CaptionSegment))
  : result Processed :=
  match rawTranscript with
  | [] =>
      Throw "Transcript is empty. The video may not have captions available."
  | _ =>
      (segs <- mapSegments 0 rawTranscript ;;
       match rev segs with
       | [] => Throw "Failed to process transcript segments"
       | lastSegment :: _ =>
           Ok {| transcriptSegments := segs;
                 totalDuration :=
                   add (timestamp lastSegment) (duration lastSegment);
                 fullTranscriptText :=
                   join (String "010" "") (map timestampLine segs) |}
       end)%result
  end.

End Normalizer.

(** *** The end of [transcriptToMarkdown] *)

Section Formatter.

Variable path_join : list string -> string.
Variable path_dirname : string -> string.
Variable cwd : string.

(** [response.text] is the text of the completion; [outputPath] is the
    optional second command-line argument. *)
Definition saveMarkdown (videoId : string) (responseText : js string)
    (outputPath : js string) : Fs.Eff unit :=
  match responseText with
  | Def (String c r) =>
      let markdownContent := trim (String c r) in
      if degenerate markdownContent then
        Fs.throw "Received empty or very short markdown from Gemini"
      else
        let defaultOutputPath :=
          path_join [cwd; "youtube"; videoId; "transcript.md"] in
        let finalOutputPath :=
          match outputPath with
          | Def (String a p) => String a p
          | _ => defaultOutputPath
          end in
        let outputDir := path_dirname finalOutputPath in
        (Fs.mkdir outputDir ;;
         Fs.writeFile finalOutputPath markdownContent)%eff
  | _ => Fs.throw "No text response from Gemini"
  end.

End Formatter.

End Script.

(* ------------------------------------------------------------------ *)
(** ** The HTTP route: Caption Fetcher and Document Formatter *)

Module Route.

(** *** Caption Fetcher *)

(** What one call of [YoutubeTranscript.fetchTranscript] does: it rejects
    with an error, or resolves to a value that should be an array of
    segments. *)
Inductive FetchOutcome : Type :=
| Rejects (message : string)
| Resolves (rawTranscript : js (list (js Caption.CaptionSegment))).

(** [['en', 'en-US', 'en-GB', undefined]]; [None] is the call without a
    language. *)
Definition languageCodes : list (option string) :=
  [Some "en"; Some "en-US"; Some "en-GB"; None].

Record FetchState : Type := {
  transcriptText : string;
  lastError : option string;
  attempted : list (option string)
}.

Definition initialState : FetchState :=
  {| transcriptText := ""; lastError := None; attempted := [] |}.

(** [rawTranscript.map(item => item.text)]: reading [text] on a [null] or
    [undefined] element throws a TypeError (message as Node prints it). *)
Fixpoint itemTexts (items : list (js Caption.CaptionSegment))
  : result (list (js string)) :=
  match items with
  | [] => Ok []
  | Def it :: rest =>
      (texts <- itemTexts rest ;; Ok (Caption.text it :: texts))%result
  | Null :: _ => Throw "Cannot read properties of null (reading 'text')"
  | Undefined :: _ =>
      Throw "Cannot read properties of undefined (reading 'text')"
  end.

(** [.join(' ')]: [undefined] and [null] elements are joined as empty
    strings. *)
Definition joinTexts (texts : list (js string)) : string :=
  join " " (map orEmpty texts).

(** [!transcriptText || transcriptText.trim().length < 50] *)
Definition tooShort (transcriptText : string) : bool :=
  (transcriptText =? "") || (length (trim transcriptText) <? 50)%nat.

Section Fetcher.

Variable fetchTranscript : option string -> FetchOutcome.

(** One iteration of the [for] loop; the boolean is [true] on [break]. *)
Definition attempt (lang : option string) (st : FetchState)
  : FetchState * bool :=
  let tried := (attempted st ++ [lang])%list in
  let failed (message : string) :=
    ({| transcriptText := transcriptText st;
        lastError := Some message;
        attempted := tried |}, false) in
  match fetchTranscript lang with
  | Rejects message => failed message
  | Resolves (Def (item :: items)) =>
      match itemTexts (item :: items) with
      | Throw message => failed message
      | Ok texts =>
          let joined := joinTexts texts in
          if tooShort joined then
            ({| transcriptText := joined;
                lastError := Some "Transcript is too short";
                attempted := tried |}, false)
          else
            ({| transcriptText := joined;
                lastError := lastError st;
                attempted := tried |}, true)
      end
  | Resolves _ => failed "Transcript is empty"
  end.

Fixpoint fetchLoop (langs : list (option string)) (st : FetchState)
  : FetchState :=
  match langs with
  | [] => st
  | lang :: rest =>
      let (st', stop) := attempt lang st in
      if stop then st' else fetchLoop rest st'
  end.

(** [lastError?.message || 'Unknown error'] *)
Definition lastErrorMessage (st : FetchState) : string :=
  match lastError st with
  | Some m => if m =? "" then "Unknown error" else m
  | None => "Unknown error"
  end.

(** Step 1 of [POST]: the final state of the loop and the transcript text,
    or the error thrown after the loop. *)
Definition fetchCaptions : FetchState * result string :=
  let st := fetchLoop languageCodes initialState in
  (st,
   if tooShort (transcriptText st) then
     Throw ("Failed to fetch transcript. "
              ++ "The video may not have captions available. Last error: "
              ++ lastErrorMessage st)
   else Ok (transcriptText st)).

End Fetcher.

(** *** Document Formatter *)

Record Part : Type := { text : js string }.
Record Content : Type := { parts : js (list Part) }.
Record Candidate : Type := { content : js Content }.
Record ErrorBody : Type := { message : js string }.
Record GeminiData : Type := {
  error : js ErrorBody;
  candidates : js (list (js Candidate))
}.

Record Success : Type := {
  videoId : string;
  outputPath : string;
  markdownLength : nat;
  estimatedWords : nat
}.

Section Formatter.

Variable path_join : list string -> string.
Variable cwd : string.
Variable stringify : ErrorBody -> string.

(** [data.candidates[0]?.content?.parts?.find(part => ...)], the test being
    [part.text !== undefined]. *)
Definition findTextPart (first : js Candidate) : option Part :=
  match first with
  | Def c =>
      match content c with
      | Def ct =>
          match parts ct with
          | Def ps => find (fun part => negb (isUndefined (text part))) ps
          | _ => None
          end
      | _ => None
      end
  | _ => None
  end.

(** From the parsed body of a successful HTTP response to the text of the
    completion. *)
Definition extractText (data : GeminiData) : result string :=
  match error data with
  | Def e =>
      Throw (match message e with
             | Def m => if m =? "" then stringify e else m
             | _ => stringify e
             end)
  | _ =>
      match candidates data with
      | Def (first :: _) =>
          match findTextPart first with
          | Some part =>
              match text part with
              | Def t =>
                  if t =? "" then Throw "No text response from Gemini"
                  else Ok t
              | _ => Throw "No text response from Gemini"
              end
          | None => Throw "No text response from Gemini"
          end
      | _ => Throw "No candidates in Gemini response"
      end
  end.

(** The end of [POST]: trim, check, create the directory, write.  The
    estimated word count is [Math.round(length / 5)]. *)
Definition saveMarkdown (videoId : string) (completion : string)
  : Fs.Eff Success :=
  let markdownContent := trim completion in
  if degenerate markdownContent then
    Fs.throw "Received empty or very short markdown from Gemini"
  else
    let outputDir := path_join [cwd; "youtube"; videoId] in
    (Fs.mkdir outputDir ;;
     let outputPath := path_join [outputDir; "transcript.md"] in
     Fs.writeFile outputPath markdownContent ;;
     Fs.ret {| videoId := videoId;
               outputPath := "youtube/" ++ videoId ++ "/transcript.md";
               markdownLength := length markdownContent;
               estimatedWords := (2 * length markdownContent + 5) / 10 |})%eff.

Definition formatAndSave (videoId : string) (data : GeminiData)
  : Fs.Eff Success :=
  (completion <- Fs.lift (extractText data) ;;
   saveMarkdown videoId completion)%eff.

End Formatter.

End Route.

(* ------------------------------------------------------------------ *)
(** ** [parseFloat] *)

Module Parse.

Definition digitValue (c : ascii) : Z := Z.of_N (N_of_ascii c) - 48.

(** The longest prefix of decimal digits, and what follows it. *)
Fixpoint takeDigits (s : string) : string * string :=
  match s with
  | String c r =>
      if isDigit c then
        let (ds, rest) := takeDigits r in (String c ds, rest)
      else ("", s)
  | "" => ("", "")
  end.

Fixpoint digitsValue (acc : Z) (ds : string) : Z :=
  match ds with
  | String c r => digitsValue (10 * acc + digitValue c) r
  | "" => acc
  end.

Definition takeSign (s : string) : bool * string :=
  match s with
  | String "-" r => (true, r)
  | String "+" r => (false, r)
  | _ => (false, s)
  end.

(** The optional exponent part [[eE][+-]?digits]; 0 when it is absent or
    incomplete. *)
Definition exponentPart (s : string) : Z :=
  match s with
  | String c r =>
      if Ascii.eqb c "e" || Ascii.eqb c "E" then
        let (negative, r') := takeSign r in
        let (ds, _) := takeDigits r' in
        match ds with
        | "" => 0
        | _ => if negative then - digitsValue 0 ds else digitsValue 0 ds
        end
      else 0
  | "" => 0
  end%Z.

Definition scale10 (q : Q) (k : Z) : Q :=
  if (0 <=? k)%Z then q * inject_Z (10 ^ k)
  else q / inject_Z (10 ^ (- k)).

(** [parseFloat(s)]: leading white space is skipped, then the longest
    prefix that is a decimal literal is read; NaN when there is none. *)
Definition parseFloat (s : string) : number :=
  let (negative, body) := takeSign (trimStart s) in
  match dropPrefix "Infinity" body with
  | Some _ => if negative then NegInf else PosInf
  | None =>
      let (ip, afterInt) := takeDigits body in
      let (fp, afterFrac) :=
        match afterInt with
        | String "." r => takeDigits r
        | _ => ("", afterInt)
        end in
      match ip ++ fp with
      | "" => NaN
      | ds =>
          let mantissa := inject_Z (digitsValue 0 ds) in
          let k := (exponentPart afterFrac - Z.of_nat (length fp))%Z in
          let magnitude := scale10 mantissa k in
          Fin (Qred (if negative then - magnitude else magnitude))
      end
  end.

End Parse.

(* ------------------------------------------------------------------ *)
(** ** Batch Transcription Client ([transcribeAudio]) *)

Module Speech.

Record SegmentInfo : Type := {
  text : string;
  start : number;
  end_ : number;
  confidence : number
}.

Record Alternative : Type := {
  alt_transcript : js string;
  alt_confidence : js number
}.

(** The [seconds] and [nanos] of the structured encoding arrive as numbers
    or as strings. *)
Inductive Scalar : Type :=
| SNum (n : number)
| SStr (s : string).

(** The two encodings of [resultEndOffset]. *)
Inductive Duration : Type :=
| DurString (s : string)
| DurObject (seconds nanos : js Scalar).

Record RecognitionResult : Type := {
  alternatives : js (list (js Alternative));
  resultEndOffset : js Duration
}.

Record LoopState : Type := {
  segments : list SegmentInfo;
  fullTranscript : string;
  lastEndTime : number
}.

Record TranscriptResult : Type := {
  total_duration : number;
  result_segments : list SegmentInfo;
  full_transcript : string
}.

(** [result.alternatives?.[0]], with [None] for every falsy outcome. *)
Definition firstAlternative (r : RecognitionResult) : option Alternative :=
  match alternatives r with
  | Def (Def alt :: _) => Some alt
  | _ => None
  end.

Section Extraction.

(** [Number(s)] on a string. *)
Variable StringToNumber : string -> number.

(** [Number(v || 0)] *)
Definition numberOrZero (v : js Scalar) : number :=
  match v with
  | Def (SNum n) => if truthy n then n else ofZ 0
  | Def (SStr "") => ofZ 0
  | Def (SStr s) => StringToNumber s
  | _ => ofZ 0
  end.

(** The value of [endSecs] for one result. *)
Definition endSeconds (off : js Duration) : number :=
  match off with
  | Def (DurString "") => ofZ 0
  | Def (DurString s) => Parse.parseFloat (removeFirst "s" s)
  | Def (DurObject seconds nanos) =>
      add (numberOrZero seconds) (divBy (numberOrZero nanos) 1000000000)
  | _ => ofZ 0
  end.

(** One iteration of [for (const result of response_data.results || [])]. *)
Definition step (st : LoopState) (r : RecognitionResult) : LoopState :=
  match firstAlternative r with
  | None => st
  | Some alternative =>
      let text := orEmpty (alt_transcript alternative) in
      let endSecs := endSeconds (resultEndOffset r) in
      {| segments :=
           segments st ++
             [ {| text := text;
                  start := lastEndTime st;
                  end_ := endSecs;
                  confidence := orZero (alt_confidence alternative) |} ];
         fullTranscript := fullTranscript st ++ text ++ " ";
         lastEndTime := endSecs |}
  end.

Definition processResults (results : list RecognitionResult) : LoopState :=
  fold_left step results
    {| segments := []; fullTranscript := ""; lastEndTime := ofZ 0 |}.

Definition buildResult (results : list RecognitionResult) : TranscriptResult :=
  let st := processResults results in
  {| total_duration :=
       match rev (segments st) with
       | lastSegment :: _ => end_ lastSegment
       | [] => ofZ 0
       end;
     result_segments := segments st;
     full_transcript := trim (fullTranscript st) |}.

End Extraction.

(** *** The size test and the object name of the upload *)

Section Submission.

Variable now : string.
Variable basename : string -> string.

(** The object name [uploadToGCS] builds and returns. *)
Definition gcsUri (audioFile projectId : string) : string :=
  let bucketName := projectId ++ "-speech-transcripts" in
  let fileName := "transcripts/" ++ now ++ "-" ++ basename audioFile in
  "gs://" ++ bucketName ++ "/" ++ fileName.


End Submission.

End Speech.

(* ------------------------------------------------------------------ *)
(** ** Vocabulary of the statements *)

(** The character of a decimal digit. *)
Definition digitChar (d : Z) : ascii := ascii_of_N (48 + Z.to_N d).

(** A value below 100 written with exactly two digits. *)
Definition twoDigits (v : Z) : string :=
  String (digitChar (v / 10)) (String (digitChar (v mod 10)) "").

(** A video identifier: eleven characters of [[a-zA-Z0-9_-]]. *)
Definition isVideoIdentifier (id : string) : bool :=
  (length id =? 11)%nat && allChars isIdChar id.

Definition nonDelimiter (c : ascii) : bool := negb (isDelimiter c).

Definition notLetterY (c : ascii) : bool := negb (Ascii.eqb c "y").

(** What may follow an identifier inside a URL: nothing, or text that
    starts with one of [&], newline, [?], [#]. *)
Definition terminated (rest : string) : bool :=
  match rest with
  | "" => true
  | String d _ => isDelimiter d
  end.

(** The URL pattern matches at the start of [s]: one of the three literal
    prefixes, then at least one non-delimiter. *)
Definition startsWithUrlPattern (s : string) : Prop :=
  exists lit c rest,
    In lit urlPrefixes /\ s = lit ++ String c rest /\ isDelimiter c = false.

(** The URL pattern matches somewhere in [url]. *)
Definition urlPatternMatches (url : string) : Prop :=
  exists pre tail, url = pre ++ tail /\ startsWithUrlPattern tail.

(** The four characters that end the capture of the URL pattern. *)
Definition stopCharacter (c : ascii) : Prop :=
  c = "&"%char \/ c = "010"%char \/ c = "?"%char \/ c = "#"%char.

(** The three literal prefixes of the URL pattern. *)
Definition urlLiteral (lit : string) : Prop :=
  lit = "youtube.com/watch?v=" \/ lit = "youtu.be/"
  \/ lit = "youtube.com/embed/".

(** The URL pattern matches at the start of [s]: a literal prefix, then a
    character that is not a stop character. *)
Definition patternBeginsAt (s : string) : Prop :=
  exists lit c rest,
    urlLiteral lit /\ s = lit ++ String c rest /\ ~ stopCharacter c.

(** The URL pattern matches at no position of [pre ++ tail] that lies
    inside [pre]: a match at the start of [tail] is the leftmost one. *)
Definition leftmostAt (pre tail : string) : Prop :=
  forall p s, pre = p ++ s -> s <> "" -> ~ patternBeginsAt (s ++ tail).

(** No character of [s] is a stop character. *)
Fixpoint noStop (s : string) : Prop :=
  match s with
  | "" => True
  | String c r => ~ stopCharacter c /\ noStop r
  end.

(** What ends a capture: the end of the input or a stop character. *)
Definition endsCapture (rest : string) : Prop :=
  rest = "" \/ exists d r, rest = String d r /\ stopCharacter d.

(** None of the literals occurs in [s]. *)
Definition freeOf (lits : list string) (s : string) : Prop :=
  forall lit p t, In lit lits -> s <> p ++ lit ++ t.

(** The first character of [s] outside [[a-zA-Z0-9_-]], if any. *)
Fixpoint firstNonId (s : string) : option ascii :=
  match s with
  | String c r => if isIdChar c then firstNonId r else Some c
  | "" => None
  end.

(** Every literal prefix of either resolver begins with the letter y and
    has a dot before any other character outside the identifier class. *)
Definition literalShape (lit : string) : Prop :=
  (exists t, lit = String "y" t)
  /\ (forall r, firstNonId (lit ++ r) = Some "."%char).

(** The segments form a chain that starts at [prev]: each start is the end
    before it. *)
Fixpoint contiguousFrom (prev : number) (segs : list Speech.SegmentInfo)
  : Prop :=
  match segs with
  | [] => True
  | seg :: rest =>
      Speech.start seg = prev /\ contiguousFrom (Speech.end_ seg) rest
  end.

(** The end of the last segment, or [prev] when there is none. *)
Fixpoint lastEnd (prev : number) (segs : list Speech.SegmentInfo) : number :=
  match segs with
  | [] => prev
  | seg :: rest => lastEnd (Speech.end_ seg) rest
  end.

(** The results that produce a segment. *)
Definition hasAlternative (r : Speech.RecognitionResult) : bool :=
  match Speech.firstAlternative r with
  | Some _ => true
  | None => false
  end.

(** A recognition result with one alternative and a string end offset. *)
Definition spoken (words endOffset : string) : Speech.RecognitionResult :=
  {| Speech.alternatives :=
       Def [Def {| Speech.alt_transcript := Def words;
                   Speech.alt_confidence := Undefined |}];
     Speech.resultEndOffset := Def (Speech.DurString endOffset) |}.

(** A recognition result with one alternative and no end offset. *)
Definition unended (words : string) : Speech.RecognitionResult :=
  {| Speech.alternatives :=
       Def [Def {| Speech.alt_transcript := Def words;
                   Speech.alt_confidence := Undefined |}];
     Speech.resultEndOffset := Undefined |}.

(** The loop invariant: the segments emitted so far are chained from 0 and
    [lastEndTime] is where the chain ends. *)
Definition chained (st : Speech.LoopState) : Prop :=
  contiguousFrom (ofZ 0) (Speech.segments st)
  /\ Speech.lastEndTime st = lastEnd (ofZ 0) (Speech.segments st).

(** An element the Segment Normalizer accepts: an object whose offset and
    duration are both defined. *)
Definition hasTiming (item : js Caption.CaptionSegment) : bool :=
  match item with
  | Def it =>
      negb (isUndefined (Caption.offset it))
      && negb (isUndefined (Caption.duration it))
  | _ => false
  end.

(** [seg] is the conversion of [item] from milliseconds to seconds. *)
Definition inSeconds (item : js Caption.CaptionSegment)
    (seg : Script.NormalizedSegment) : Prop :=
  exists it,
    item = Def it
    /\ Script.timestamp seg = divBy (toNumber (Caption.offset it)) 1000
    /\ Script.duration seg = divBy (toNumber (Caption.duration it)) 1000
    /\ Script.text seg = orEmpty (Caption.text it).

(** A caption segment with all three fields present, times in
    milliseconds. *)
Definition caption (words : string) (offsetMs durationMs : Z)
  : js Caption.CaptionSegment :=
  Def {| Caption.text := Def words;
         Caption.offset := Def (ofZ offsetMs);
         Caption.duration := Def (ofZ durationMs) |}.

(** The joined text of a candidate whose call resolved to a non-empty array
    of segment objects. *)
Definition joinedText (out : Route.FetchOutcome) : option string :=
  match out with
  | Route.Resolves (Def (item :: items)) =>
      match Route.itemTexts (item :: items) with
      | Ok texts => Some (Route.joinTexts texts)
      | Throw _ => None
      end
  | _ => None
  end.

(** A candidate is usable when it has a joined text that passes the length
    test of the loop. *)
Definition usable (out : Route.FetchOutcome) : bool :=
  match joinedText out with
  | Some joined => negb (Route.tooShort joined)
  | None => false
  end.

(** Nothing accepted so far: the text kept in the state fails the test. *)
Definition pending (st : Route.FetchState) : Prop :=
  Route.tooShort (Route.transcriptText st) = true.

Definition fiftyCharacters : string :=
  "This caption text is exactly fifty characters long".

Definition sixtyCharacters : string :=
  "This caption text is sixty characters long, which is plenty.".

(** A caption service whose only track is the given text, served for the
    given language. *)
Definition serviceWith (language words : string) (lang : option string)
  : Route.FetchOutcome :=
  match lang with
  | Some l =>
      if l =? language then
        Route.Resolves
          (Def [Def {| Caption.text := Def words;
                       Caption.offset := Def (ofZ 0);
                       Caption.duration := Def (ofZ 4000) |}])
      else Route.Rejects "No transcripts are available in this language"
  | None => Route.Rejects "Transcript is disabled on this video"
  end.

(** [a <= b] between finite numbers. *)
Definition numLe (a b : number) : Prop :=
  match a, b with
  | Fin x, Fin y => (x <= y)%Q
  | _, _ => False
  end.

(** The values never decrease, starting from [prev]. *)
Fixpoint nondecreasingFrom (prev : number) (values : list number) : Prop :=
  match values with
  | [] => True
  | v :: rest => numLe prev v /\ nondecreasingFrom v rest
  end.

(* ------------------------------------------------------------------ *)
(** ** Effects with a log of events

    The remaining functions talk to the network and to the file system.  A
    computation threads the log of the events it caused, in order, and may
    throw. *)

Module Effect.

Section Events.

Context {E : Type}.

Definition M (A : Type) : Type := list E -> result A * list E.

Definition ret {A} (a : A) : M A := fun log => (Ok a, log).

Definition throw {A} (message : string) : M A :=
  fun log => (Throw message, log).

Definition bind {A B} (m : M A) (k : A -> M B) : M B :=
  fun log =>
    match m log with
    | (Ok a, log') => k a log'
    | (Throw message, log') => (Throw message, log')
    end.

Definition emit (e : E) : M unit := fun log => (Ok tt, (log ++ [e])%list).

Definition lift {A} (r : result A) : M A := fun log => (r, log).

(** [try { m } catch (error) { handler(error.message) }] *)
Definition catch {A} (m : M A) (handler : string -> M A) : M A :=
  fun log =>
    match m log with
    | (Ok a, log') => (Ok a, log')
    | (Throw message, log') => handler message log'
    end.

(** The result and the events of a computation started on an empty log. *)
Definition run {A} (m : M A) : result A * list E := m [].


End Events.

End Effect.

Declare Scope effect_scope.
Delimit Scope effect_scope with effect.
Notation "x <- m ;; k" := (Effect.bind m (fun x => k))
  (at level 61, m at next level, right associativity) : effect_scope.
Notation "m ;; k" := (Effect.bind m (fun _ => k))
  (at level 61, right associativity) : effect_scope.

(** The operations of a file-system computation, performed on a file
    system that may refuse them: the first refusal is thrown and nothing
    after it is attempted. *)
Fixpoint attemptOps (perform : Fs.FsOp -> result unit) (ops : list Fs.FsOp)
  : result unit * list Fs.FsOp :=
  match ops with
  | [] => (Ok tt, [])
  | op :: rest =>
      match perform op with
      | Ok _ =>
          let (outcome, attempted) := attemptOps perform rest in
          (outcome, op :: attempted)
      | Throw message => (Throw message, [op])
      end
  end.

(** A computation over the file system as a computation with events [E],
    [inject] making an event of each operation attempted. *)
Definition withFileSystem {E A : Type} (perform : Fs.FsOp -> result unit)
    (inject : Fs.FsOp -> E) (m : Fs.Eff A) : Effect.M A :=
  fun log =>
    let (outcome, ops) := m [] in
    let (performed, attempted) := attemptOps perform ops in
    (match performed with
     | Ok _ => outcome
     | Throw message => Throw message
     end,
     (log ++ map inject attempted)%list).

(** The double quote and the line feed inside the template literals. *)
Definition dq : string := String "034" "".
Definition nl : string := String "010" "".

(** [s.includes(sub)] *)
Fixpoint includes (s sub : string) : bool :=
  match dropPrefix sub s with
  | Some _ => true
  | None =>
      match s with
      | String _ r => includes r sub
      | "" => false
      end
  end.

(** [!v] for a string-valued property: absent, [null] or empty. *)
Definition absent (v : js string) : bool :=
  match v with
  | Def (String _ _) => false
  | _ => true
  end.

(** [${text.substring(0, 200000)}${text.length > 200000 ? marker : ''}], the
    same expression in the prompt of the route and of the script; the limit
    is 200000. *)
Definition excerptLimit : nat := Z.to_nat 200000.

Definition transcriptExcerpt (text : string) : string :=
  substring 0 excerptLimit text
    ++ (if (excerptLimit <? length text)%nat
        then nl ++ "[... transcript continues ...]"
        else "").

(* ------------------------------------------------------------------ *)
(** ** The HTTP route as a whole ([POST]) *)

Module Handler.

(** What the route observes of the reply of the generative-text service. *)
Record HttpReply : Type := {
  ok : bool;
  status : Z;
  statusText : string;
  json : result Route.GeminiData;
  text : result string
}.

Record GeminiRequest : Type := {
  endpoint : string;
  prompt : string;
  temperature : number;
  maxOutputTokens : Z
}.

Inductive Event : Type :=
| CaptionFetch (videoId : string) (lang : option string)
| GeminiCall (request : GeminiRequest)
| FileSystem (op : Fs.FsOp).

(** The body of a [NextResponse.json]. *)
Inductive Body : Type :=
| ErrorJson (error : string)
| SuccessJson (success : Route.Success).

Record Response : Type := {
  code : Z;
  body : Body
}.

(** The error thrown on a token-limit failure; its non-ASCII characters
    stand as their UTF-8 bytes. *)
Definition tooLongMessage : string :=
  "âŒ Video is too long for direct processing." ++ nl ++ nl
    ++ "The video exceeds Gemini's token limit (1,048,576 tokens). "
    ++ "This typically happens with videos longer than ~2-3 hours." ++ nl
    ++ nl ++ "ðŸ’¡ Solutions:" ++ nl
    ++ "â€¢ Try a shorter video (under ~2 hours recommended)" ++ nl
    ++ "â€¢ Use maxDurationMinutes to limit processing to first 30 "
    ++ "minutes" ++ nl
    ++ "â€¢ Process the video in segments using different time "
    ++ "ranges".

Definition formattingPrompt (url videoId transcriptText : string) : string :=
  "You are a content formatter. Convert this YouTube video "
    ++ "transcript into well-structured markdown." ++ nl ++ nl
    ++ "Video URL: " ++ url ++ nl ++ "Video ID: " ++ videoId ++ nl ++ nl
    ++ "TRANSCRIPT:" ++ nl ++ transcriptExcerpt transcriptText ++ nl ++ nl
    ++ "Format as markdown:" ++ nl
    ++ "- Use # for title, ## for sections, ### for subsections" ++ nl
    ++ "- Include timestamps [MM:SS] at section breaks when " ++ "available"
    ++ nl ++ "- Format code in code blocks with language tags" ++ nl
    ++ "- Remove filler words (" ++ dq ++ "um" ++ dq ++ ", " ++ dq ++ "uh"
    ++ dq ++ ") but preserve meaning" ++ nl
    ++ "- Group related content into logical sections" ++ nl
    ++ "- Preserve technical terminology and code examples" ++ nl ++ nl
    ++ "Return ONLY the markdown, no commentary.".

Definition geminiRequest (apiKey url videoId transcriptText : string)
  : GeminiRequest :=
  {| endpoint :=
       "https://generativelanguage.googleapis.com/v1beta/models/"
         ++ "gemini-2.5-flash" ++ ":generateContent?key=" ++ apiKey;
     prompt := formattingPrompt url videoId transcriptText;
     temperature := Fin (3 # 10);
     maxOutputTokens := 32000 |}.

Section Route.

Variable fetchTranscript : string -> option string -> Route.FetchOutcome.
Variable callGemini : GeminiRequest -> result HttpReply.
Variable path_join : list string -> string.
Variable cwd : string.
Variable stringify : Route.ErrorBody -> string.
Variable perform : Fs.FsOp -> result unit.

(** The [try] block of the [!response.ok] branch: the value of
    [errorMessage] when it completes. *)
Definition readError (reply : HttpReply) (errorMessage : string)
  : result string :=
  (errorData <- json reply ;;
   match Route.error errorData with
   | Def e =>
       match Route.message e with
       | Def (String c m) =>
           if includes (String c m) "token count exceeds"
              || includes (String c m) "maximum number of tokens"
           then Throw tooLongMessage
           else Ok (String c m)
       | _ => Ok (stringify e)
       end
   | _ => Ok errorMessage
   end)%result.

(** The message of the error the [!response.ok] branch throws. *)
Definition geminiFailure (reply : HttpReply) : string :=
  let errorMessage :=
    "Gemini API failed: " ++ decimal (status reply) ++ " "
      ++ statusText reply in
  match readError reply errorMessage with
  | Ok message => message
  | Throw thrown =>
      if includes thrown "Video is too long" then thrown
      else
        match text reply with
        | Throw message => message
        | Ok "" => errorMessage
        | Ok errorText => errorText
        end
  end.

(** Step 1: the language loop, one event per candidate tried. *)
Definition fetchStep (videoId : string) : Effect.M string :=
  fun log =>
    let (st, outcome) := Route.fetchCaptions (fetchTranscript videoId) in
    (outcome,
     (log ++ map (CaptionFetch videoId) (Route.attempted st))%list).

(** The end of the handler, with its file-system operations as events. *)
Definition saveStep (videoId : string) (data : Route.GeminiData)
  : Effect.M Route.Success :=
  withFileSystem perform FileSystem
    (Route.formatAndSave path_join cwd stringify videoId data).

Definition respond (code : Z) (error : string) : Response :=
  {| code := code; body := ErrorJson error |}.

(** The body of the outer [try]. *)
Definition handle (requestJson : result (js string)) (apiKey : js string)
  : Effect.M Response :=
  (url <- Effect.lift requestJson ;;
   match url with
   | Def (String c u) =>
       match extractVideoId (String c u) with
       | Some (String i d) =>
           let videoId := String i d in
           match apiKey with
           | Def (String k ey) =>
               transcriptText <- fetchStep videoId ;;
               let request :=
                 geminiRequest (String k ey) (String c u) videoId
                   transcriptText in
               Effect.emit (GeminiCall request) ;;
               reply <- Effect.lift (callGemini request) ;;
               if ok reply then
                 data <- Effect.lift (json reply) ;;
                 success <- saveStep videoId data ;;
                 Effect.ret {| code := 200; body := SuccessJson success |}
               else Effect.throw (geminiFailure reply)
           | _ =>
               Effect.ret
                 (respond 500
                    ("GOOGLE_API_KEY not configured. "
                       ++ "Please add it to .env.local"))
           end
       | _ => Effect.ret (respond 400 "Invalid YouTube URL format")
       end
   | _ => Effect.ret (respond 400 "YouTube URL is required")
   end)%effect.

(** [POST]: the outer [catch] turns every thrown error into a 500 with
    [error.message || 'Failed to process YouTube video']. *)
Definition POST (requestJson : result (js string)) (apiKey : js string)
  : Response * list Event :=
  match Effect.run (handle requestJson apiKey) with
  | (Ok response, events) => (response, events)
  | (Throw "", events) =>
      (respond 500 "Failed to process YouTube video", events)
  | (Throw message, events) => (respond 500 message, events)
  end.

End Route.

End Handler.

(* ------------------------------------------------------------------ *)
(** ** The standalone script as a whole ([transcriptToMarkdown]) *)

Module Converter.

Record GenerateRequest : Type := {
  apiKey : string;
  model : string;
  contents : string;
  temperature : number;
  maxOutputTokens : Z
}.

Inductive Event : Type :=
| CaptionFetch (videoId : string)
| GenerateContent (request : GenerateRequest)
| FileSystem (op : Fs.FsOp).

Definition formattingPrompt (youtubeUrl videoId : string)
    (totalDuration : number) (segmentCount : nat)
    (fullTranscriptText : string) : string :=
  "You are a content formatter. Convert this YouTube video "
    ++ "transcript into a well-structured markdown document." ++ nl ++ nl
    ++ "Video URL: " ++ youtubeUrl ++ nl ++ "Video ID: " ++ videoId ++ nl
    ++ "Total Duration: " ++ formatTimestamp totalDuration ++ nl
    ++ "Number of segments: " ++ decimal (Z.of_nat segmentCount) ++ nl ++ nl
    ++ "TRANSCRIPT (with timestamps):" ++ nl
    ++ transcriptExcerpt fullTranscriptText ++ nl ++ nl ++ "Requirements:"
    ++ nl ++ "1. Create a clear markdown structure:" ++ nl
    ++ "   - Use # for main title (infer from transcript content)" ++ nl
    ++ "   - Use ## for major sections/topics (group related " ++ "segments)"
    ++ nl ++ "   - Use ### for subtopics" ++ nl
    ++ "   - Preserve natural flow and meaning" ++ nl ++ nl
    ++ "2. Formatting guidelines:" ++ nl
    ++ "   - Remove redundant timestamp markers, but keep key "
    ++ "timestamps at section breaks" ++ nl
    ++ "   - If code is discussed, format it in code blocks with "
    ++ "appropriate language tags" ++ nl
    ++ "   - Use markdown formatting for emphasis, lists, code, etc." ++ nl
    ++ "   - Group related content into logical sections" ++ nl
    ++ "   - Maintain the original meaning and flow" ++ nl ++ nl
    ++ "3. Structure:" ++ nl
    ++ "   - Start with a title based on the video content" ++ nl
    ++ "   - Organize content into logical sections" ++ nl
    ++ "   - Use clear headings to separate topics" ++ nl
    ++ "   - Preserve technical terminology and code examples" ++ nl ++ nl
    ++ "4. Quality:" ++ nl ++ "   - Remove filler words (" ++ dq ++ "um"
    ++ dq ++ ", " ++ dq ++ "uh" ++ dq ++ ") if they don't affect meaning"
    ++ nl ++ "   - Fix obvious transcription errors" ++ nl
    ++ "   - Maintain natural speech flow where appropriate" ++ nl
    ++ "   - Keep all important technical content" ++ nl ++ nl
    ++ "Return ONLY the markdown content, no additional commentary "
    ++ "or explanations.".

Section Script.

(** [YoutubeTranscript.fetchTranscript(videoId)] and
    [ai.models.generateContent(request)], the latter resolving to the
    [text] of the response. *)
Variable fetchTranscript : string -> Route.FetchOutcome.
Variable generateContent : GenerateRequest -> result (js string).
Variable path_join : list string -> string.
Variable path_dirname : string -> string.
Variable cwd : string.
Variable stringify : js Caption.CaptionSegment -> string.
Variable perform : Fs.FsOp -> result unit.

(** Step 1: every error of the [try] block, the empty-transcript one
    included, is rethrown with the download prefix and the tip. *)
Definition downloadStep (videoId : string)
  : Effect.M (list (js Caption.CaptionSegment)) :=
  (Effect.emit (E := Event) (CaptionFetch videoId) ;;
   Effect.catch
     (match fetchTranscript videoId with
      | Route.Rejects message => Effect.throw message
      | Route.Resolves (Def (item :: items)) => Effect.ret (item :: items)
      | Route.Resolves _ =>
          Effect.throw
            ("Transcript is empty. "
               ++ "The video may not have captions available.")
      end)
     (fun message =>
        Effect.throw
          ("Failed to download transcript: " ++ message ++ nl
             ++ "   Tip: The video may not have captions enabled.")))%effect.

(** Step 4, its file-system operations as events. *)
Definition saveStep (videoId : string) (responseText outputPath : js string)
  : Effect.M unit :=
  withFileSystem perform FileSystem
    (Script.saveMarkdown path_join path_dirname cwd videoId responseText
       outputPath).

Definition transcriptToMarkdown (youtubeUrl : string)
    (outputPath key : js string) : Effect.M unit :=
  match extractVideoId youtubeUrl with
  | Some (String i d) =>
      let videoId := String i d in
      match key with
      | Def (String k ey) =>
          (rawTranscript <- downloadStep videoId ;;
           processed <-
             Effect.lift (Script.processSegments stringify rawTranscript) ;;
           let request :=
             {| apiKey := String k ey;
                model := "gemini-2.5-flash";
                contents :=
                  formattingPrompt youtubeUrl videoId
                    (Script.totalDuration processed)
                    (List.length (Script.transcriptSegments processed))
                    (Script.fullTranscriptText processed);
                temperature := Fin (3 # 10);
                maxOutputTokens := 32000 |} in
           Effect.emit (GenerateContent request) ;;
           responseText <- Effect.lift (generateContent request) ;;
           saveStep videoId responseText outputPath)%effect
      | _ =>
          Effect.throw "GOOGLE_API_KEY not found in environment variables"
      end
  | _ => Effect.throw ("Invalid YouTube URL format: " ++ youtubeUrl)
  end.

(** [parseArgs] and the main execution: the exit code and the events, for
    the arguments after the script name. *)
Definition main (args : list string) (key : js string) : Z * list Event :=
  match args with
  | [] => (1%Z, [])
  | url :: rest =>
      let outputPath :=
        match rest with
        | [] => Undefined
        | path :: _ => Def path
        end in
      match Effect.run (transcriptToMarkdown url outputPath key) with
      | (Ok _, events) => (0%Z, events)
      | (Throw _, events) => (1%Z, events)
      end
  end.

End Script.

End Converter.

(* ------------------------------------------------------------------ *)
(** ** The rest of the transcription script *)

Module Transcriber.

(** [formatDuration] *)
Definition formatDuration (seconds : number) : string :=
  let h := Math_floor (divBy seconds 3600) in
  let m := Math_floor (divBy (remBy seconds 3600) 60) in
  let s := Math_floor (remBy seconds 60) in
  if positiveInt h then
    toString h ++ "h " ++ toString m ++ "m " ++ toString s ++ "s"
  else
    toString m ++ "m " ++ toString s ++ "s".

(** The alternation of [/\.(mp3|wav|m4a)$/], each with the dot before it. *)
Definition audioExtensions : list string := [".mp3"; ".wav"; ".m4a"].

(** [audioFile.replace(/\.(mp3|wav|m4a)$/, '-transcript.json')]: the
    pattern is tried from left to right and can only match where the rest
    of the string is a dot and one of the extensions. *)
Fixpoint outputFileName (audioFile : string) : string :=
  if existsb (String.eqb audioFile) audioExtensions then "-transcript.json"
  else
    match audioFile with
    | String c rest => String c (outputFileName rest)
    | "" => ""
    end.

(** *** [uploadToGCS] *)

Record Reply : Type := {
  ok : bool;
  status : Z;
  text : string
}.

Inductive Request : Type :=
| GetBucket (url authorization : string)
| CreateBucket (url authorization name location storageClass : string)
| UploadMedia (url authorization contentType body : string).

Section Upload.

Variable now : string.
Variable basename : string -> string.
Variable encodeURIComponent : string -> string.
Variable readFile : string -> result string.
Variable send : Request -> result Reply.

Definition fetch (request : Request) : Effect.M Reply :=
  (Effect.emit request ;; Effect.lift (send request))%effect.

Definition uploadToGCS (audioFile projectId accessToken : string)
  : Effect.M string :=
  let bucketName := projectId ++ "-speech-transcripts" in
  let fileName := "transcripts/" ++ now ++ "-" ++ basename audioFile in
  let gcsUri := "gs://" ++ bucketName ++ "/" ++ fileName in
  let authorization := "Bearer " ++ accessToken in
  let bucketUrl :=
    "https://storage.googleapis.com/storage/v1/b/" ++ bucketName in
  (checkResponse <- fetch (GetBucket bucketUrl authorization) ;;
   (if (status checkResponse =? 404)%Z then
      createResponse <-
        fetch (CreateBucket
                 ("https://storage.googleapis.com/storage/v1/b?project="
                    ++ projectId)
                 authorization bucketName "US" "STANDARD") ;;
      if ok createResponse then Effect.ret tt
      else Effect.throw ("Failed to create bucket: " ++ text createResponse)
    else Effect.ret tt) ;;
   audioContent <- Effect.lift (readFile audioFile) ;;
   let uploadUrl :=
     "https://storage.googleapis.com/upload/storage/v1/b/" ++ bucketName
       ++ "/o?uploadType=media&name=" ++ encodeURIComponent fileName in
   uploadResponse <-
     fetch (UploadMedia uploadUrl authorization "audio/mpeg" audioContent) ;;
   if ok uploadResponse then Effect.ret gcsUri
   else Effect.throw ("Failed to upload to GCS: " ++ text uploadResponse)
  )%effect.

End Upload.

(** *** Inline submission or upload

    The part of [transcribeAudio] from [fs.stat] to the sending of the
    recognition request: the branch on the file size, then the branch on
    [audioUri]. *)

Inductive Step : Type :=
| Storage (request : Request)
| BatchRecognize (url authorization uri : string)
| Recognize (url authorization content : string).

Section Submission.

Variable now : string.
Variable basename : string -> string.
Variable encodeURIComponent : string -> string.
Variable readFile : string -> result string.
Variable send : Request -> result Reply.
Variable stat : string -> result N.
Variable base64 : string -> string.


End Submission.

(** *** The batch operation: polling and reading the response *)

Record Transcript : Type := {
  transcript_results : js (list Speech.RecognitionResult)
}.

Record InlineResult : Type := {
  inline_transcript : js Transcript
}.

(** One value of the [results] object: [transcript] and [inlineResult]. *)
Record FileResult : Type := {
  transcript : js Transcript;
  inlineResult : js InlineResult
}.

(** The response of the batch operation; the entries of its [results]
    object stand in the order in which [Object.values] lists them. *)
Record Payload : Type := {
  results : js (list (string * js FileResult))
}.

(** The status of the operation: [done], [response] and [result]. *)
Record Operation : Type := {
  done : js bool;
  response : js Payload;
  result_ : js Payload
}.

Inductive Event : Type :=
| Sleep (milliseconds : Z)
| Heartbeat (elapsedMinutes : number)
| GetOperation (url authorization : string)
| WriteDebug (path content : string).

(** [x?.transcript?.results] when it is truthy. *)
Definition directResults (fileResult : js FileResult)
  : option (list Speech.RecognitionResult) :=
  match fileResult with
  | Def f =>
      match transcript f with
      | Def t =>
          match transcript_results t with
          | Def rs => Some rs
          | _ => None
          end
      | _ => None
      end
  | _ => None
  end.

(** [x?.inlineResult?.transcript?.results] when it is truthy. *)
Definition inlineResults (fileResult : js FileResult)
  : option (list Speech.RecognitionResult) :=
  match fileResult with
  | Def f =>
      match inlineResult f with
      | Def i =>
          match inline_transcript i with
          | Def t =>
              match transcript_results t with
              | Def rs => Some rs
              | _ => None
              end
          | _ => None
          end
      | _ => None
      end
  | _ => None
  end.

Definition entries (apiResponse : Payload)
  : list (string * js FileResult) :=
  match results apiResponse with
  | Def es => es
  | _ => []
  end.

(** [results[key]] *)
Fixpoint lookup (key : string) (es : list (string * js FileResult))
  : js FileResult :=
  match es with
  | [] => Undefined
  | (k, v) :: rest => if k =? key then v else lookup key rest
  end.

(** [Object.values(results)[0]] *)
Definition firstValue (es : list (string * js FileResult)) : js FileResult :=
  match es with
  | [] => Undefined
  | (_, v) :: _ => v
  end.

Section Batch.

Variable stringifyOperation : Operation -> string.
Variable stringifyPayload : Payload -> string.

(** The reply to the status request number [pollCount]. *)
Variable getOperation : nat -> result Operation.

(** [fs.writeFile(path, content)] *)
Variable writeFile : string -> string -> result unit.

Definition writeDebug (path content : string) : Effect.M unit :=
  (Effect.emit (WriteDebug path content) ;;
   Effect.lift (writeFile path content))%effect.

(** What becomes [apiResponse] once the operation is done; the operation
    object itself has no [results]. *)
Definition completed (operation : Operation) : Payload :=
  match response operation with
  | Def payload => payload
  | _ =>
      match result_ operation with
      | Def payload => payload
      | _ => {| results := Undefined |}
      end
  end.

(** The [while (!done)] loop, for at most [budget] rounds: [None] when the
    loop is still running after them. *)
Fixpoint pollLoop (budget pollCount : nat)
    (operationUrl authorization : string) : Effect.M (option Payload) :=
  match budget with
  | O => Effect.ret None
  | S budget' =>
      let pollCount := S pollCount in
      (Effect.emit (Sleep 5000) ;;
       (if (pollCount mod 4 =? 0)%nat then
          Effect.emit
            (Heartbeat (divBy (ofZ (Z.of_nat pollCount * 5)) 60))
        else Effect.ret tt) ;;
       Effect.emit (GetOperation operationUrl authorization) ;;
       operation <- Effect.lift (getOperation pollCount) ;;
       match done operation with
       | Def true =>
           writeDebug "youtube/J8Eh7RqggsU/debug-operation.json"
             (stringifyOperation operation) ;;
           Effect.ret (Some (completed operation))
       | _ => pollLoop budget' pollCount operationUrl authorization
       end)%effect
  end.

(** The extraction of the results from a batch response. *)
Definition extractBatch (audioUri : string) (apiResponse : Payload)
  : Effect.M (list Speech.RecognitionResult) :=
  match directResults (lookup audioUri (entries apiResponse)) with
  | Some rs => Effect.ret rs
  | None =>
      let firstResult := firstValue (entries apiResponse) in
      match directResults firstResult with
      | Some rs => Effect.ret rs
      | None =>
          match inlineResults firstResult with
          | Some rs => Effect.ret rs
          | None =>
              (writeDebug "youtube/J8Eh7RqggsU/debug-api-response.json"
                 (stringifyPayload apiResponse) ;;
               Effect.throw
                 ("Could not parse batch response. "
                    ++ "Saved to debug-api-response.json"))%effect
          end
      end
  end.

End Batch.

End Transcriber.

(* ------------------------------------------------------------------ *)
(** ** The audio download script ([downloadVideo]) *)

Module Downloader.

Record Metadata : Type := {
  video_id : string;
  url : string;
  downloaded_at : string;
  file_size_bytes : nat
}.

(** What [reader.read()] delivers before it reports the end or rejects: the
    values, which may be missing, and the rejection if there is one. *)
Record Stream : Type := {
  values : list (js (list Byte.byte));
  failure : option string
}.

Inductive Event : Type :=
| CreateClient
| RequestAudio (videoId : string)
| Mkdir (dir : string)
| OpenFile (path : string)
| WriteChunk (bytes : list Byte.byte)
| EndFile
| WriteMetadata (path : string) (metadata : Metadata).

Section Download.

Variable createClient : result unit.
Variable download : string -> result Stream.
Variable mkdir : string -> result unit.
Variable finish : result unit.
Variable writeFile : string -> Metadata -> result unit.
Variable isoNow : string.
Variable path_join : list string -> string.
Variable cwd : string.

(** The [while (true)] loop over the reader: every value that is present
    is counted and written. *)
Fixpoint writeValues (values : list (js (list Byte.byte)))
    (downloadedBytes : nat)
  : Effect.M nat :=
  match values with
  | [] => Effect.ret downloadedBytes
  | Def value :: rest =>
      (Effect.emit (WriteChunk value) ;;
       writeValues rest (downloadedBytes + List.length value))%effect
  | _ :: rest => writeValues rest downloadedBytes
  end.

(** The [try] block of [downloadVideo]. *)
Definition downloadAudio (videoId : string) : Effect.M unit :=
  (Effect.emit CreateClient ;;
   Effect.lift createClient ;;
   Effect.emit (RequestAudio videoId) ;;
   stream <- Effect.lift (download videoId) ;;
   let outputDir := path_join [cwd; "youtube"; videoId] in
   Effect.emit (Mkdir outputDir) ;;
   Effect.lift (mkdir outputDir) ;;
   let audioPath := path_join [outputDir; "audio.mp3"] in
   Effect.emit (OpenFile audioPath) ;;
   downloadedBytes <- writeValues (values stream) 0 ;;
   match failure stream with
   | Some message => Effect.throw message
   | None =>
       Effect.emit EndFile ;;
       Effect.lift finish ;;
       let metadataPath := path_join [outputDir; "metadata.json"] in
       let metadata :=
         {| video_id := videoId;
            url := "https://www.youtube.com/watch?v=" ++ videoId;
            downloaded_at := isoNow;
            file_size_bytes := downloadedBytes |} in
       Effect.emit (WriteMetadata metadataPath metadata) ;;
       Effect.lift (writeFile metadataPath metadata)
   end)%effect.

Definition downloadVideo (videoInput : string) : Effect.M unit :=
  (videoId <- Effect.lift (Download.extractVideoId videoInput) ;;
   Effect.catch (downloadAudio videoId)
     (fun message => Effect.throw ("Download failed: " ++ message)))%effect.

End Download.

End Downloader.

(* ------------------------------------------------------------------ *)
(** ** Vocabulary of the further statements *)

(** The message of the error a failing attempt records in [lastError]. *)
Definition failureOf (out : Route.FetchOutcome) : string :=
  match out with
  | Route.Rejects message => message
  | Route.Resolves (Def (item :: items)) =>
      match Route.itemTexts (item :: items) with
      | Throw message => message
      | Ok _ => "Transcript is too short"
      end
  | Route.Resolves _ => "Transcript is empty"
  end.

(** The fixed beginning of the error thrown when no candidate was usable. *)
Definition noCaptionsPrefix : string :=
  "Failed to fetch transcript. "
    ++ "The video may not have captions available. Last error: ".

(** A response body with one candidate made of the given parts. *)
Definition answerWith (texts : list (js string)) : Route.GeminiData :=
  {| Route.error := Undefined;
     Route.candidates :=
       Def [Def {| Route.content :=
                     Def {| Route.parts :=
                              Def (map (fun t => {| Route.text := t |})
                                     texts) |} |}] |}.

(** The texts, each followed by one space. *)
Definition spaced (texts : list string) : string :=
  fold_right (fun t acc => t ++ " " ++ acc) "" texts.

(** The file the script writes to: the second argument when it is given and
    not empty, the default path otherwise. *)
Definition finalOutputPath (path_join : list string -> string)
    (cwd videoId : string) (outputPath : js string) : string :=
  match outputPath with
  | Def (String a p) => String a p
  | _ => path_join [cwd; "youtube"; videoId; "transcript.md"]
  end.

(** The optional second command-line argument. *)
Definition hd_error_js (rest : list string) : js string :=
  match rest with
  | [] => Undefined
  | path :: _ => Def path
  end.

(** The events of the polling round number [i]. *)
Definition pollRound (operationUrl authorization : string) (i : nat)
  : list Transcriber.Event :=
  ([Transcriber.Sleep 5000]
     ++ (if (i mod 4 =? 0)%nat
         then [Transcriber.Heartbeat (divBy (ofZ (Z.of_nat i * 5)) 60)]
         else [])
     ++ [Transcriber.GetOperation operationUrl authorization])%list.

Definition isHeartbeat (e : Transcriber.Event) : bool :=
  match e with
  | Transcriber.Heartbeat _ => true
  | _ => false
  end.

Definition isSleep (e : Transcriber.Event) : bool :=
  match e with
  | Transcriber.Sleep _ => true
  | _ => false
  end.

Definition isStatusRequest (e : Transcriber.Event) : bool :=
  match e with
  | Transcriber.GetOperation _ _ => true
  | _ => false
  end.

(** The operation is still running in the reply number [i]. *)
Definition running (getOperation : nat -> result Transcriber.Operation)
    (i : nat) : Prop :=
  exists operation,
    getOperation i = Ok operation
    /\ Transcriber.done operation <> Def true.

Definition isCreateBucket (r : Transcriber.Request) : bool :=
  match r with
  | Transcriber.CreateBucket _ _ _ _ _ => true
  | _ => false
  end.

Definition isUpload (r : Transcriber.Request) : bool :=
  match r with
  | Transcriber.UploadMedia _ _ _ _ => true
  | _ => false
  end.

(** A file result with a direct transcript, and one without anything. *)
Definition withTranscript (rs : list Speech.RecognitionResult)
  : js Transcriber.FileResult :=
  Def {| Transcriber.transcript :=
           Def {| Transcriber.transcript_results := Def rs |};
         Transcriber.inlineResult := Undefined |}.

Definition withoutTranscript : js Transcriber.FileResult :=
  Def {| Transcriber.transcript := Undefined;
         Transcriber.inlineResult := Undefined |}.

(** The bytes written to the audio file and the metadata records written,
    read off a trace of the download script. *)
Definition writtenBytes (events : list Downloader.Event) : nat :=
  list_sum
    (map (fun e => match e with
                   | Downloader.WriteChunk bytes => List.length bytes
                   | _ => O
                   end) events).

Definition metadataWritten (events : list Downloader.Event)
  : list Downloader.Metadata :=
  flat_map (fun e => match e with
                     | Downloader.WriteMetadata _ metadata => [metadata]
                     | _ => []
                     end) events.

(** A stream of three reads, the second without a value, that ends. *)
Definition threeReads : Downloader.Stream :=
  {| Downloader.values :=
       [Def [Byte.x49; Byte.x44; Byte.x33]; Undefined; Def [Byte.x00]];
     Downloader.failure := None |}.

(** The values a reader delivered that are present. *)
Definition presentChunks (values : list (js (list Byte.byte)))
  : list (list Byte.byte) :=
  flat_map (fun v => match v with Def bytes => [bytes] | _ => [] end) values.

(** Oracles of a download in which every call succeeds. *)
Definition succeeds {A : Type} (_ : A) : result unit := Ok tt.

Definition succeeds2 {A B : Type} (_ : A) (_ : B) : result unit := Ok tt.

Definition slashJoin (parts : list string) : string := join "/" parts.

(** A stream that rejects after its first read. *)
Definition brokenStream : Downloader.Stream :=
  {| Downloader.values := [Def [Byte.x49; Byte.x44; Byte.x33]];
     Downloader.failure := Some "terminated" |}.

(** Sample answers of the services, for concrete runs. *)
Definition sampleCompletion : string := sixtyCharacters ++ sixtyCharacters.

Definition completionReply : Handler.HttpReply :=
  {| Handler.ok := true;
     Handler.status := 200;
     Handler.statusText := "OK";
     Handler.json := Ok (answerWith [Def sampleCompletion]);
     Handler.text := Ok "" |}.

Definition englishCaptions (_ : string) : Route.FetchOutcome :=
  serviceWith "en" sixtyCharacters (Some "en").

(** A batch operation that is done in the reply number [k], with the given
    response. *)
Definition doneAt (k : nat) (payload : Transcriber.Payload) (i : nat)
  : result Transcriber.Operation :=
  Ok {| Transcriber.done := if (i =? k)%nat then Def true else Undefined;
        Transcriber.response := Def payload;
        Transcriber.result_ := Undefined |}.

(** An object store that answers the existence check with the given status
    and accepts everything else. *)
Definition storageAnswering (bucketStatus : Z) (request : Transcriber.Request)
  : result Transcriber.Reply :=
  match request with
  | Transcriber.GetBucket _ _ =>
      Ok {| Transcriber.ok := (bucketStatus =? 200)%Z;
            Transcriber.status := bucketStatus;
            Transcriber.text := "" |}
  | _ =>
      Ok {| Transcriber.ok := true;
            Transcriber.status := 200;
            Transcriber.text := "" |}
  end.

(** A refusal of the generative-text service with the given message. *)
Definition refusalReply (message : string) : Handler.HttpReply :=
  {| Handler.ok := false;
     Handler.status := 400;
     Handler.statusText := "Bad Request";
     Handler.json :=
       Ok {| Route.error := Def {| Route.message := Def message |};
             Route.candidates := Undefined |};
     Handler.text := Throw "Body is unusable: Body has already been read" |}.

(* ================================================================== *)
(** * Part II. Properties *)
(* ================================================================== *)

(** ** Arithmetic of the number model *)

Section FloorFacts.

Local Open Scope Z_scope.

Lemma Qfloor_Qred (x : Q) : Qfloor (Qred x) = Qfloor x.
Proof. apply Qfloor_comp, Qred_correct. Qed.

Lemma Qfloor_divBy (x : Q) (d : positive) :
  Qfloor (x / inject_Z (Zpos d)) = Qfloor x / Zpos d.
Proof.
  destruct x as [a b]. unfold Qdiv, Qinv, Qmult, Qfloor; simpl.
  rewrite Z.mul_1_r, Pos2Z.inj_mul.
  symmetry. apply Z.div_div; lia.
Qed.

Lemma Qfloor_minus_Z (x : Q) (k : Z) :
  Qfloor (x - inject_Z k) = Qfloor x - k.
Proof.
  destruct x as [a b]. unfold Qminus, Qplus, Qopp, Qfloor, inject_Z; simpl.
  rewrite Pos.mul_1_r, Z.mul_1_r.
  replace (a + - k * Zpos b) with (a + (- k) * Zpos b) by ring.
  rewrite Z.div_add by lia. ring.
Qed.

Lemma Qfloor_nonneg (x : Q) : (0 <= x)%Q -> 0 <= Qfloor x.
Proof.
  intros H. change 0 with (Qfloor (inject_Z 0)).
  now apply Qfloor_resp_le.
Qed.

Lemma Qtrunc_nonneg (x : Q) (d : positive) :
  (0 <= x)%Q -> Qtrunc (x / inject_Z (Zpos d)) = Qfloor x / Zpos d.
Proof.
  intros H. unfold Qtrunc.
  assert (Hd : (0 <= x / inject_Z (Zpos d))%Q).
  { apply Qle_shift_div_l; [reflexivity|]. now rewrite Qmult_0_l. }
  apply Qle_bool_iff in Hd. rewrite Hd. apply Qfloor_divBy.
Qed.

(** On a non-negative number, [Math.floor(x % d)] is the remainder of the
    integer part. *)
Lemma floor_remBy (x : Q) (d : positive) :
  (0 <= x)%Q ->
  exists r : Q, remBy (Fin x) d = Fin r /\ (0 <= r)%Q
                /\ Qfloor r = Qfloor x mod Zpos d.
Proof.
  intros H. unfold remBy; cbv zeta. eexists; split; [reflexivity|].
  rewrite Qtrunc_nonneg by assumption.
  assert (Hfl : Qfloor
                  (x - inject_Z (Z.pos d) * inject_Z (Qfloor x / Z.pos d))
                = Qfloor x mod Z.pos d).
  { rewrite <- inject_Z_mult, Qfloor_minus_Z. rewrite Z.mod_eq by lia. ring. }
  split.
  - rewrite Qred_correct, <- inject_Z_mult.
    apply -> Qle_minus_iff.
    apply Qle_trans with (inject_Z (Qfloor x)); [|apply Qfloor_le].
    rewrite <- Zle_Qle. apply Z.mul_div_le; lia.
  - rewrite Qfloor_Qred. exact Hfl.
Qed.

Lemma floor_divBy (x : Q) (d : positive) :
  Math_floor (divBy (Fin x) d) = Int (Qfloor x / Zpos d).
Proof. unfold divBy, Math_floor. now rewrite Qfloor_Qred, Qfloor_divBy. Qed.

End FloorFacts.

(** ** Timestamp formatting *)

Section TimestampFacts.

Local Open Scope Z_scope.

Lemma padStart_twoDigits (v : Z) :
  0 <= v < 100 -> padStart (decimal v) 2 "0" = twoDigits v.
Proof.
  intros Hv.
  assert (Hall : forallb
            (fun k => String.eqb (padStart (decimal (Z.of_nat k)) 2 "0")
                                 (twoDigits (Z.of_nat k)))
            (seq 0 100) = true) by (vm_compute; reflexivity).
  rewrite forallb_forall in Hall.
  specialize (Hall (Z.to_nat v)).
  rewrite Z2Nat.id in Hall by lia.
  apply String.eqb_eq, Hall, in_seq. lia.
Qed.

(** Normal form of the decimal numeral of a positive. *)
Lemma to_uint_head (p : positive) :
  forall u, Pos.to_uint p <> Decimal.D0 u.
Proof.
  intros u Hu.
  assert (Hn : Decimal.unorm (Pos.to_uint p) = Pos.to_uint p).
  { rewrite <- DecimalPos.Unsigned.to_of, DecimalPos.Unsigned.of_to.
    reflexivity. }
  rewrite Hu, unorm_D0 in Hn.
  unfold Decimal.unorm in Hn.
  destruct (Decimal.nzhead u) eqn:Hz; try discriminate.
  - apply (DecimalPos.Unsigned.to_uint_nonzero p).
    rewrite Hu, <- Hn. reflexivity.
  - now apply (nzhead_nonzero u u0).
Qed.

Lemma decimal_leading_digit (z : Z) :
  0 < z -> exists c r, decimal z = String c r /\ c <> "0"%char.
Proof.
  destruct z as [|p|p]; try lia. intros _.
  unfold decimal; simpl.
  pose proof (to_uint_head p) as Hh.
  pose proof (DecimalPos.Unsigned.to_uint_nonnil p) as Hnil.
  destruct (Pos.to_uint p) as [|u|u|u|u|u|u|u|u|u|u]; simpl;
    try congruence;
    try (do 2 eexists; split; [reflexivity|discriminate]).
Qed.

Lemma minutes_of_hour (n : Z) : 0 <= n -> (n mod 3600) / 60 = (n / 60) mod 60.
Proof.
  intros Hn.
  pose proof (Z.div_mod n 60 ltac:(lia)).
  pose proof (Z.mod_pos_bound n 60 ltac:(lia)).
  pose proof (Z.div_mod (n / 60) 60 ltac:(lia)).
  pose proof (Z.mod_pos_bound (n / 60) 60 ltac:(lia)).
  pose proof (Z.div_mod n 3600 ltac:(lia)).
  pose proof (Z.mod_pos_bound n 3600 ltac:(lia)).
  assert (n / 3600 = n / 60 / 60) by (rewrite Z.div_div by lia; reflexivity).
  symmetry. apply Z.div_unique with (r := n mod 60); lia.
Qed.

(** The three units [formatTimestamp] computes on a non-negative number. *)
Lemma formatTimestamp_units (q : Q) :
  (0 <= q)%Q ->
  let n := Qfloor q in
  formatTimestamp (Fin q) =
    if 0 <? n / 3600 then
      decimal (n / 3600) ++ ":" ++ twoDigits ((n / 60) mod 60) ++ ":"
        ++ twoDigits (n mod 60)
    else decimal ((n / 60) mod 60) ++ ":" ++ twoDigits (n mod 60).
Proof.
  intros Hq n. unfold formatTimestamp.
  pose proof (Qfloor_nonneg q Hq) as Hn. fold n in Hn.
  rewrite floor_divBy. fold n.
  destruct (floor_remBy q 3600 Hq) as (r1 & -> & Hr1 & Hf1).
  destruct (floor_remBy q 60 Hq) as (r2 & -> & Hr2 & Hf2).
  rewrite floor_divBy, Hf1. fold n.
  change (Math_floor (Fin r2)) with (Int (Qfloor r2)). rewrite Hf2. fold n.
  rewrite minutes_of_hour by assumption.
  cbn [positiveInt toString].
  rewrite !padStart_twoDigits.
  - reflexivity.
  - pose proof (Z.mod_pos_bound n 60); lia.
  - pose proof (Z.mod_pos_bound (n / 60) 60); lia.
Qed.

End TimestampFacts.

(** C7. On every non-negative (finite) number of seconds, [formatTimestamp]
    renders [M:SS] below one hour and [H:MM:SS] from one hour on, where the
    units are those of the whole seconds [n]: the leading unit is the plain
    decimal numeral (never starting with a zero unless it is the single
    digit 0) and every later unit is written with exactly two digits.  45,
    125 and 3725 seconds give "0:45", "2:05" and "1:02:05". *)
Theorem formatTimestamp_clock :
  (forall q : Q, (0 <= q)%Q ->
     let n := Qfloor q in
     ((q < 3600)%Q ->
        formatTimestamp (Fin q)
        = decimal (n / 60) ++ ":" ++ twoDigits (n mod 60))
     /\ ((3600 <= q)%Q ->
        formatTimestamp (Fin q)
        = decimal (n / 3600) ++ ":" ++ twoDigits ((n / 60) mod 60) ++ ":"
            ++ twoDigits (n mod 60)))
  /\ decimal 0 = "0"
  /\ (forall z : Z, (0 < z)%Z ->
        exists c r, decimal z = String c r /\ c <> "0"%char)
  /\ formatTimestamp (ofZ 45) = "0:45"
  /\ formatTimestamp (ofZ 125) = "2:05"
  /\ formatTimestamp (ofZ 3725) = "1:02:05".
Proof.
  split; [|repeat split; auto using decimal_leading_digit].
  intros q Hq n.
  pose proof (formatTimestamp_units q Hq) as Hu. cbv zeta in Hu. fold n in Hu.
  pose proof (Qfloor_nonneg q Hq) as Hn. fold n in Hn.
  split; intros Hlt.
  - assert (Hb : (n < 3600)%Z).
    { apply Z.lt_nge. intros Hge.
      apply (Qlt_not_le _ _ Hlt).
      apply Qle_trans with (inject_Z n); [|apply Qfloor_le].
      change 3600%Q with (inject_Z 3600). now rewrite <- Zle_Qle. }
    rewrite Hu.
    replace (n / 3600)%Z with 0%Z by (symmetry; apply Z.div_small; lia).
    cbn [Z.ltb Z.compare].
    rewrite (Z.mod_small (n / 60)); [reflexivity|].
    split; [apply Z.div_pos; lia|apply Z.div_lt_upper_bound; lia].
  - assert (Hb : (3600 <= n)%Z).
    { change 3600%Z with (Qfloor (inject_Z 3600)).
      now apply Qfloor_resp_le. }
    rewrite Hu.
    assert (Hh : (0 <? n / 3600)%Z = true).
    { apply Z.ltb_lt. apply Z.div_str_pos; lia. }
    now rewrite Hh.
Qed.

Lemma formatTimestamp_clock_witness :
  formatTimestamp (Fin (7451 # 2)) = "1:02:05".
Proof.
  destruct formatTimestamp_clock as [H _].
  destruct (H (7451 # 2)) as [_ Hlong].
  - unfold Qle; simpl; lia.
  - apply Hlong. unfold Qle; simpl; lia.
Defined.

(** Outside that domain the function still returns: the units of a negative,
    infinite or undefined number are printed as they come. *)
Example formatTimestamp_edges :
  formatTimestamp (Fin (-1 # 2)) = "-1:-1"
  /\ formatTimestamp PosInf = "Infinity:NaN:NaN"
  /\ formatTimestamp NaN = "NaN:NaN".
Proof. repeat split. Qed.

(** ** Video Identifier Resolver *)

Section StringFacts.

Lemma append_assoc (a b c : string) : (a ++ b) ++ c = a ++ b ++ c.
Proof. induction a; simpl; congruence. Qed.

Lemma append_nil_r (a : string) : a ++ "" = a.
Proof. induction a; simpl; congruence. Qed.

Lemma dropPrefix_app (p r : string) : dropPrefix p (p ++ r) = Some r.
Proof.
  induction p as [|a p IH]; simpl.
  - now destruct r.
  - now rewrite Ascii.eqb_refl.
Qed.

Lemma dropPrefix_spec (p s r : string) :
  dropPrefix p s = Some r -> s = p ++ r.
Proof.
  revert s; induction p as [|a p IH]; intros s; simpl.
  - destruct s; now intros [= ->].
  - destruct s as [|b s]; [discriminate|].
    destruct (Ascii.eqb_spec a b) as [->|]; [|discriminate].
    intros H. now rewrite (IH _ H).
Qed.

Lemma allChars_app (p : ascii -> bool) (a b : string) :
  allChars p (a ++ b) = allChars p a && allChars p b.
Proof.
  induction a as [|c a IH]; simpl; [reflexivity|].
  now rewrite IH, andb_assoc.
Qed.

Lemma allChars_impl (p q : ascii -> bool) (s : string) :
  (forall c, p c = true -> q c = true) ->
  allChars p s = true -> allChars q s = true.
Proof.
  intros Hpq. induction s as [|c s IH]; simpl; [reflexivity|].
  rewrite !andb_true_iff. intros [Hc Hs]. auto.
Qed.

Lemma substring_prefix (a b : string) : substring 0 (length a) (a ++ b) = a.
Proof.
  induction a as [|c a IH]; simpl.
  - now destruct b.
  - now rewrite IH.
Qed.

Lemma idChar_nonDelimiter (c : ascii) :
  isIdChar c = true -> nonDelimiter c = true.
Proof.
  destruct c as [[] [] [] [] [] [] [] []]; vm_compute; congruence.
Qed.

Lemma delimiter_not_idChar (c : ascii) :
  isDelimiter c = true -> isIdChar c = false /\ c <> "."%char.
Proof.
  destruct c as [[] [] [] [] [] [] [] []]; vm_compute;
    (discriminate || (split; congruence)).
Qed.

(** The capture stops exactly where the first delimiter stands. *)
Lemma captureRun_app (cap rest : string) :
  allChars nonDelimiter cap = true -> terminated rest = true ->
  captureRun (cap ++ rest) = cap.
Proof.
  intros Hcap Hrest. induction cap as [|c cap IH]; simpl in *.
  - destruct rest as [|d rest]; simpl in *; [reflexivity|now rewrite Hrest].
  - apply andb_true_iff in Hcap as [Hc Hcap].
    unfold nonDelimiter in Hc. apply negb_true_iff in Hc. rewrite Hc.
    now rewrite IH.
Qed.

Lemma captureRun_split (s : string) :
  exists rest, s = captureRun s ++ rest
               /\ allChars nonDelimiter (captureRun s) = true
               /\ terminated rest = true.
Proof.
  induction s as [|c s (rest & Hs & Hall & Hterm)]; simpl.
  - now exists "".
  - destruct (isDelimiter c) eqn:Hc.
    + exists (String c s). simpl. now rewrite Hc.
    + exists rest. simpl. unfold nonDelimiter at 1. rewrite Hc, Hall. simpl.
      rewrite <- Hs. auto.
Qed.

Lemma firstNonId_app (t rest : string) :
  allChars isIdChar t = true -> firstNonId (t ++ rest) = firstNonId rest.
Proof.
  induction t as [|c t IH]; simpl; [reflexivity|].
  intros H. apply andb_true_iff in H as [-> Ht]. auto.
Qed.

Lemma firstNonId_terminated (rest : string) :
  terminated rest = true -> firstNonId rest <> Some "."%char.
Proof.
  destruct rest as [|d rest]; simpl; [discriminate|].
  intros Hd. destruct (delimiter_not_idChar d Hd) as [-> Hdot].
  congruence.
Qed.

End StringFacts.

Section ResolverFacts.

Lemma urlPrefixes_shape : Forall literalShape urlPrefixes.
Proof.
  repeat constructor; try (eexists; reflexivity); intros r; reflexivity.
Qed.

Lemma patterns_shape : Forall (Forall literalShape) Download.patterns.
Proof.
  repeat constructor; try (eexists; reflexivity); intros r; reflexivity.
Qed.

Lemma dropPrefix_notY (lit : string) (c : ascii) (t : string) :
  literalShape lit -> notLetterY c = true ->
  dropPrefix lit (String c t) = None.
Proof.
  intros [[u ->] _] Hc. cbn [dropPrefix].
  unfold notLetterY in Hc. apply negb_true_iff in Hc.
  rewrite Ascii.eqb_sym. now rewrite Hc.
Qed.

Lemma dropPrefix_noDot (lit s : string) :
  literalShape lit -> firstNonId s <> Some "."%char ->
  dropPrefix lit s = None.
Proof.
  intros [_ Hdot] Hs.
  destruct (dropPrefix lit s) as [r|] eqn:Hd; [|reflexivity].
  apply dropPrefix_spec in Hd. subst s. now rewrite Hdot in Hs.
Qed.

(** *** The caption pipeline's pattern *)

Lemma matchUrlAt_none (alts : list string) (s : string) :
  Forall (fun lit => dropPrefix lit s = None) alts ->
  matchUrlAt alts s = None.
Proof.
  induction 1 as [|lit alts Hlit _ IH]; simpl; [reflexivity|].
  now rewrite Hlit.
Qed.

Lemma searchUrl_skip (pre s : string) :
  allChars notLetterY pre = true -> searchUrl (pre ++ s) = searchUrl s.
Proof.
  induction pre as [|c pre IH]; [reflexivity|].
  intros H. apply andb_true_iff in H as [Hc Hpre].
  change (String c pre ++ s) with (String c (pre ++ s)).
  cbn [searchUrl]. rewrite matchUrlAt_none; [now apply IH|].
  eapply Forall_impl; [|apply urlPrefixes_shape].
  intros lit Hlit. now apply dropPrefix_notY.
Qed.

(** No match starts inside a run of identifier characters that is followed
    by nothing or by a delimiter. *)
Lemma searchUrl_inside_id (t rest : string) :
  allChars isIdChar t = true -> terminated rest = true ->
  searchUrl (t ++ rest) = searchUrl rest.
Proof.
  intros Ht Hrest. induction t as [|c t IH]; [reflexivity|].
  change (String c t ++ rest) with (String c (t ++ rest)).
  cbn [searchUrl]. rewrite matchUrlAt_none.
  - apply IH. simpl in Ht. now apply andb_true_iff in Ht as [_ Ht].
  - eapply Forall_impl; [|apply urlPrefixes_shape].
    intros lit Hlit. apply dropPrefix_noDot; [assumption|].
    change (String c (t ++ rest)) with (String c t ++ rest).
    rewrite firstNonId_app by assumption.
    now apply firstNonId_terminated.
Qed.

Lemma searchUrl_hit (s cap : string) :
  matchUrlAt urlPrefixes s = Some cap -> searchUrl s = Some cap.
Proof. intros H. destruct s; cbn [searchUrl]; now rewrite H. Qed.

Lemma matchUrlAt_sound (alts : list string) (s cap : string) :
  matchUrlAt alts s = Some cap ->
  exists lit tail,
    In lit alts /\ s = lit ++ tail /\ cap = captureRun tail /\ cap <> "".
Proof.
  induction alts as [|p alts IH]; simpl; [discriminate|].
  destruct (dropPrefix p s) as [tail|] eqn:Hp.
  - destruct (captureRun tail) as [|c r] eqn:Hc.
    + intros H. destruct (IH H) as (lit & tl & Hin & Hrest).
      exists lit, tl. auto.
    + intros [= <-]. exists p, tail. rewrite Hc.
      repeat split; auto using dropPrefix_spec. discriminate.
  - intros H. destruct (IH H) as (lit & tl & Hin & Hrest).
    exists lit, tl. auto.
Qed.

Lemma matchUrlAt_complete (alts : list string) (lit : string) (c : ascii)
    (rest : string) :
  In lit alts -> isDelimiter c = false ->
  exists cap, matchUrlAt alts (lit ++ String c rest) = Some cap.
Proof.
  intros Hin Hc. induction alts as [|p alts IH]; [destruct Hin|].
  simpl. destruct (dropPrefix p (lit ++ String c rest)) as [tail|] eqn:Hp.
  - destruct (captureRun tail) as [|a r] eqn:Hcap; [|eauto].
    destruct Hin as [->|Hin]; [|auto].
    rewrite dropPrefix_app in Hp. injection Hp as <-.
    simpl in Hcap. now rewrite Hc in Hcap.
  - destruct Hin as [->|Hin]; [|auto].
    now rewrite dropPrefix_app in Hp.
Qed.

Lemma matchUrlAt_starts (s : string) :
  startsWithUrlPattern s -> exists cap, matchUrlAt urlPrefixes s = Some cap.
Proof.
  intros (lit & c & rest & Hin & -> & Hc).
  now apply matchUrlAt_complete.
Qed.

Lemma searchUrl_complete (url : string) :
  urlPatternMatches url -> exists cap, searchUrl url = Some cap.
Proof.
  intros (pre & tail & -> & Htail).
  induction pre as [|a pre IH].
  - destruct (matchUrlAt_starts tail Htail) as [cap Hcap].
    exists cap. now apply searchUrl_hit.
  - change (String a pre ++ tail) with (String a (pre ++ tail)).
    cbn [searchUrl].
    destruct (matchUrlAt urlPrefixes _) as [cap|]; eauto.
Qed.

(** The match [searchUrl] returns is the leftmost one. *)
Lemma searchUrl_sound (url cap : string) :
  searchUrl url = Some cap ->
  exists pre lit rest,
    In lit urlPrefixes /\ url = pre ++ lit ++ cap ++ rest /\ cap <> ""
    /\ allChars nonDelimiter cap = true /\ terminated rest = true
    /\ (forall p1 p2, pre = p1 ++ p2 -> p2 <> "" ->
          ~ startsWithUrlPattern (p2 ++ lit ++ cap ++ rest)).
Proof.
  induction url as [|a url IH].
  - simpl. discriminate.
  - cbn [searchUrl].
    destruct (matchUrlAt urlPrefixes (String a url)) as [cap'|] eqn:Hm.
    + intros [= ->].
      apply matchUrlAt_sound in Hm as (lit & tail & Hin & Hs & Hcap & Hne).
      destruct (captureRun_split tail) as (rest & Htail & Hall & Hterm).
      subst cap. exists "", lit, rest. simpl append.
      rewrite <- Htail. repeat split; try assumption.
      intros p1 p2 Hp Hp2. destruct p1; [|discriminate].
      simpl in Hp. now subst p2.
    + intros H.
      destruct (IH H) as (pre & lit & rest & Hin & -> & Hne & Hall & Hterm
                          & Hleft).
      exists (String a pre), lit, rest. repeat split; try assumption.
      intros p1 p2 Hp Hp2 Hstart. destruct p1 as [|b p1].
      * simpl in Hp. subst p2.
        destruct (matchUrlAt_starts _ Hstart) as [cap' Hcap'].
        simpl append in Hcap'. congruence.
      * injection Hp as _ Hp. now apply (Hleft p1 p2).
Qed.

End ResolverFacts.

Section DownloadFacts.

Import Download.

Lemma matchIdAt_none (alts : list string) (s : string) :
  Forall (fun lit => dropPrefix lit s = None) alts ->
  matchIdAt alts s = None.
Proof.
  induction 1 as [|lit alts Hlit _ IH]; simpl; [reflexivity|].
  now rewrite Hlit.
Qed.

Lemma searchId_hit (alts : list string) (s cap : string) :
  matchIdAt alts s = Some cap -> searchId alts s = Some cap.
Proof. intros H. destruct s; simpl; now rewrite H. Qed.

Lemma searchId_skip (alts : list string) (pre s : string) :
  Forall literalShape alts -> allChars notLetterY pre = true ->
  searchId alts (pre ++ s) = searchId alts s.
Proof.
  intros Halts. induction pre as [|c pre IH]; [reflexivity|].
  intros H. apply andb_true_iff in H as [Hc Hpre].
  change (String c pre ++ s) with (String c (pre ++ s)).
  cbn [searchId]. rewrite matchIdAt_none; [now apply IH|].
  eapply Forall_impl; [|exact Halts].
  intros lit Hlit. now apply dropPrefix_notY.
Qed.

Lemma searchId_inside_id (alts : list string) (t rest : string) :
  Forall literalShape alts ->
  allChars isIdChar t = true -> terminated rest = true ->
  searchId alts (t ++ rest) = searchId alts rest.
Proof.
  intros Halts Ht Hrest. induction t as [|c t IH]; [reflexivity|].
  change (String c t ++ rest) with (String c (t ++ rest)).
  cbn [searchId]. rewrite matchIdAt_none.
  - apply IH. simpl in Ht. now apply andb_true_iff in Ht as [_ Ht].
  - eapply Forall_impl; [|exact Halts].
    intros lit Hlit. apply dropPrefix_noDot; [assumption|].
    change (String c (t ++ rest)) with (String c t ++ rest).
    rewrite firstNonId_app by assumption.
    now apply firstNonId_terminated.
Qed.

Lemma searchId_noY (alts : list string) (s : string) :
  Forall literalShape alts -> allChars notLetterY s = true ->
  searchId alts s = None.
Proof.
  intros Halts Hs. rewrite <- (append_nil_r s), searchId_skip by assumption.
  cbn [searchId]. rewrite matchIdAt_none; [reflexivity|].
  eapply Forall_impl; [|exact Halts].
  now intros lit [[u ->] _].
Qed.

Lemma captureId_app (id rest : string) :
  isVideoIdentifier id = true -> captureId (id ++ rest) = Some id.
Proof.
  unfold isVideoIdentifier, captureId. intros H.
  pose proof H as H'. apply andb_true_iff in H' as [Hlen _].
  apply Nat.eqb_eq in Hlen.
  replace (substring 0 11 (id ++ rest)) with id
    by (rewrite <- Hlen; symmetry; apply substring_prefix).
  now rewrite H.
Qed.

Lemma firstNonId_not_all (s : string) (c : ascii) :
  firstNonId s = Some c -> allChars isIdChar s = false.
Proof.
  induction s as [|a s IH]; simpl; [discriminate|].
  destruct (isIdChar a); simpl; auto.
Qed.

Lemma url_not_bare (pre lit tail : string) :
  literalShape lit ->
  (length (pre ++ lit ++ tail) =? 11)%nat
    && allChars isIdChar (pre ++ lit ++ tail) = false.
Proof.
  intros [_ Hdot]. rewrite allChars_app.
  rewrite (firstNonId_not_all _ _ (Hdot tail)).
  now rewrite !andb_false_r.
Qed.

End DownloadFacts.

Lemma identifier_facts (id : string) :
  isVideoIdentifier id = true ->
  allChars isIdChar id = true /\ allChars nonDelimiter id = true
  /\ exists c r, id = String c r.
Proof.
  unfold isVideoIdentifier. intros H.
  apply andb_true_iff in H as [Hlen Hall].
  repeat split; [assumption| |].
  - revert Hall. apply allChars_impl, idChar_nonDelimiter.
  - destruct id; [discriminate|eauto].
Qed.

Section DownloadSoundness.

Import Download.

Lemma captureId_sound (s cap : string) :
  captureId s = Some cap ->
  isVideoIdentifier cap = true /\ exists rest, s = cap ++ rest.
Proof.
  unfold captureId, isVideoIdentifier.
  destruct (_ && _) eqn:H; [|discriminate]. intros [= <-].
  split; [assumption|].
  assert (Hsub : forall n t, exists rest, t = substring 0 n t ++ rest).
  { induction n as [|n IH]; intros t.
    - exists t. now destruct t.
    - destruct t as [|c t]; [now exists ""|].
      destruct (IH t) as [rest Hrest]. exists rest. simpl. now f_equal. }
  apply Hsub.
Qed.

Lemma matchIdAt_sound (alts : list string) (s cap : string) :
  matchIdAt alts s = Some cap ->
  isVideoIdentifier cap = true
  /\ exists lit rest, In lit alts /\ s = lit ++ cap ++ rest.
Proof.
  induction alts as [|p alts IH]; simpl; [discriminate|].
  destruct (dropPrefix p s) as [tail|] eqn:Hp.
  - destruct (captureId tail) as [c|] eqn:Hc.
    + intros [= <-]. apply captureId_sound in Hc as [Hid [rest ->]].
      split; [assumption|]. exists p, rest.
      split; [now left|now apply dropPrefix_spec].
    + intros H. destruct (IH H) as (Hid & lit & rest & Hin & Hs).
      split; [assumption|]. exists lit, rest. auto.
  - intros H. destruct (IH H) as (Hid & lit & rest & Hin & Hs).
    split; [assumption|]. exists lit, rest. auto.
Qed.

Lemma searchId_sound (alts : list string) (s cap : string) :
  searchId alts s = Some cap ->
  isVideoIdentifier cap = true
  /\ exists pre lit rest, In lit alts /\ s = pre ++ lit ++ cap ++ rest.
Proof.
  induction s as [|a s IH]; cbn [searchId].
  - destruct (matchIdAt alts "") as [c|] eqn:Hm; [|discriminate].
    intros [= <-]. apply matchIdAt_sound in Hm as (Hid & lit & rest & Hin & Hs).
    split; [assumption|]. exists "", lit, rest. auto.
  - destruct (matchIdAt alts (String a s)) as [c|] eqn:Hm.
    + intros [= <-].
      apply matchIdAt_sound in Hm as (Hid & lit & rest & Hin & Hs).
      split; [assumption|]. exists "", lit, rest. auto.
    + intros H. destruct (IH H) as (Hid & pre & lit & rest & Hin & ->).
      split; [assumption|]. exists (String a pre), lit, rest. auto.
Qed.

End DownloadSoundness.

(** *** The vocabulary of the statements and the resolvers *)

Lemma stopCharacter_iff (c : ascii) :
  isDelimiter c = true <-> stopCharacter c.
Proof.
  unfold isDelimiter, stopCharacter.
  rewrite !orb_true_iff, !Ascii.eqb_eq. tauto.
Qed.

Lemma nonStop_iff (c : ascii) :
  isDelimiter c = false <-> ~ stopCharacter c.
Proof.
  rewrite <- stopCharacter_iff. now destruct (isDelimiter c).
Qed.

Lemma urlLiteral_iff (lit : string) :
  In lit urlPrefixes <-> urlLiteral lit.
Proof.
  unfold urlPrefixes, urlLiteral. simpl. intuition congruence.
Qed.

Lemma patternBeginsAt_iff (s : string) :
  patternBeginsAt s <-> startsWithUrlPattern s.
Proof.
  unfold patternBeginsAt, startsWithUrlPattern.
  split; intros (lit & c & rest & Hlit & Hs & Hc); exists lit, c, rest.
  - now rewrite urlLiteral_iff, nonStop_iff.
  - now rewrite <- urlLiteral_iff, <- nonStop_iff.
Qed.

Lemma noStop_iff (s : string) :
  noStop s <-> allChars nonDelimiter s = true.
Proof.
  induction s as [|c s IH]; simpl; [tauto|].
  rewrite andb_true_iff, <- IH. unfold nonDelimiter.
  rewrite negb_true_iff, nonStop_iff. tauto.
Qed.

Lemma endsCapture_iff (rest : string) :
  endsCapture rest <-> terminated rest = true.
Proof.
  unfold endsCapture. destruct rest as [|d r]; simpl.
  - split; auto.
  - rewrite stopCharacter_iff. split.
    + intros [H|(d' & r' & [= <- <-] & H)]; [discriminate|assumption].
    + intros H. right. eauto.
Qed.

Lemma captureRun_through (cap rest : string) :
  allChars nonDelimiter cap = true ->
  captureRun (cap ++ rest) = cap ++ captureRun rest.
Proof.
  induction cap as [|c cap IH]; simpl; [reflexivity|].
  intros H. apply andb_true_iff in H as [Hc Hcap].
  unfold nonDelimiter in Hc. apply negb_true_iff in Hc.
  now rewrite Hc, IH.
Qed.

Lemma captureRun_nil_iff (rest : string) :
  captureRun rest = "" <-> terminated rest = true.
Proof.
  destruct rest as [|d r]; simpl; [tauto|].
  destruct (isDelimiter d); split; congruence.
Qed.

(** A text without the letter y has no match of the pattern inside it. *)
Lemma noY_leftmostAt (pre tail : string) :
  allChars notLetterY pre = true -> leftmostAt pre tail.
Proof.
  intros Hpre p s -> Hs (lit & c & rest & Hlit & Heq & _).
  rewrite allChars_app in Hpre. apply andb_true_iff in Hpre as [_ Hs'].
  destruct s as [|a s]; [congruence|].
  simpl in Hs'. apply andb_true_iff in Hs' as [Ha _].
  destruct Hlit as [->|[->| ->]]; simpl in Heq; injection Heq as -> _;
    discriminate.
Qed.

Lemma leftmostAt_tail (c : ascii) (pre tail : string) :
  leftmostAt (String c pre) tail -> leftmostAt pre tail.
Proof.
  intros H p s -> Hs. apply (H (String c p) s); [reflexivity|assumption].
Qed.

Lemma leftmostAt_head (c : ascii) (pre tail : string) :
  leftmostAt (String c pre) tail ->
  ~ patternBeginsAt (String c pre ++ tail).
Proof.
  intros H. apply (H "" (String c pre)); [reflexivity|discriminate].
Qed.

Lemma searchUrl_leftmost (pre tail : string) :
  leftmostAt pre tail -> searchUrl (pre ++ tail) = searchUrl tail.
Proof.
  induction pre as [|c pre IH]; intros H; [reflexivity|].
  change (String c pre ++ tail) with (String c (pre ++ tail)).
  cbn [searchUrl].
  destruct (matchUrlAt urlPrefixes (String c (pre ++ tail))) as [cap|] eqn:Hm.
  - exfalso. apply (leftmostAt_head _ _ _ H), patternBeginsAt_iff.
    apply matchUrlAt_sound in Hm as (lit & t & Hin & Hs & Hcap & Hne).
    destruct t as [|d r]; [now subst cap|].
    exists lit, d, r. split; [assumption|]. split; [exact Hs|].
    simpl in Hcap. destruct (isDelimiter d); [now subst cap|reflexivity].
  - apply IH. now apply leftmostAt_tail in H.
Qed.

Lemma searchId_leftmost (alts : list string) (pre tail : string) :
  (forall lit, In lit alts -> urlLiteral lit) ->
  leftmostAt pre tail ->
  Download.searchId alts (pre ++ tail) = Download.searchId alts tail.
Proof.
  intros Halts. induction pre as [|c pre IH]; intros H; [reflexivity|].
  change (String c pre ++ tail) with (String c (pre ++ tail)).
  cbn [Download.searchId].
  destruct (Download.matchIdAt alts (String c (pre ++ tail)))
    as [cap|] eqn:Hm.
  - exfalso. apply (leftmostAt_head _ _ _ H).
    apply matchIdAt_sound in Hm as (Hid & lit & r & Hin & Hs).
    destruct (identifier_facts cap Hid) as (Hall & _ & d & t & ->).
    exists lit, d, (t ++ r). split; [now apply Halts|].
    split; [exact Hs|]. apply nonStop_iff.
    simpl in Hall. apply andb_true_iff in Hall as [Hd _].
    apply idChar_nonDelimiter in Hd. unfold nonDelimiter in Hd.
    now apply negb_true_iff in Hd.
  - apply IH. now apply leftmostAt_tail in H.
Qed.

Lemma searchId_freeOf (alts : list string) (s : string) :
  freeOf alts s -> Download.searchId alts s = None.
Proof.
  intros Hfree.
  destruct (Download.searchId alts s) as [cap|] eqn:Hs; [|reflexivity].
  apply searchId_sound in Hs as (_ & pre & lit & rest & Hin & Heq).
  now destruct (Hfree lit pre (cap ++ rest) Hin).
Qed.

(** At a literal prefix the pattern matches with the whole run of
    non-stop characters that follows, when there is one. *)
Lemma matchUrlAt_literal (lit tail : string) :
  urlLiteral lit -> captureRun tail <> "" ->
  matchUrlAt urlPrefixes (lit ++ tail) = Some (captureRun tail).
Proof.
  intros [->|[->| ->]] Hne; simpl;
    destruct (captureRun tail); congruence.
Qed.

Lemma literal_shape (lit : string) : urlLiteral lit -> literalShape lit.
Proof.
  intros H. apply urlLiteral_iff in H.
  exact (proj1 (Forall_forall _ _) urlPrefixes_shape lit H).
Qed.

(** The capture of the caption pipeline's resolver at the leftmost match. *)
Lemma extractVideoId_capture (pre lit cap rest : string) :
  urlLiteral lit -> leftmostAt pre (lit ++ cap ++ rest) ->
  cap <> "" -> allChars nonDelimiter cap = true ->
  extractVideoId (pre ++ lit ++ cap ++ rest) = Some (cap ++ captureRun rest).
Proof.
  intros Hlit Hleft Hne Hcap. unfold extractVideoId.
  rewrite searchUrl_leftmost by assumption.
  assert (Hrun : captureRun (cap ++ rest) = cap ++ captureRun rest)
    by now apply captureRun_through.
  erewrite searchUrl_hit; [reflexivity|].
  rewrite matchUrlAt_literal, Hrun; [reflexivity|assumption|].
  rewrite Hrun. destruct cap; [congruence|discriminate].
Qed.

(** The literals of a pattern of the download script are URL literals. *)
Ltac literals :=
  let lit := fresh "lit" in
  let H := fresh "H" in
  intros lit H; simpl in H; unfold urlLiteral; intuition congruence.

(** C8, amended. Let [id] be an eleven-character identifier that follows one
    of the three literal prefixes in a URL, this being the leftmost place
    where the URL pattern matches.  The caption pipeline's resolver returns
    [id] exactly when the identifier is followed by nothing or by one of
    [&], newline, [?], [#]: any other text that follows becomes part of the
    result.  The download script's resolver returns [id] whatever follows,
    provided, for the embed form, that neither of the two other literals
    occurs after the prefix.  Both resolvers return a bare identifier as it
    is.  An identifier is eleven characters out of letters, digits, [_] and
    [-]. *)
Theorem extractVideoId_same_identifier (id pre lit rest : string) :
  isVideoIdentifier id = true ->
  urlLiteral lit ->
  leftmostAt pre (lit ++ id ++ rest) ->
  (extractVideoId (pre ++ lit ++ id ++ rest) = Some id <-> endsCapture rest)
  /\ ((lit = "youtube.com/embed/" ->
       freeOf ["youtube.com/watch?v="; "youtu.be/"] (id ++ rest)) ->
      Download.extractVideoId (pre ++ lit ++ id ++ rest) = Ok id)
  /\ extractVideoId id = Some id
  /\ Download.extractVideoId id = Ok id
  /\ isVideoIdentifier "a_B-3_d-e_Z" = true
  /\ isVideoIdentifier "abc.efghijk" = false
  /\ isVideoIdentifier "abcdefghij" = false
  /\ isVideoIdentifier "abcdefghijkl" = false.
Proof.
  intros Hid Hlit Hleft.
  destruct (identifier_facts id Hid) as (Hall & Hnd & c & r & Hcons).
  split; [|split; [|split; [|split; [|repeat split]]]].
  - rewrite extractVideoId_capture; try assumption; [|now rewrite Hcons].
    rewrite endsCapture_iff, <- captureRun_nil_iff. split.
    + intros [= H]. rewrite <- (append_nil_r id) in H at 2.
      revert H. clear. induction id as [|a id IH]; simpl; [auto|].
      intros [= H]. auto.
    + intros ->. now rewrite append_nil_r.
  - intros Hfree. unfold Download.extractVideoId.
    rewrite url_not_bare by now apply literal_shape.
    pose proof (captureId_app id rest Hid) as Hcap.
    cbn [Download.firstMatch Download.patterns].
    destruct Hlit as [->|[->| ->]].
    + rewrite searchId_leftmost by (assumption || literals).
      erewrite searchId_hit; [reflexivity|].
      remember (id ++ rest) as tail. simpl. now rewrite Hcap.
    + rewrite searchId_leftmost by (assumption || literals).
      erewrite searchId_hit; [reflexivity|].
      remember (id ++ rest) as tail. simpl. now rewrite Hcap.
    + rewrite searchId_leftmost by (assumption || literals).
      assert (Hmiss : Download.searchId
                        ["youtube.com/watch?v="; "youtu.be/"]
                        ("youtube.com/embed/" ++ id ++ rest) = None).
      { remember (id ++ rest) as tail. simpl. subst tail.
        apply searchId_freeOf, Hfree. reflexivity. }
      rewrite Hmiss.
      rewrite searchId_leftmost by (assumption || literals).
      erewrite searchId_hit; [reflexivity|].
      remember (id ++ rest) as tail. simpl. now rewrite Hcap.
  - unfold extractVideoId.
    rewrite <- (append_nil_r id) at 1.
    rewrite searchUrl_inside_id by (assumption || reflexivity).
    simpl. unfold matchBareId. fold (isVideoIdentifier id). now rewrite Hid.
  - unfold Download.extractVideoId.
    fold (isVideoIdentifier id). now rewrite Hid.
Qed.

Lemma extractVideoId_same_identifier_witness :
  extractVideoId
    "https://www.youtube.com/watch?v=kCc8FmEb1nY&feature=youtu.be"
  = Some "kCc8FmEb1nY"
  /\ Download.extractVideoId
       "https://www.youtube.com/watch?v=kCc8FmEb1nY&feature=youtu.be"
     = Ok "kCc8FmEb1nY".
Proof.
  destruct (extractVideoId_same_identifier "kCc8FmEb1nY" "https://www."
              "youtube.com/watch?v=" "&feature=youtu.be")
    as (Hcaption & Hdownload & _).
  - reflexivity.
  - left. reflexivity.
  - apply noY_leftmostAt. reflexivity.
  - split.
    + apply Hcaption. right. exists "&"%char, "feature=youtu.be".
      split; [reflexivity|]. left. reflexivity.
    + apply Hdownload. intros H. discriminate H.
Defined.

(** Text after the identifier that does not begin with one of the four stop
    characters is taken into the result of the caption pipeline's resolver:
    a trailing slash or path segment changes the identifier, and the two
    resolvers disagree on such a URL.  The download script's resolver, which
    tries the watch and short forms first, returns another identifier when
    one of these forms occurs later in an embed URL. *)
Lemma trailing_text_joins_identifier :
  isVideoIdentifier "kCc8FmEb1nY" = true
  /\ extractVideoId "https://youtu.be/kCc8FmEb1nY/" = Some "kCc8FmEb1nY/"
  /\ extractVideoId "https://www.youtube.com/embed/kCc8FmEb1nY/live"
     = Some "kCc8FmEb1nY/live"
  /\ extractVideoId "https://www.youtube.com/watch?v=kCc8FmEb1nY%26t=1"
     = Some "kCc8FmEb1nY%26t=1"
  /\ Download.extractVideoId "https://youtu.be/kCc8FmEb1nY/"
     = Ok "kCc8FmEb1nY"
  /\ Download.extractVideoId
       "https://www.youtube.com/embed/kCc8FmEb1nY?ref=youtu.be/AAAAAAAAAAA"
     = Ok "AAAAAAAAAAA".
Proof. repeat split. Qed.

(** C9. The caption pipeline's resolver returns the capture of the leftmost
    match of the URL pattern: the text that follows one of the three literal
    prefixes up to the end of the input or to the first [&], newline, [?] or
    [#], whatever its length and its other characters.  Every input in which
    the pattern matches somewhere is of this form.  ["youtu.be/abc"]
    resolves to the three-character string ["abc"]. *)
Theorem extractVideoId_capture_unvalidated :
  (forall pre lit cap rest : string,
     urlLiteral lit -> leftmostAt pre (lit ++ cap ++ rest) ->
     cap <> "" -> noStop cap -> endsCapture rest ->
     extractVideoId (pre ++ lit ++ cap ++ rest) = Some cap)
  /\ (forall url : string,
        (exists pre tail, url = pre ++ tail /\ patternBeginsAt tail) ->
        exists pre lit cap rest,
          url = pre ++ lit ++ cap ++ rest
          /\ urlLiteral lit /\ leftmostAt pre (lit ++ cap ++ rest)
          /\ cap <> "" /\ noStop cap /\ endsCapture rest
          /\ extractVideoId url = Some cap)
  /\ extractVideoId "youtu.be/abc" = Some "abc"
  /\ extractVideoId "https://youtu.be/abc?t=1" = Some "abc"
  /\ extractVideoId "https://youtu.be/abc&t=1" = Some "abc"
  /\ extractVideoId "https://youtu.be/abc#t=1" = Some "abc"
  /\ extractVideoId ("https://youtu.be/abc" ++ nl ++ "t=1") = Some "abc"
  /\ extractVideoId "https://youtu.be/abc/d e.f=g" = Some "abc/d e.f=g"
  /\ extractVideoId "https://www.youtube.com/watch?v=abcdefghijklmnop"
     = Some "abcdefghijklmnop"
  /\ String.length "abc" <> 11%nat.
Proof.
  split; [|split; [|repeat split; try reflexivity; discriminate]].
  - intros pre lit cap rest Hlit Hleft Hne Hcap Hrest.
    apply noStop_iff in Hcap. apply endsCapture_iff in Hrest.
    rewrite extractVideoId_capture by assumption.
    apply captureRun_nil_iff in Hrest. rewrite Hrest.
    now rewrite append_nil_r.
  - intros url (pre0 & tail & -> & Hm).
    assert (Hmatch : urlPatternMatches (pre0 ++ tail)).
    { exists pre0, tail. split; [reflexivity|]. now apply patternBeginsAt_iff. }
    destruct (searchUrl_complete _ Hmatch) as [cap Hcap].
    destruct (searchUrl_sound _ cap Hcap)
      as (pre & lit & rest & Hin & Heq & Hne & Hall & Hterm & Hleft).
    exists pre, lit, cap, rest.
    split; [exact Heq|]. split; [now apply urlLiteral_iff|].
    split.
    { intros p s Hp Hs Hb. apply (Hleft p s Hp Hs).
      now apply patternBeginsAt_iff. }
    split; [exact Hne|]. split; [now apply noStop_iff|].
    split; [now apply endsCapture_iff|].
    unfold extractVideoId. now rewrite Hcap.
Qed.

Lemma extractVideoId_capture_unvalidated_witness :
  extractVideoId ("https://" ++ "youtu.be/" ++ "abc" ++ "?t=1") = Some "abc".
Proof.
  apply (proj1 extractVideoId_capture_unvalidated
           "https://" "youtu.be/" "abc" "?t=1").
  - right. left. reflexivity.
  - apply noY_leftmostAt. reflexivity.
  - discriminate.
  - simpl. unfold stopCharacter. repeat split; intuition discriminate.
  - right. exists "?"%char, "t=1". split; [reflexivity|].
    right. right. left. reflexivity.
Defined.

(** ** Batch Transcription Client: the timeline *)

Section TimelineFacts.

Import Speech.

Variable StringToNumber : string -> number.

Lemma contiguousFrom_snoc (prev : number) (segs : list SegmentInfo)
    (seg : SegmentInfo) :
  contiguousFrom prev segs -> start seg = lastEnd prev segs ->
  contiguousFrom prev (segs ++ [seg])%list.
Proof.
  revert prev. induction segs as [|s segs IH]; simpl; intros prev.
  - auto.
  - intros [Hs Hrest] Hseg. auto.
Qed.

Lemma lastEnd_snoc (prev : number) (segs : list SegmentInfo)
    (seg : SegmentInfo) :
  lastEnd prev (segs ++ [seg])%list = end_ seg.
Proof. revert prev. induction segs; simpl; auto. Qed.

Lemma step_chained (st : LoopState) (r : RecognitionResult) :
  chained st -> chained (step StringToNumber st r).
Proof.
  intros [Hc Hl]. unfold step.
  destruct (firstAlternative r) as [alt|]; [|now split].
  split; simpl.
  - apply contiguousFrom_snoc; simpl; assumption.
  - now rewrite lastEnd_snoc.
Qed.

Lemma fold_chained (results : list RecognitionResult) (st : LoopState) :
  chained st -> chained (fold_left (step StringToNumber) results st).
Proof.
  revert st. induction results as [|r results IH]; simpl; intros st Hst.
  - assumption.
  - apply IH, step_chained, Hst.
Qed.

Lemma fold_ends (results : list RecognitionResult) (st : LoopState) :
  map end_ (segments (fold_left (step StringToNumber) results st))
  = (map end_ (segments st)
       ++ map (fun r => endSeconds StringToNumber (resultEndOffset r))
            (filter hasAlternative results))%list.
Proof.
  revert st. induction results as [|r results IH]; simpl; intros st.
  - now rewrite List.app_nil_r.
  - rewrite IH. unfold step, hasAlternative.
    destruct (firstAlternative r) as [alt|]; simpl; [|reflexivity].
    now rewrite map_app, <- List.app_assoc.
Qed.

Lemma contiguous_ordered (prev : number) (segs : list SegmentInfo) :
  contiguousFrom prev segs ->
  nondecreasingFrom prev (map end_ segs) ->
  Forall (fun seg => numLe (start seg) (end_ seg)) segs.
Proof.
  revert prev. induction segs as [|seg segs IH]; simpl; intros prev.
  - constructor.
  - intros [Hs Hc] [Hle Hn]. constructor; [now rewrite Hs|eauto].
Qed.

Lemma ordered_nondecreasing (prev : number) (segs : list SegmentInfo) :
  contiguousFrom prev segs ->
  Forall (fun seg => numLe (start seg) (end_ seg)) segs ->
  nondecreasingFrom prev (map end_ segs).
Proof.
  revert prev. induction segs as [|seg segs IH]; simpl; intros prev.
  - auto.
  - intros [Hs Hc] Hall. split.
    + rewrite <- Hs. exact (Forall_inv Hall).
    + apply IH; [assumption|exact (Forall_inv_tail Hall)].
Qed.

(** C2, amended. Whatever the recognizer returned, the emitted segments are
    chained: the first starts at 0 and every later one starts at the end of
    the one before it.  The ends are, in order, those of the results that
    carry an alternative, an end being parsed from the string encoding (the
    text without its [s], read by [parseFloat]) or computed from the
    seconds/nanos pair, and being 0 when the result has no end offset.  The
    segments do not overlap (no segment ends before it starts) exactly when
    these ends never decrease.  End offsets "3.500s" and "7.0s" give the
    segments from 0 to 3.5 and from 3.5 to 7. *)
Theorem segments_contiguous (results : list RecognitionResult) :
  let segs := segments (processResults StringToNumber results) in
  contiguousFrom (ofZ 0) segs
  /\ map end_ segs
     = map (fun r => endSeconds StringToNumber (resultEndOffset r))
         (filter hasAlternative results)
  /\ (Forall (fun seg => numLe (start seg) (end_ seg)) segs
      <-> nondecreasingFrom (ofZ 0) (map end_ segs))
  /\ (forall (c : ascii) (s : string),
        endSeconds StringToNumber (Def (DurString (String c s)))
        = Parse.parseFloat (removeFirst "s" (String c s)))
  /\ (forall seconds nanos : js Scalar,
        endSeconds StringToNumber (Def (DurObject seconds nanos))
        = add (numberOrZero StringToNumber seconds)
              (divBy (numberOrZero StringToNumber nanos) 1000000000))
  /\ endSeconds StringToNumber Undefined = ofZ 0
  /\ endSeconds StringToNumber Null = ofZ 0
  /\ endSeconds StringToNumber
       (Def (DurObject (Def (SNum (ofZ 3))) (Def (SNum (ofZ 500000000)))))
     = Fin (7 # 2)
  /\ map (fun seg => (start seg, end_ seg))
       (segments (processResults StringToNumber
                    [spoken "one" "3.500s"; spoken "two" "7.0s"]))
     = [(ofZ 0, Fin (7 # 2)); (Fin (7 # 2), ofZ 7)].
Proof.
  intros segs.
  assert (Hchain : contiguousFrom (ofZ 0) segs)
    by (apply (fold_chained results); now split).
  split; [exact Hchain|]. split.
  { unfold segs, processResults. now rewrite fold_ends. }
  split.
  { split; [now apply ordered_nondecreasing|now apply contiguous_ordered]. }
  repeat split.
Qed.

End TimelineFacts.

Lemma segments_contiguous_witness :
  Forall (fun seg => numLe (Speech.start seg) (Speech.end_ seg))
    (Speech.segments
       (Speech.processResults (fun _ => NaN)
          [spoken "one" "3.500s"; spoken "two" "7.0s"])).
Proof.
  apply (proj2 (proj1 (proj2 (proj2
           (segments_contiguous (fun _ => NaN)
              [spoken "one" "3.500s"; spoken "two" "7.0s"]))))).
  simpl. unfold Qle; simpl. lia.
Defined.

(** A result without an end offset ends at 0.  With the ends 7, missing
    and 9 the segments are still chained, but the second one runs from 7
    back to 0 and the third one, from 0 to 9, covers the whole of the first:
    the segments are not a non-overlapping partition of the timeline. *)
Lemma missing_end_offset_overlaps :
  map (fun seg => (Speech.start seg, Speech.end_ seg))
    (Speech.segments
       (Speech.processResults (fun _ => NaN)
          [spoken "one" "7s"; unended "two"; spoken "three" "9s"]))
  = [(ofZ 0, ofZ 7); (ofZ 7, ofZ 0); (ofZ 0, ofZ 9)]
  /\ contiguousFrom (ofZ 0)
       (Speech.segments
          (Speech.processResults (fun _ => NaN)
             [spoken "one" "7s"; unended "two"; spoken "three" "9s"]))
  /\ ~ numLe (ofZ 7) (ofZ 0)
  /\ ~ Forall (fun seg => numLe (Speech.start seg) (Speech.end_ seg))
         (Speech.segments
            (Speech.processResults (fun _ => NaN)
               [spoken "one" "7s"; unended "two"; spoken "three" "9s"])).
Proof.
  assert (Hno : ~ numLe (ofZ 7) (ofZ 0)).
  { unfold numLe, ofZ, Qle. simpl. lia. }
  split; [reflexivity|]. split; [repeat split|]. split; [exact Hno|].
  intros H. apply Forall_inv_tail, Forall_inv in H. exact (Hno H).
Qed.

(** ** Segment Normalizer *)

Section NormalizerFacts.

Import Script.

Variable stringify : js Caption.CaptionSegment -> string.

Lemma normalizeItem_timed (index : nat) (item : js Caption.CaptionSegment) :
  hasTiming item = true ->
  exists seg, normalizeItem stringify index item = Ok seg
              /\ inSeconds item seg.
Proof.
  destruct item as [| |it]; simpl; try discriminate.
  intros H. apply andb_true_iff in H as [Ho Hd].
  apply negb_true_iff in Ho, Hd. rewrite Ho, Hd. simpl.
  eexists; split; [reflexivity|]. exists it. simpl. auto.
Qed.

Lemma normalizeItem_untimed (index : nat) (item : js Caption.CaptionSegment) :
  hasTiming item = false ->
  normalizeItem stringify index item
  = Throw (invalidSegment stringify index item).
Proof.
  destruct item as [| |it]; simpl; try reflexivity.
  intros H. apply andb_false_iff in H as [H|H];
    apply negb_false_iff in H; rewrite H; simpl;
    [|rewrite orb_true_r]; reflexivity.
Qed.

Lemma mapSegments_timed (items : list (js Caption.CaptionSegment)) :
  forall index, Forall (fun item => hasTiming item = true) items ->
  exists segs, mapSegments stringify index items = Ok segs
               /\ Forall2 inSeconds items segs.
Proof.
  induction items as [|item items IH]; intros index Hall; simpl.
  - exists []. auto.
  - inversion Hall as [|? ? Hitem Hrest]; subst.
    destruct (normalizeItem_timed index item Hitem) as (seg & -> & Hseg).
    destruct (IH (S index) Hrest) as (segs & -> & Hsegs).
    exists (seg :: segs). simpl. auto.
Qed.

(** [map] throws at the first element without timing, with its index. *)
Lemma mapSegments_untimed (pre post : list (js Caption.CaptionSegment))
    (item : js Caption.CaptionSegment) :
  forall index, Forall (fun item => hasTiming item = true) pre ->
  hasTiming item = false ->
  mapSegments stringify index (pre ++ item :: post)%list
  = Throw (invalidSegment stringify (index + List.length pre) item).
Proof.
  induction pre as [|p pre IH]; intros index Hpre Hitem; simpl.
  - rewrite normalizeItem_untimed by assumption. simpl.
    now rewrite Nat.add_0_r.
  - inversion Hpre as [|? ? Hp Hrest]; subst.
    destruct (normalizeItem_timed index p Hp) as (seg & -> & _). simpl.
    rewrite IH by assumption. simpl. f_equal. f_equal. lia.
Qed.

Lemma processSegments_timed (items : list (js Caption.CaptionSegment)) :
  items <> [] ->
  Forall (fun item => hasTiming item = true) items ->
  exists p front lastSegment,
    processSegments stringify items = Ok p
    /\ Forall2 inSeconds items (transcriptSegments p)
    /\ transcriptSegments p = (front ++ [lastSegment])%list
    /\ totalDuration p = add (timestamp lastSegment) (duration lastSegment).
Proof.
  intros Hne Hall.
  destruct (mapSegments_timed items 0 Hall) as (segs & Hmap & Hsegs).
  assert (Hsne : segs <> []).
  { intros ->. inversion Hsegs; subst. now apply Hne. }
  destruct (exists_last Hsne) as (front & lastSegment & ->).
  unfold processSegments. destruct items as [|item items]; [now destruct Hne|].
  rewrite Hmap. simpl. rewrite rev_app_distr. simpl.
  eexists; exists front, lastSegment. repeat split. exact Hsegs.
Qed.

End NormalizerFacts.

(** C3. On a non-empty caption list whose elements all have an offset and a
    duration, the Segment Normalizer returns one normalized segment per
    element, in order, with timestamp = offset / 1000 and duration =
    duration / 1000, and the total duration is the timestamp plus the
    duration of the final segment (2 for the two one-second captions; also 2,
    not 5, when an earlier caption ends later than the final one). *)
Theorem normalizer_seconds
    (stringify : js Caption.CaptionSegment -> string)
    (items : list (js Caption.CaptionSegment)) :
  items <> [] ->
  Forall (fun item => hasTiming item = true) items ->
  (exists p front lastSegment,
     Script.processSegments stringify items = Ok p
     /\ Forall2 inSeconds items (Script.transcriptSegments p)
     /\ Script.transcriptSegments p = (front ++ [lastSegment])%list
     /\ Script.totalDuration p
        = add (Script.timestamp lastSegment) (Script.duration lastSegment))
  /\ (exists p,
        Script.processSegments stringify
          [caption "a" 0 1000; caption "b" 1000 1000] = Ok p
        /\ Script.totalDuration p = ofZ 2
        /\ Script.fullTranscriptText p
           = "[0:00] a" ++ String "010" "" ++ "[0:01] b")
  /\ (exists p,
        Script.processSegments stringify
          [caption "a" 0 5000; caption "b" 1000 1000] = Ok p
        /\ Script.totalDuration p = ofZ 2
        /\ map (fun seg => add (Script.timestamp seg) (Script.duration seg))
             (Script.transcriptSegments p) = [ofZ 5; ofZ 2]).
Proof.
  intros Hne Hall. split; [now apply processSegments_timed|].
  split; eexists; (split; [reflexivity|]); simpl; auto.
Qed.

Lemma normalizer_seconds_witness :
  exists p front lastSegment,
    Script.processSegments (fun _ => "")
      [caption "a" 0 1000; caption "b" 1000 1000] = Ok p
    /\ Forall2 inSeconds [caption "a" 0 1000; caption "b" 1000 1000]
         (Script.transcriptSegments p)
    /\ Script.transcriptSegments p = (front ++ [lastSegment])%list
    /\ Script.totalDuration p
       = add (Script.timestamp lastSegment) (Script.duration lastSegment).
Proof.
  apply (normalizer_seconds (fun _ => "")
           [caption "a" 0 1000; caption "b" 1000 1000]).
  - discriminate.
  - repeat constructor.
Defined.

(** C10. A segment whose offset and duration are defined is normalized
    whatever its text is, a missing, [null] or empty text becoming the empty
    string; the normalizer aborts only on an element that lacks an offset or
    a duration, and then with the message that carries the index of the
    first such element. *)
Theorem normalizer_tolerates_text
    (stringify : js Caption.CaptionSegment -> string) :
  (forall (index : nat) (txt : js string) (off dur : number),
     (txt = Undefined \/ txt = Null \/ txt = Def "") ->
     Script.normalizeItem stringify index
       (Def {| Caption.text := txt;
               Caption.offset := Def off;
               Caption.duration := Def dur |})
     = Ok {| Script.text := "";
             Script.timestamp := divBy off 1000;
             Script.duration := divBy dur 1000 |})
  /\ (forall items, items <> [] ->
        Forall (fun item => hasTiming item = true) items ->
        exists p, Script.processSegments stringify items = Ok p)
  /\ (forall pre item post,
        Forall (fun item => hasTiming item = true) pre ->
        hasTiming item = false ->
        Script.processSegments stringify (pre ++ item :: post)%list
        = Throw ("Invalid transcript segment at index "
                   ++ decimal (Z.of_nat (List.length pre)) ++ ": "
                   ++ stringify item)).
Proof.
  repeat split.
  - intros index txt off dur [->|[->| ->]]; reflexivity.
  - intros items Hne Hall.
    destruct (processSegments_timed stringify items Hne Hall)
      as (p & _ & _ & Hp & _). eauto.
  - intros pre item post Hpre Hitem. unfold Script.processSegments.
    rewrite (mapSegments_untimed stringify pre post item 0 Hpre Hitem).
    destruct (pre ++ item :: post)%list eqn:Hl; [|reflexivity].
    now destruct pre.
Qed.

Lemma normalizer_tolerates_text_witness :
  Script.processSegments (fun _ => "?")
    [caption "a" 0 1000;
     Def {| Caption.text := Def "b";
            Caption.offset := Undefined;
            Caption.duration := Def (ofZ 1000) |}]
  = Throw "Invalid transcript segment at index 1: ?".
Proof.
  apply (proj2 (proj2 (normalizer_tolerates_text (fun _ => "?")))
           [caption "a" 0 1000]
           (Def {| Caption.text := Def "b";
                   Caption.offset := Undefined;
                   Caption.duration := Def (ofZ 1000) |})
           []).
  - repeat constructor.
  - reflexivity.
Defined.

(** ** Batch Transcription Client: inline or by reference *)

Section SubmissionFacts.

Import Transcriber.

Variable now : string.
Variable basename : string -> string.
Variable encodeURIComponent : string -> string.
Variable readFile : string -> result string.
Variable send : Request -> result Reply.
Variable stat : string -> result N.
Variable base64 : string -> string.





End SubmissionFacts.


(** ** Caption Fetcher *)

Section FetcherFacts.

Import Route.

Variable fetchTranscript : option string -> FetchOutcome.

Lemma tooShort_false (joined : string) :
  tooShort joined = false <-> (50 <= String.length (trim joined))%nat.
Proof.
  unfold tooShort. rewrite orb_false_iff, Nat.ltb_ge. split; [tauto|].
  intros H. split; [|assumption].
  destruct joined; [simpl in H; lia|reflexivity].
Qed.

(** Case analysis on what the call for a candidate did; [finish] closes the
    branches in which the attempt fails before any text is joined. *)
Ltac outcome_cases fetch lang finish :=
  destruct (fetch lang) as [?message|[| |[|?item ?items]]]; try finish;
  destruct (Route.itemTexts (_ :: _)) as [?texts|]; [|finish].

Lemma attempt_attempted (lang : option string) (st : FetchState) :
  attempted (fst (attempt fetchTranscript lang st))
  = (attempted st ++ [lang])%list.
Proof.
  unfold attempt. outcome_cases fetchTranscript lang ltac:(reflexivity).
  now destruct (tooShort _).
Qed.

Lemma attempt_stop (lang : option string) (st : FetchState) :
  snd (attempt fetchTranscript lang st) = usable (fetchTranscript lang).
Proof.
  unfold attempt, usable, joinedText.
  outcome_cases fetchTranscript lang ltac:(reflexivity).
  now destruct (tooShort _).
Qed.

Lemma attempt_usable (lang : option string) (st : FetchState) :
  usable (fetchTranscript lang) = true ->
  exists joined,
    joinedText (fetchTranscript lang) = Some joined
    /\ tooShort joined = false
    /\ attempt fetchTranscript lang st
       = ({| transcriptText := joined;
             lastError := lastError st;
             attempted := (attempted st ++ [lang])%list |}, true).
Proof.
  unfold attempt, usable, joinedText.
  outcome_cases fetchTranscript lang ltac:(discriminate).
  destruct (tooShort (joinTexts texts)) eqn:Hshort; [discriminate|].
  intros _. exists (joinTexts texts). auto.
Qed.

Lemma attempt_unusable (lang : option string) (st : FetchState) :
  usable (fetchTranscript lang) = false -> pending st ->
  snd (attempt fetchTranscript lang st) = false
  /\ pending (fst (attempt fetchTranscript lang st)).
Proof.
  intros Hu Hp. split; [now rewrite attempt_stop|].
  revert Hu. unfold attempt, usable, joinedText, pending in *.
  outcome_cases fetchTranscript lang ltac:(now simpl).
  destruct (tooShort (joinTexts texts)) eqn:Hshort; [now simpl|discriminate].
Qed.

Lemma fetchLoop_grows (langs : list (option string)) (st : FetchState) :
  exists more,
    attempted (fetchLoop fetchTranscript langs st)
    = (attempted st ++ more)%list.
Proof.
  revert st. induction langs as [|lang langs IH]; intros st; simpl.
  - exists []. now rewrite List.app_nil_r.
  - pose proof (attempt_attempted lang st) as Ha.
    destruct (attempt fetchTranscript lang st) as [st' stop]. simpl in Ha.
    destruct stop.
    + exists [lang]. assumption.
    + destruct (IH st') as [more Hmore]. exists (lang :: more).
      now rewrite Hmore, Ha, <- List.app_assoc.
Qed.

(** The loop stops at the first usable candidate. *)
Lemma fetchLoop_first_usable (pre post : list (option string))
    (lang : option string) :
  forall st, pending st ->
  Forall (fun l => usable (fetchTranscript l) = false) pre ->
  usable (fetchTranscript lang) = true ->
  exists joined,
    joinedText (fetchTranscript lang) = Some joined
    /\ tooShort joined = false
    /\ transcriptText (fetchLoop fetchTranscript (pre ++ lang :: post) st)
       = joined
    /\ attempted (fetchLoop fetchTranscript (pre ++ lang :: post) st)
       = (attempted st ++ pre ++ [lang])%list.
Proof.
  induction pre as [|p pre IH]; intros st Hst Hpre Hlang; simpl.
  - destruct (attempt_usable lang st Hlang) as (joined & Hj & Hs & ->).
    exists joined. simpl. auto.
  - inversion Hpre as [|? ? Hp Hrest]; subst.
    destruct (attempt_unusable p st Hp Hst) as [Hstop Hpend].
    pose proof (attempt_attempted p st) as Ha.
    destruct (attempt fetchTranscript p st) as [st' stop].
    simpl in Hstop, Hpend, Ha. subst stop.
    destruct (IH st' Hpend Hrest Hlang) as (joined & Hj & Hs & Ht & Hatt).
    exists joined. rewrite Ht, Hatt, Ha, <- List.app_assoc. auto.
Qed.

(** Without a usable candidate the loop tries them all and accepts none. *)
Lemma fetchLoop_none_usable (langs : list (option string)) :
  forall st, pending st ->
  Forall (fun l => usable (fetchTranscript l) = false) langs ->
  pending (fetchLoop fetchTranscript langs st)
  /\ attempted (fetchLoop fetchTranscript langs st)
     = (attempted st ++ langs)%list.
Proof.
  induction langs as [|lang langs IH]; intros st Hst Hall; simpl.
  - now rewrite List.app_nil_r.
  - inversion Hall as [|? ? Hl Hrest]; subst.
    destruct (attempt_unusable lang st Hl Hst) as [Hstop Hpend].
    pose proof (attempt_attempted lang st) as Ha.
    destruct (attempt fetchTranscript lang st) as [st' stop].
    simpl in Hstop, Hpend, Ha. subst stop.
    destruct (IH st' Hpend Hrest) as [Hp Hatt].
    split; [assumption|]. now rewrite Hatt, Ha, <- List.app_assoc.
Qed.

End FetcherFacts.

(** C1. The candidates are tried in the order en, en-US, en-GB, no
    language.  The loop stops at the first candidate that yields a usable
    text (a non-empty array whose joined text passes the length test) and the
    fetcher returns that text; when no candidate is usable all four are
    tried and the fetcher throws.  If the en call rejects and the en-US call
    resolves to a non-empty array with a long enough joined text, the result
    is the en-US text and neither en-GB nor the default was attempted. *)
Theorem fetchCaptions_order
    (fetchTranscript : option string -> Route.FetchOutcome) :
  let st := fst (Route.fetchCaptions fetchTranscript) in
  let outcome := snd (Route.fetchCaptions fetchTranscript) in
  Route.languageCodes = [Some "en"; Some "en-US"; Some "en-GB"; None]
  /\ (forall pre lang post,
        Route.languageCodes = (pre ++ lang :: post)%list ->
        Forall (fun l => usable (fetchTranscript l) = false) pre ->
        usable (fetchTranscript lang) = true ->
        Route.attempted st = (pre ++ [lang])%list
        /\ exists joined,
             joinedText (fetchTranscript lang) = Some joined
             /\ outcome = Ok joined)
  /\ (Forall (fun l => usable (fetchTranscript l) = false)
        Route.languageCodes ->
        Route.attempted st = Route.languageCodes
        /\ exists message, outcome = Throw message)
  /\ (forall message item items texts,
        fetchTranscript (Some "en") = Route.Rejects message ->
        fetchTranscript (Some "en-US")
        = Route.Resolves (Def (item :: items)) ->
        Route.itemTexts (item :: items) = Ok texts ->
        Route.tooShort (Route.joinTexts texts) = false ->
        outcome = Ok (Route.joinTexts texts)
        /\ Route.attempted st = [Some "en"; Some "en-US"]
        /\ ~ In (Some "en-GB") (Route.attempted st)
        /\ ~ In None (Route.attempted st)).
Proof.
  intros st outcome.
  assert (Hfirst : forall pre lang post,
            Route.languageCodes = (pre ++ lang :: post)%list ->
            Forall (fun l => usable (fetchTranscript l) = false) pre ->
            usable (fetchTranscript lang) = true ->
            Route.attempted st = (pre ++ [lang])%list
            /\ exists joined,
                 joinedText (fetchTranscript lang) = Some joined
                 /\ outcome = Ok joined).
  { intros pre lang post Hcodes Hpre Hlang.
    destruct (fetchLoop_first_usable fetchTranscript pre post lang
                Route.initialState eq_refl Hpre Hlang)
      as (joined & Hj & Hs & Ht & Hatt).
    unfold st, outcome, Route.fetchCaptions. cbn [fst snd].
    rewrite Hcodes, Ht, Hs, Hatt. split; [reflexivity|eauto]. }
  split; [reflexivity|]. split; [exact Hfirst|]. split.
  - intros Hall.
    destruct (fetchLoop_none_usable fetchTranscript Route.languageCodes
                Route.initialState eq_refl Hall) as [Hp Hatt].
    unfold st, outcome, Route.fetchCaptions. cbn [fst snd].
    unfold pending in Hp. rewrite Hp, Hatt. split; [reflexivity|eauto].
  - intros message item items texts Hen Hus Htexts Hlong.
    destruct (Hfirst [Some "en"] (Some "en-US") [Some "en-GB"; None])
      as (Hatt & joined & Hj & Hout).
    + reflexivity.
    + constructor; [|constructor]. unfold usable, joinedText.
      now rewrite Hen.
    + unfold usable, joinedText. now rewrite Hus, Htexts, Hlong.
    + unfold joinedText in Hj. rewrite Hus, Htexts in Hj.
      injection Hj as <-. rewrite Hatt. simpl.
      repeat split; try assumption; intros [H|[H|[]]]; discriminate.
Qed.

Lemma fetchCaptions_order_witness :
  snd (Route.fetchCaptions (serviceWith "en-US" sixtyCharacters))
  = Ok (Route.joinTexts [Def sixtyCharacters])
  /\ Route.attempted
       (fst (Route.fetchCaptions (serviceWith "en-US" sixtyCharacters)))
     = [Some "en"; Some "en-US"]
  /\ ~ In (Some "en-GB")
       (Route.attempted
          (fst (Route.fetchCaptions (serviceWith "en-US" sixtyCharacters))))
  /\ ~ In None
       (Route.attempted
          (fst (Route.fetchCaptions (serviceWith "en-US" sixtyCharacters)))).
Proof.
  eapply (proj2 (proj2 (proj2
            (fetchCaptions_order (serviceWith "en-US" sixtyCharacters)))));
    reflexivity.
Defined.

(** The test of the loop is [length < 50]: a candidate whose joined text has
    exactly fifty characters is accepted at once, against the reading that
    the text must exceed fifty characters. *)
Lemma exactly_fifty_accepted :
  joinedText (serviceWith "en" fiftyCharacters (Some "en"))
  = Some fiftyCharacters
  /\ String.length fiftyCharacters = 50%nat
  /\ snd (Route.attempt (serviceWith "en" fiftyCharacters) (Some "en")
            Route.initialState) = true
  /\ Route.attempted
       (fst (Route.fetchCaptions (serviceWith "en" fiftyCharacters)))
     = [Some "en"]
  /\ snd (Route.fetchCaptions (serviceWith "en" fiftyCharacters))
     = Ok fiftyCharacters.
Proof. repeat split. Qed.

(** C5, amended. A candidate is accepted exactly when its call resolves to
    a non-empty array of segments whose texts, joined with single spaces and
    then trimmed, have at least fifty characters: exactly fifty is accepted.
    A rejected candidate is followed by an attempt on the next one. *)
Theorem candidate_accepted_from_fifty
    (fetchTranscript : option string -> Route.FetchOutcome)
    (lang : option string) (st : Route.FetchState) :
  (snd (Route.attempt fetchTranscript lang st) = true <->
     exists joined,
       joinedText (fetchTranscript lang) = Some joined
       /\ (50 <= String.length (trim joined))%nat)
  /\ (forall joined,
        joinedText (fetchTranscript lang) = Some joined ->
        String.length (trim joined) = 50%nat ->
        snd (Route.attempt fetchTranscript lang st) = true)
  /\ (forall joined,
        joinedText (fetchTranscript lang) = Some joined ->
        (String.length (trim joined) < 50)%nat ->
        snd (Route.attempt fetchTranscript lang st) = false)
  /\ (forall next rest,
        snd (Route.attempt fetchTranscript lang st) = false ->
        In next
          (Route.attempted
             (Route.fetchLoop fetchTranscript (lang :: next :: rest) st))).
Proof.
  assert (Hiff : snd (Route.attempt fetchTranscript lang st) = true <->
            exists joined,
              joinedText (fetchTranscript lang) = Some joined
              /\ (50 <= String.length (trim joined))%nat).
  { rewrite attempt_stop. unfold usable.
    destruct (joinedText (fetchTranscript lang)) as [joined|]; split.
    - intros H. apply negb_true_iff, tooShort_false in H. eauto.
    - intros (j & [= <-] & H). now apply negb_true_iff, tooShort_false.
    - discriminate.
    - now intros (j & [=] & _). }
  split; [exact Hiff|]. split; [|split].
  - intros joined Hj Hlen. apply Hiff. exists joined. split; [assumption|lia].
  - intros joined Hj Hlen.
    apply not_true_is_false. intros Hs.
    apply Hiff in Hs as (j & Hj' & Hlen'). rewrite Hj in Hj'.
    injection Hj' as <-. lia.
  - intros next rest Hstop. cbn [Route.fetchLoop].
    pose proof (attempt_attempted fetchTranscript lang st) as Ha.
    destruct (Route.attempt fetchTranscript lang st) as [st' stop].
    simpl in Hstop, Ha. subst stop.
    pose proof (attempt_attempted fetchTranscript next st') as Hb.
    destruct (Route.attempt fetchTranscript next st') as [st'' stop].
    simpl in Hb.
    assert (Hin : In next (Route.attempted st'')).
    { rewrite Hb. apply in_or_app. right. now left. }
    destruct stop; [assumption|].
    destruct (fetchLoop_grows fetchTranscript rest st'') as [more ->].
    apply in_or_app. now left.
Qed.

Lemma candidate_accepted_from_fifty_witness :
  In (Some "en-US")
    (Route.attempted
       (Route.fetchLoop (serviceWith "en" "too short")
          [Some "en"; Some "en-US"; Some "en-GB"] Route.initialState)).
Proof.
  apply (proj2 (proj2 (proj2
           (candidate_accepted_from_fifty (serviceWith "en" "too short")
              (Some "en") Route.initialState)))).
  reflexivity.
Defined.

(** ** Document Formatter *)

Section FormatterFacts.

Variable path_join : list string -> string.
Variable path_dirname : string -> string.
Variable cwd : string.
Variable stringify : Route.ErrorBody -> string.

Lemma degenerate_iff (markdown : string) :
  degenerate markdown = true <-> (String.length markdown < 100)%nat.
Proof.
  unfold degenerate. rewrite orb_true_iff, Nat.ltb_lt. split; [|tauto].
  intros [H|H]; [|assumption].
  apply String.eqb_eq in H. subst. simpl. lia.
Qed.

Lemma degenerate_false_iff (markdown : string) :
  degenerate markdown = false <-> (100 <= String.length markdown)%nat.
Proof.
  rewrite <- not_true_iff_false, degenerate_iff. lia.
Qed.

(** C6. Once the service has answered with a completion, a completion whose
    trimmed text has fewer than 100 characters makes the formatter throw
    with the file-system log unchanged; from 100 characters on the formatter
    creates the output directory and writes exactly the trimmed completion.
    This holds for the route and for the script. *)
Theorem short_markdown_rejected (videoId completion : string)
    (log : list Fs.FsOp) :
  let markdown := trim completion in
  ((String.length markdown < 100)%nat ->
     (exists message,
        Route.saveMarkdown path_join cwd videoId completion log
        = (Throw message, log))
     /\ (forall outputPath, exists message,
           Script.saveMarkdown path_join path_dirname cwd videoId
             (Def completion) outputPath log
           = (Throw message, log)))
  /\ ((100 <= String.length markdown)%nat ->
      (exists success,
         Route.saveMarkdown path_join cwd videoId completion log
         = (Ok success,
            (log ++
               [Fs.Mkdir (path_join [cwd; "youtube"; videoId]);
                Fs.WriteFile
                  (path_join [path_join [cwd; "youtube"; videoId];
                              "transcript.md"])
                  markdown])%list))
      /\ Script.saveMarkdown path_join path_dirname cwd videoId
           (Def completion) Undefined log
         = (Ok tt,
            (log ++
               [Fs.Mkdir
                  (path_dirname
                     (path_join [cwd; "youtube"; videoId; "transcript.md"]));
                Fs.WriteFile
                  (path_join [cwd; "youtube"; videoId; "transcript.md"])
                  markdown])%list)
      /\ (forall data,
            Route.extractText stringify data = Ok completion ->
            exists success,
              Route.formatAndSave path_join cwd stringify videoId data log
              = (Ok success,
                 (log ++
                    [Fs.Mkdir (path_join [cwd; "youtube"; videoId]);
                     Fs.WriteFile
                       (path_join [path_join [cwd; "youtube"; videoId];
                                   "transcript.md"])
                       markdown])%list))).
Proof.
  intros markdown. split.
  - intros Hshort. apply degenerate_iff in Hshort. split.
    + unfold Route.saveMarkdown. fold markdown. rewrite Hshort.
      eexists; reflexivity.
    + intros outputPath. unfold Script.saveMarkdown.
      destruct completion as [|c r]; [eexists; reflexivity|].
      fold markdown. rewrite Hshort. eexists; reflexivity.
  - intros Hlong. apply degenerate_false_iff in Hlong.
    assert (Hroute : exists success,
              Route.saveMarkdown path_join cwd videoId completion log
              = (Ok success,
                 (log ++
                    [Fs.Mkdir (path_join [cwd; "youtube"; videoId]);
                     Fs.WriteFile
                       (path_join [path_join [cwd; "youtube"; videoId];
                                   "transcript.md"])
                       markdown])%list)).
    { unfold Route.saveMarkdown. fold markdown. rewrite Hlong.
      eexists. unfold Fs.bind, Fs.mkdir, Fs.writeFile, Fs.perform, Fs.ret.
      now rewrite <- List.app_assoc. }
    split; [exact Hroute|]. split.
    + unfold Script.saveMarkdown.
      destruct completion as [|c r];
        [apply degenerate_false_iff in Hlong; simpl in Hlong; lia|].
      fold markdown. rewrite Hlong.
      unfold Fs.bind, Fs.mkdir, Fs.writeFile, Fs.perform.
      now rewrite <- List.app_assoc.
    + intros data Hdata. unfold Route.formatAndSave, Fs.bind, Fs.lift.
      rewrite Hdata. exact Hroute.
Qed.

End FormatterFacts.

Lemma short_markdown_rejected_witness :
  exists message,
    Route.saveMarkdown (join "/") "/srv" "kCc8FmEb1nY" "  # Title  " []
    = (Throw message, []).
Proof.
  apply (proj1 (short_markdown_rejected (join "/") (fun p => p) "/srv"
                  (fun _ => "") "kCc8FmEb1nY" "  # Title  " [])).
  simpl. lia.
Defined.

(* ================================================================== *)
(** * Part III. Further properties of the code *)
(* ================================================================== *)

(** ** The resolvers: when they fail and what they return *)

Lemma searchUrl_none_iff (url : string) :
  searchUrl url = None <-> ~ urlPatternMatches url.
Proof.
  split.
  - intros Hnone Hm. destruct (searchUrl_complete url Hm) as [cap Hcap].
    congruence.
  - intros Hm. destruct (searchUrl url) as [cap|] eqn:Hs; [|reflexivity].
    exfalso. apply Hm.
    destruct (searchUrl_sound url cap Hs)
      as (pre & lit & rest & Hin & -> & Hne & Hall & _).
    exists pre, (lit ++ cap ++ rest). split; [reflexivity|].
    destruct cap as [|c r]; [now destruct Hne|].
    exists lit, c, (r ++ rest). repeat split; [assumption|].
    simpl in Hall. apply andb_true_iff in Hall as [Hc _].
    now apply negb_true_iff in Hc.
Qed.

(** X1. The caption pipeline's resolver returns [null] exactly on the
    inputs in which the URL pattern matches nowhere and which are not a bare
    eleven-character identifier; when the pattern matches nowhere a bare
    identifier is returned as it is.  The empty string is rejected. *)
Theorem extractVideoId_failure (url : string) :
  (extractVideoId url = None <->
     ~ urlPatternMatches url /\ isVideoIdentifier url = false)
  /\ (~ urlPatternMatches url -> isVideoIdentifier url = true ->
      extractVideoId url = Some url)
  /\ extractVideoId "" = None.
Proof.
  unfold extractVideoId, matchBareId. fold (isVideoIdentifier url).
  split; [split|split].
  - intros H. split.
    + apply searchUrl_none_iff. now destruct (searchUrl url).
    + destruct (searchUrl url); [discriminate|].
      now destruct (isVideoIdentifier url).
  - intros [Hm Hid]. apply searchUrl_none_iff in Hm. now rewrite Hm, Hid.
  - intros Hm Hid. apply searchUrl_none_iff in Hm. now rewrite Hm, Hid.
  - reflexivity.
Qed.

Lemma extractVideoId_failure_witness :
  extractVideoId "kCc8FmEb1nY" = Some "kCc8FmEb1nY".
Proof.
  apply (proj1 (proj2 (extractVideoId_failure "kCc8FmEb1nY")));
    [|reflexivity].
  apply searchUrl_none_iff. reflexivity.
Defined.

Section DownloadResolverFacts.

Import Download.

Lemma resolved_identifier (input id : string) :
  extractVideoId input = Ok id ->
  isVideoIdentifier id = true
  /\ (id = input
      \/ exists pre lit rest,
           In lit (List.concat patterns) /\ input = pre ++ lit ++ id ++ rest).
Proof.
  unfold extractVideoId. fold (isVideoIdentifier input). intros H.
  destruct (isVideoIdentifier input) eqn:Hid;
    [injection H as <-; auto|].
  cbn [firstMatch patterns] in H.
  assert (Hfound : exists alts, In alts patterns
                                /\ searchId alts input = Some id).
  { destruct (searchId _ input) as [c|] eqn:H1 in H.
    - injection H as <-. eexists; split; [|exact H1]. now left.
    - destruct (searchId _ input) as [c|] eqn:H2 in H; [|discriminate].
      injection H as <-. eexists; split; [|exact H2]. right. now left. }
  destruct Hfound as (alts & Hin & Hs).
  apply searchId_sound in Hs as (Hok & pre & lit & rest & Hlit & Hs).
  split; [assumption|]. right. exists pre, lit, rest.
  split; [|assumption]. apply in_concat. eauto.
Qed.

Lemma rejected_input (input message : string) :
  extractVideoId input = Throw message ->
  message = "Invalid YouTube URL or video ID: " ++ input.
Proof.
  unfold extractVideoId. fold (isVideoIdentifier input).
  destruct (isVideoIdentifier input); [discriminate|].
  destruct (firstMatch patterns input); [discriminate|]. now intros [= <-].
Qed.

(** X2. Unlike the caption pipeline's resolver, the download script's
    resolver only ever returns an eleven-character identifier: the input
    itself, or eleven identifier characters that follow one of its three
    literal prefixes inside the input.  Otherwise it throws the error that
    quotes the input, as on ["https://youtu.be/abc"]. *)
Theorem download_extractVideoId_validates (input : string) :
  (forall id, extractVideoId input = Ok id ->
     isVideoIdentifier id = true
     /\ (id = input
         \/ exists pre lit rest,
              In lit (List.concat patterns)
              /\ input = pre ++ lit ++ id ++ rest))
  /\ (forall message, extractVideoId input = Throw message ->
        message = "Invalid YouTube URL or video ID: " ++ input)
  /\ extractVideoId "https://youtu.be/abc"
     = Throw "Invalid YouTube URL or video ID: https://youtu.be/abc".
Proof.
  split; [|split; [|reflexivity]].
  - intros id. apply resolved_identifier.
  - intros message. apply rejected_input.
Qed.

End DownloadResolverFacts.

Lemma download_extractVideoId_validates_witness :
  isVideoIdentifier "kCc8FmEb1nY" = true.
Proof.
  apply (proj1 (download_extractVideoId_validates
                  "https://youtu.be/kCc8FmEb1nY?t=1") "kCc8FmEb1nY").
  reflexivity.
Defined.

(** ** Caption Fetcher: what it returns and what it reports *)

Section FetcherOutcomeFacts.

Import Route.

Variable fetchTranscript : option string -> FetchOutcome.

Lemma attempt_failure (lang : option string) (st : FetchState) :
  usable (fetchTranscript lang) = false ->
  lastError (fst (attempt fetchTranscript lang st))
  = Some (failureOf (fetchTranscript lang)).
Proof.
  unfold attempt, usable, joinedText, failureOf.
  destruct (fetchTranscript lang) as [m|[| |[|item items]]];
    try reflexivity.
  destruct (itemTexts (item :: items)) as [texts|]; [|reflexivity].
  destruct (tooShort (joinTexts texts)); [reflexivity|discriminate].
Qed.

Lemma fetchLoop_last_error (langs : list (option string))
    (last : option string) :
  forall st, pending st ->
  Forall (fun l => usable (fetchTranscript l) = false) (langs ++ [last]) ->
  lastError (fetchLoop fetchTranscript (langs ++ [last]) st)
  = Some (failureOf (fetchTranscript last)).
Proof.
  induction langs as [|lang langs IH]; intros st Hst Hall;
    inversion Hall as [|? ? Hl Hrest]; subst.
  - simpl. pose proof (attempt_failure last st Hl) as Hf.
    destruct (attempt_unusable fetchTranscript last st Hl Hst) as [Hstop _].
    destruct (attempt fetchTranscript last st) as [st' stop].
    simpl in *. now subst stop.
  - simpl.
    destruct (attempt_unusable fetchTranscript lang st Hl Hst)
      as [Hstop Hpend].
    destruct (attempt fetchTranscript lang st) as [st' stop].
    simpl in *. subst stop. now apply IH.
Qed.

(** Some candidate is usable, with none before it, or none is. *)
Lemma first_usable (langs : list (option string)) :
  Forall (fun l => usable (fetchTranscript l) = false) langs
  \/ exists pre lang post,
       langs = (pre ++ lang :: post)%list
       /\ Forall (fun l => usable (fetchTranscript l) = false) pre
       /\ usable (fetchTranscript lang) = true.
Proof.
  induction langs as [|l langs [IH|(pre & lang & post & -> & Hpre & Hl)]].
  - left. constructor.
  - destruct (usable (fetchTranscript l)) eqn:Hu.
    + right. exists [], l, langs. auto.
    + left. now constructor.
  - destruct (usable (fetchTranscript l)) eqn:Hu.
    + right. exists [], l, (pre ++ lang :: post)%list. auto.
    + right. exists (l :: pre), lang, post. auto.
Qed.

End FetcherOutcomeFacts.

(** X3. When no candidate is usable the fetcher throws, and the message
    names the failure of the last candidate only (the call without a
    language): its rejection message, or that the transcript was empty, or
    that it was too short. *)
Theorem fetchCaptions_reports_last_failure
    (fetchTranscript : option string -> Route.FetchOutcome) :
  Forall (fun l => usable (fetchTranscript l) = false) Route.languageCodes ->
  let outcome := snd (Route.fetchCaptions fetchTranscript) in
  (forall message, fetchTranscript None = Route.Rejects message ->
     message <> "" -> outcome = Throw (noCaptionsPrefix ++ message))
  /\ (forall raw, fetchTranscript None = Route.Resolves raw ->
        (raw = Undefined \/ raw = Null \/ raw = Def []) ->
        outcome = Throw (noCaptionsPrefix ++ "Transcript is empty"))
  /\ (forall joined, joinedText (fetchTranscript None) = Some joined ->
        outcome = Throw (noCaptionsPrefix ++ "Transcript is too short")).
Proof.
  intros Hall outcome.
  assert (Hout : outcome
                 = Throw (noCaptionsPrefix
                            ++ (if failureOf (fetchTranscript None) =? ""
                                then "Unknown error"
                                else failureOf (fetchTranscript None)))).
  { destruct (fetchLoop_none_usable fetchTranscript Route.languageCodes
                Route.initialState eq_refl Hall) as [Hp _].
    pose proof (fetchLoop_last_error fetchTranscript
                  [Some "en"; Some "en-US"; Some "en-GB"] None
                  Route.initialState eq_refl Hall) as Hlast.
    unfold outcome, Route.fetchCaptions. cbn [snd].
    unfold pending in Hp. rewrite Hp.
    unfold Route.lastErrorMessage.
    change ([Some "en"; Some "en-US"; Some "en-GB"] ++ [None])%list
      with Route.languageCodes in Hlast.
    now rewrite Hlast. }
  rewrite Hout. repeat split.
  - intros message Hrej Hne. rewrite Hrej. simpl.
    apply String.eqb_neq in Hne. now rewrite Hne.
  - intros raw Hres [->|[->| ->]]; now rewrite Hres.
  - intros joined Hj. unfold joinedText in Hj. unfold failureOf.
    destruct (fetchTranscript None) as [m|[| |[|item items]]];
      try discriminate.
    now destruct (Route.itemTexts (item :: items)).
Qed.

Lemma fetchCaptions_reports_last_failure_witness :
  snd (Route.fetchCaptions (serviceWith "en" "too short"))
  = Throw (noCaptionsPrefix ++ "Transcript is disabled on this video").
Proof.
  apply (fetchCaptions_reports_last_failure (serviceWith "en" "too short")).
  - repeat constructor.
  - reflexivity.
  - discriminate.
Defined.

(** X4. Whatever the caption service does, a transcript the fetcher returns
    has at least fifty characters once trimmed, and it is the joined text of
    the first usable candidate, after which no further candidate was
    tried. *)
Theorem fetchCaptions_returns_first_usable
    (fetchTranscript : option string -> Route.FetchOutcome)
    (transcript : string) :
  snd (Route.fetchCaptions fetchTranscript) = Ok transcript ->
  (50 <= String.length (trim transcript))%nat
  /\ exists pre lang post,
       Route.languageCodes = (pre ++ lang :: post)%list
       /\ Forall (fun l => usable (fetchTranscript l) = false) pre
       /\ joinedText (fetchTranscript lang) = Some transcript
       /\ Route.attempted (fst (Route.fetchCaptions fetchTranscript))
          = (pre ++ [lang])%list.
Proof.
  intros Hok.
  destruct (first_usable fetchTranscript Route.languageCodes)
    as [Hnone|(pre & lang & post & Hcodes & Hpre & Hlang)].
  - destruct (fetchLoop_none_usable fetchTranscript Route.languageCodes
                Route.initialState eq_refl Hnone) as [Hp _].
    unfold Route.fetchCaptions in Hok. cbn [snd] in Hok.
    unfold pending in Hp. now rewrite Hp in Hok.
  - destruct (fetchLoop_first_usable fetchTranscript pre post lang
                Route.initialState eq_refl Hpre Hlang)
      as (joined & Hj & Hs & Ht & Hatt).
    unfold Route.fetchCaptions in *. cbn [fst snd] in *.
    rewrite Hcodes in *. rewrite Ht, Hs in Hok. injection Hok as <-.
    split; [now apply tooShort_false|].
    exists pre, lang, post. rewrite Hatt. auto.
Qed.

Lemma fetchCaptions_returns_first_usable_witness :
  (50 <= String.length (trim sixtyCharacters))%nat
  /\ exists pre lang post,
       Route.languageCodes = (pre ++ lang :: post)%list
       /\ Forall (fun l => usable (serviceWith "en-GB" sixtyCharacters l)
                           = false) pre
       /\ joinedText (serviceWith "en-GB" sixtyCharacters lang)
          = Some sixtyCharacters
       /\ Route.attempted
            (fst (Route.fetchCaptions (serviceWith "en-GB" sixtyCharacters)))
          = (pre ++ [lang])%list.
Proof.
  apply (fetchCaptions_returns_first_usable
           (serviceWith "en-GB" sixtyCharacters) sixtyCharacters).
  reflexivity.
Defined.

(** ** Segment Normalizer: every outcome *)

Lemma Forall_or_first {A : Type} (f : A -> bool) (l : list A) :
  Forall (fun a => f a = true) l
  \/ exists pre a post,
       l = (pre ++ a :: post)%list
       /\ Forall (fun a => f a = true) pre /\ f a = false.
Proof.
  induction l as [|x l [IH|(pre & a & post & -> & Hpre & Ha)]].
  - left. constructor.
  - destruct (f x) eqn:Hx.
    + left. now constructor.
    + right. exists [], x, l. auto.
  - destruct (f x) eqn:Hx.
    + right. exists (x :: pre), a, post. auto.
    + right. exists [], x, (pre ++ a :: post)%list. auto.
Qed.

(** X5. Step 2 of the script has exactly three outcomes: the empty-transcript
    error on an empty list; the invalid-segment error carrying the index of
    the first element without offset or duration; or success, with as many
    segments as there were elements and one timestamped line per segment.
    The error "Failed to process transcript segments" is never thrown. *)
Theorem processSegments_outcomes
    (stringify : js Caption.CaptionSegment -> string)
    (items : list (js Caption.CaptionSegment)) :
  ((items = []
    /\ Script.processSegments stringify items
       = Throw
           "Transcript is empty. The video may not have captions available.")
   \/ (exists pre item post,
         items = (pre ++ item :: post)%list
         /\ Forall (fun i => hasTiming i = true) pre
         /\ hasTiming item = false
         /\ Script.processSegments stringify items
            = Throw (Script.invalidSegment stringify (List.length pre) item))
   \/ (exists p,
         Script.processSegments stringify items = Ok p
         /\ List.length (Script.transcriptSegments p) = List.length items
         /\ Script.fullTranscriptText p
            = join (String "010" "")
                (map Script.timestampLine (Script.transcriptSegments p))))
  /\ Script.processSegments stringify items
     <> Throw "Failed to process transcript segments".
Proof.
  assert (Hcases :
    (items = []
     /\ Script.processSegments stringify items
        = Throw
            "Transcript is empty. The video may not have captions available.")
    \/ (exists pre item post,
          items = (pre ++ item :: post)%list
          /\ Forall (fun i => hasTiming i = true) pre
          /\ hasTiming item = false
          /\ Script.processSegments stringify items
             = Throw (Script.invalidSegment stringify (List.length pre) item))
    \/ (exists p,
          Script.processSegments stringify items = Ok p
          /\ List.length (Script.transcriptSegments p) = List.length items
          /\ Script.fullTranscriptText p
             = join (String "010" "")
                 (map Script.timestampLine (Script.transcriptSegments p)))).
  { destruct items as [|item0 items0] eqn:Hitems; [left; auto|right].
    rewrite <- Hitems.
    assert (Hne : items <> []) by (rewrite Hitems; discriminate).
    destruct (Forall_or_first hasTiming items)
      as [Hall|(pre & item & post & Hsplit & Hpre & Hitem)].
    - right.
      destruct (processSegments_timed stringify items Hne Hall)
        as (p & front & lastSegment & Hp & Hsegs & _).
      exists p. split; [assumption|]. split.
      + symmetry. eapply Forall2_length, Hsegs.
      + unfold Script.processSegments in Hp. rewrite Hitems in Hp.
        rewrite <- Hitems in Hp.
        destruct (Script.mapSegments stringify 0 items) as [segs|];
          [|discriminate].
        simpl in Hp. destruct (rev segs); [discriminate|].
        now injection Hp as <-.
    - left. exists pre, item, post. repeat split; try assumption.
      rewrite Hsplit. unfold Script.processSegments.
      rewrite (mapSegments_untimed stringify pre post item 0 Hpre Hitem).
      destruct (pre ++ item :: post)%list eqn:Hl; [now destruct pre|].
      reflexivity. }
  split; [exact Hcases|].
  destruct Hcases
    as [[_ ->]|[(pre & item & post & _ & _ & _ & ->)|(p & -> & _)]];
    discriminate.
Qed.

(** ** Document Formatter: the completion that is extracted *)

(** X6. The text extracted from a response body is never empty; it is the
    text of the first part of the first candidate whose text is not
    [undefined], and the body carries no [error].  Later candidates are never
    consulted, and a first part with an empty text hides a later part that
    has one. *)
Theorem extractText_first_candidate
    (stringify : Route.ErrorBody -> string) (data : Route.GeminiData) :
  (forall completion,
     Route.extractText stringify data = Ok completion ->
     completion <> ""
     /\ isNullish (Route.error data) = true
     /\ exists c others ct ps part,
          Route.candidates data = Def (Def c :: others)
          /\ Route.content c = Def ct
          /\ Route.parts ct = Def ps
          /\ find (fun p => negb (isUndefined (Route.text p))) ps = Some part
          /\ Route.text part = Def completion)
  /\ (forall first others,
        Route.candidates data = Def (first :: others) ->
        Route.extractText stringify data
        = Route.extractText stringify
            {| Route.error := Route.error data;
               Route.candidates := Def [first] |})
  /\ Route.extractText stringify (answerWith [Def ""; Def "# Title"])
     = Throw "No text response from Gemini"
  /\ Route.extractText stringify (answerWith [Undefined; Def "# Title"])
     = Ok "# Title".
Proof.
  split; [|split; [|split; reflexivity]].
  - intros completion. unfold Route.extractText, Route.findTextPart.
    destruct (Route.error data) as [| |e]; try discriminate.
    all: destruct (Route.candidates data) as [| |[|[| |c] others]];
      try discriminate.
    all: destruct (Route.content c) as [| |ct] eqn:Hct; try discriminate.
    all: destruct (Route.parts ct) as [| |ps] eqn:Hps; try discriminate.
    all: destruct (find _ ps) as [part|] eqn:Hfind; try discriminate.
    all: destruct (Route.text part) as [| |t] eqn:Ht; try discriminate.
    all: destruct (String.eqb_spec t ""); try discriminate.
    all: intros [= <-]; repeat split; try assumption.
    all: exists c, others, ct, ps, part; auto.
  - intros first others Hc. unfold Route.extractText. cbn [Route.error
      Route.candidates]. now rewrite Hc.
Qed.

Lemma extractText_first_candidate_witness :
  "# Title" <> ""
  /\ isNullish (Route.error (answerWith [Undefined; Def "# Title"])) = true
  /\ exists c others ct ps part,
       Route.candidates (answerWith [Undefined; Def "# Title"])
       = Def (Def c :: others)
       /\ Route.content c = Def ct
       /\ Route.parts ct = Def ps
       /\ find (fun p => negb (isUndefined (Route.text p))) ps = Some part
       /\ Route.text part = Def "# Title".
Proof.
  apply (proj1 (extractText_first_candidate (fun _ => "")
                  (answerWith [Undefined; Def "# Title"])) "# Title").
  reflexivity.
Defined.

(** ** Batch Transcription Client: the result that is returned *)

Section ResultFacts.

Import Speech.

Variable StringToNumber : string -> number.

Lemma trimEnd_space (s : string) : trimEnd (s ++ " ") = trimEnd s.
Proof.
  induction s as [|c s IH]; [reflexivity|].
  simpl. now rewrite IH.
Qed.

Lemma trimStart_space (s : string) :
  trimStart (s ++ " ") = trimStart s ++ " "
  \/ (trimStart (s ++ " ") = "" /\ trimStart s = "").
Proof.
  induction s as [|c s IH]; [now right|].
  simpl. destruct (isWhiteSpace c); [assumption|now left].
Qed.

Lemma trim_space (s : string) : trim (s ++ " ") = trim s.
Proof.
  unfold trim. destruct (trimStart_space s) as [->|[-> ->]];
    [apply trimEnd_space|reflexivity].
Qed.

Lemma spaced_snoc (texts : list string) (t : string) :
  spaced (texts ++ [t])%list = spaced texts ++ t ++ " ".
Proof.
  induction texts as [|x texts IH]; simpl.
  - reflexivity.
  - now rewrite IH, !append_assoc.
Qed.

Lemma spaced_join (texts : list string) :
  texts <> [] -> spaced texts = join " " texts ++ " ".
Proof.
  induction texts as [|x [|y texts] IH]; intros Hne.
  - now destruct Hne.
  - reflexivity.
  - change (spaced (x :: y :: texts)) with (x ++ " " ++ spaced (y :: texts)).
    rewrite IH by discriminate.
    change (join " " (x :: y :: texts))
      with (x ++ " " ++ join " " (y :: texts)).
    now rewrite !append_assoc.
Qed.

Lemma trim_spaced (texts : list string) :
  trim (spaced texts) = trim (join " " texts).
Proof.
  destruct texts as [|x texts]; [reflexivity|].
  rewrite spaced_join by discriminate. apply trim_space.
Qed.

(** The loop keeps [fullTranscript] equal to the texts of the segments, each
    followed by a space. *)
Lemma fold_transcript (results : list RecognitionResult) (st : LoopState) :
  fullTranscript st = spaced (map text (segments st)) ->
  fullTranscript (fold_left (step StringToNumber) results st)
  = spaced (map text
              (segments (fold_left (step StringToNumber) results st))).
Proof.
  revert st. induction results as [|r results IH]; intros st Hst;
    [assumption|].
  simpl. apply IH. unfold step.
  destruct (firstAlternative r) as [alt|]; [|assumption].
  cbn [fullTranscript segments].
  rewrite map_app. cbn [map text]. now rewrite spaced_snoc, Hst.
Qed.

Lemma lastEnd_rev (prev : number) (segs : list SegmentInfo) :
  lastEnd prev segs
  = match rev segs with
    | lastSegment :: _ => end_ lastSegment
    | [] => prev
    end.
Proof.
  destruct segs as [|s segs] using rev_ind; [reflexivity|].
  now rewrite lastEnd_snoc, rev_app_distr.
Qed.

(** X7. The result of the transcription has one segment per recognition
    result that carries an alternative, its total duration is the end of the
    last segment (0 without segments), and its full transcript is the texts
    of the segments joined by single spaces, trimmed. *)
Theorem buildResult_summary (results : list RecognitionResult) :
  let r := buildResult StringToNumber results in
  List.length (result_segments r)
  = List.length (filter hasAlternative results)
  /\ total_duration r = lastEnd (ofZ 0) (result_segments r)
  /\ full_transcript r = trim (join " " (map text (result_segments r))).
Proof.
  unfold buildResult. cbn [result_segments total_duration full_transcript].
  repeat split.
  - rewrite <- (length_map end_). unfold processResults.
    rewrite (fold_ends StringToNumber results). simpl.
    now rewrite length_map.
  - now rewrite lastEnd_rev.
  - unfold processResults. rewrite fold_transcript by reflexivity.
    apply trim_spaced.
Qed.

End ResultFacts.

(** ** The HTTP route as a whole *)

Lemma degenerate_false_length (markdown : string) :
  degenerate markdown = false -> (100 <= String.length markdown)%nat.
Proof.
  unfold degenerate. intros H. apply orb_false_iff in H as [_ H].
  now apply Nat.ltb_ge in H.
Qed.

Lemma withFileSystem_throw {E A : Type} (perform : Fs.FsOp -> result unit)
    (inject : Fs.FsOp -> E) (m : Fs.Eff A) (message : string)
    (log : list E) :
  m [] = (Throw message, []) ->
  withFileSystem perform inject m log = (Throw message, log).
Proof.
  unfold withFileSystem. intros ->. cbn. now rewrite List.app_nil_r.
Qed.

(** A computation that creates a directory and writes a file: the refusal
    of either operation is the error, and the file is not attempted after a
    refused directory. *)
Lemma withFileSystem_two {E A : Type} (perform : Fs.FsOp -> result unit)
    (inject : Fs.FsOp -> E) (m : Fs.Eff A) (a : A) (op1 op2 : Fs.FsOp)
    (log : list E) :
  m [] = (Ok a, [op1; op2]) ->
  withFileSystem perform inject m log
  = match perform op1 with
    | Throw message => (Throw message, (log ++ [inject op1])%list)
    | Ok _ =>
        match perform op2 with
        | Throw message =>
            (Throw message, (log ++ [inject op1; inject op2])%list)
        | Ok _ => (Ok a, (log ++ [inject op1; inject op2])%list)
        end
    end.
Proof.
  unfold withFileSystem. intros ->. cbn [attemptOps].
  destruct (perform op1) as [[]|m1]; [|reflexivity].
  destruct (perform op2) as [[]|m2]; reflexivity.
Qed.

Section HandlerFacts.

Import Handler.

Variable fetchTranscript : string -> option string -> Route.FetchOutcome.
Variable callGemini : GeminiRequest -> result HttpReply.
Variable path_join : list string -> string.
Variable cwd : string.
Variable stringify : Route.ErrorBody -> string.
Variable perform : Fs.FsOp -> result unit.

(** The formatter on an empty log: nothing written and an error, or the
    directory and the file and a success. *)
Lemma formatAndSave_run (videoId : string) (data : Route.GeminiData) :
  (exists message,
     Route.formatAndSave path_join cwd stringify videoId data []
     = (Throw message, []))
  \/ (exists completion success,
        Route.extractText stringify data = Ok completion
        /\ (100 <= String.length (trim completion))%nat
        /\ Route.outputPath success = "youtube/" ++ videoId ++ "/transcript.md"
        /\ Route.formatAndSave path_join cwd stringify videoId data []
           = (Ok success,
              [Fs.Mkdir (path_join [cwd; "youtube"; videoId]);
               Fs.WriteFile
                 (path_join [path_join [cwd; "youtube"; videoId];
                             "transcript.md"])
                 (trim completion)])).
Proof.
  unfold Route.formatAndSave, Fs.bind, Fs.lift.
  destruct (Route.extractText stringify data) as [completion|m];
    [|left; eauto].
  unfold Route.saveMarkdown.
  destruct (degenerate (trim completion)) eqn:Hd; [left; eexists; reflexivity|].
  right. apply degenerate_false_length in Hd.
  eexists completion, _. split; [reflexivity|]. split; [assumption|].
  split; [|reflexivity]. reflexivity.
Qed.

(** Closes the case of a request that is refused or fails before the
    formatter: the status is 400 or 500 and [quiet] shows that the events
    hold no file-system operation. *)
Ltac refused quiet :=
  split; [auto|];
  split; [intros; (reflexivity || discriminate)|];
  split; [intros _ ?op ?Hin _; exfalso; revert Hin; quiet
         |intros; discriminate].

Lemma no_files_before_save (videoId : string) (langs : list (option string))
    (calls : list GeminiRequest) (op : Fs.FsOp) :
  ~ In (FileSystem op)
      (map (CaptionFetch videoId) langs ++ map GeminiCall calls)%list.
Proof.
  intros H. apply in_app_or in H as [H|H];
    apply in_map_iff in H as (x & Hx & _); discriminate.
Qed.

(** X8. A request ends with status 200, 400 or 500.  A 400 is answered
    before any caption request.  Unless the status is 200, the only
    file-system operation that can have succeeded is the creation of the
    directory: no file has been written.  A 200 means: the URL resolved, the
    key was set, the language loop returned a transcript, the one call of
    the generative-text service answered with a completion of at least 100
    trimmed characters, the file system accepted both operations, and the
    events were the caption requests, that call, the creation of the
    directory and the write of the trimmed completion, in this order. *)
Theorem POST_writes_only_on_success
    (requestJson : result (js string)) (apiKey : js string) :
  let response :=
    fst (POST fetchTranscript callGemini path_join cwd stringify perform
           requestJson apiKey) in
  let events :=
    snd (POST fetchTranscript callGemini path_join cwd stringify perform
           requestJson apiKey) in
  (code response = 200 \/ code response = 400 \/ code response = 500)%Z
  /\ (code response = 400%Z -> events = [])
  /\ (code response <> 200%Z ->
      forall op, In (FileSystem op) events -> perform op = Ok tt ->
                 exists dir, op = Fs.Mkdir dir)
  /\ (code response = 200%Z ->
      exists url videoId key transcriptText reply data completion success,
        requestJson = Ok (Def url)
        /\ extractVideoId url = Some videoId
        /\ apiKey = Def key
        /\ snd (Route.fetchCaptions (fetchTranscript videoId))
           = Ok transcriptText
        /\ callGemini (geminiRequest key url videoId transcriptText)
           = Ok reply
        /\ ok reply = true
        /\ json reply = Ok data
        /\ Route.extractText stringify data = Ok completion
        /\ (100 <= String.length (trim completion))%nat
        /\ body response = SuccessJson success
        /\ Route.outputPath success
           = "youtube/" ++ videoId ++ "/transcript.md"
        /\ perform (Fs.Mkdir (path_join [cwd; "youtube"; videoId])) = Ok tt
        /\ perform
             (Fs.WriteFile
                (path_join [path_join [cwd; "youtube"; videoId];
                            "transcript.md"])
                (trim completion)) = Ok tt
        /\ events
           = (map (CaptionFetch videoId)
                (Route.attempted
                   (fst (Route.fetchCaptions (fetchTranscript videoId))))
              ++ [GeminiCall (geminiRequest key url videoId transcriptText);
                  FileSystem (Fs.Mkdir (path_join [cwd; "youtube"; videoId]));
                  FileSystem
                    (Fs.WriteFile
                       (path_join [path_join [cwd; "youtube"; videoId];
                                   "transcript.md"])
                       (trim completion))])%list).
Proof.
  intros response events. subst response events.
  unfold POST, Effect.run, handle, Effect.bind, Effect.lift, Effect.ret,
    Effect.throw, Effect.emit, fetchStep, saveStep, respond.
  (* the three gates *)
  destruct requestJson as [[| |[|c u]]|[|m0 m]]; cbn [fst snd code body];
    try (refused ltac:(intros [])).
  destruct (extractVideoId (String c u)) as [[|i d]|] eqn:Hid;
    cbn [fst snd code body]; try (refused ltac:(intros [])).
  destruct apiKey as [| |[|k ey]]; cbn [fst snd code body];
    try (refused ltac:(intros [])).
  (* the language loop *)
  destruct (Route.fetchCaptions (fetchTranscript (String i d)))
    as [st outcome] eqn:Hfetch.
  assert (Hno : forall calls op,
            ~ In (FileSystem op)
                (map (CaptionFetch (String i d)) (Route.attempted st)
                   ++ map GeminiCall calls)%list)
    by (intros; apply no_files_before_save).
  destruct outcome as [transcriptText|[|m0 m]]; cbn [fst snd code body app];
    try (refused ltac:(rewrite <- (List.app_nil_r (map _ _));
                       apply (Hno []))).
  (* the call of the service *)
  set (request := geminiRequest (String k ey) (String c u) (String i d)
                    transcriptText).
  destruct (callGemini request) as [reply|[|m0 m]] eqn:Hcall;
    cbn [fst snd code body]; try (refused ltac:(apply (Hno [request]))).
  destruct (ok reply) eqn:Hok; cbn [fst snd code body].
  2: { destruct (geminiFailure stringify reply) as [|m0 m];
         cbn [fst snd code body]; refused ltac:(apply (Hno [request])). }
  destruct (json reply) as [data|[|m0 m]] eqn:Hjson; cbn [fst snd code body];
    try (refused ltac:(apply (Hno [request]))).
  (* the formatter *)
  destruct (formatAndSave_run (String i d) data)
    as [[message Hrun]|(completion & success & Hext & Hlen & Hpath & Hrun)].
  - rewrite (withFileSystem_throw _ _ _ _ _ Hrun).
    destruct message as [|m0 m]; cbn [fst snd code body];
      refused ltac:(apply (Hno [request])).
  - rewrite (withFileSystem_two _ _ _ _ _ _ _ Hrun).
    set (mkdir := Fs.Mkdir _). set (write := Fs.WriteFile _ _).
    assert (Hin : forall op tail,
               In (FileSystem op)
                 ((map (CaptionFetch (String i d)) (Route.attempted st)
                     ++ [GeminiCall request]) ++ tail)%list ->
               In (FileSystem op) tail).
    { intros op tail H. apply in_app_or in H as [H|H]; [|assumption].
      now apply (Hno [request]) in H. }
    destruct (perform mkdir) as [[]|m1] eqn:Hmk.
    2:{ assert (Hcase : forall op,
                   In (FileSystem op)
                     ((map (CaptionFetch (String i d)) (Route.attempted st)
                         ++ [GeminiCall request]) ++ [FileSystem mkdir])%list
                   -> perform op = Ok tt -> exists dir, op = Fs.Mkdir dir).
        { intros op H Hop. apply Hin in H as [[= <-]|[]]. congruence. }
        destruct m1 as [|m0 m]; cbn [fst snd code body];
          (split; [auto|]); (split; [intros; discriminate|]);
          (split; [intros _; exact Hcase|intros; discriminate]). }
    destruct (perform write) as [[]|m2] eqn:Hwr.
    2:{ assert (Hcase : forall op,
                   In (FileSystem op)
                     ((map (CaptionFetch (String i d)) (Route.attempted st)
                         ++ [GeminiCall request])
                        ++ [FileSystem mkdir; FileSystem write])%list
                   -> perform op = Ok tt -> exists dir, op = Fs.Mkdir dir).
        { intros op H Hop. apply Hin in H as [[= <-]|[[= <-]|[]]].
          - now eexists.
          - congruence. }
        destruct m2 as [|m0 m]; cbn [fst snd code body];
          (split; [auto|]); (split; [intros; discriminate|]);
          (split; [intros _; exact Hcase|intros; discriminate]). }
    cbn [fst snd code body].
    split; [auto|]. split; [intros; discriminate|].
    split; [intros H; now destruct H|]. intros _.
    exists (String c u), (String i d), (String k ey), transcriptText, reply,
      data, completion, success.
    rewrite Hfetch. cbn [fst snd]. fold request.
    repeat split; try assumption; try reflexivity.
    now rewrite <- List.app_assoc.
Qed.

End HandlerFacts.

Lemma POST_writes_only_on_success_witness :
  exists success,
    Handler.body
      (fst (Handler.POST (fun _ => serviceWith "en-US" sixtyCharacters)
              (fun _ => Ok completionReply) slashJoin "/repo"
              (fun _ => "{}") succeeds
              (Ok (Def "https://youtu.be/kCc8FmEb1nY")) (Def "key")))
    = Handler.SuccessJson success
    /\ Route.outputPath success = "youtube/kCc8FmEb1nY/transcript.md".
Proof.
  destruct (proj2 (proj2 (proj2
              (POST_writes_only_on_success
                 (fun _ => serviceWith "en-US" sixtyCharacters)
                 (fun _ => Ok completionReply) slashJoin "/repo"
                 (fun _ => "{}") succeeds
                 (Ok (Def "https://youtu.be/kCc8FmEb1nY")) (Def "key"))))
              eq_refl)
    as (url & videoId & key & transcriptText & reply & data & completion
        & success & Hurl & Hid & _ & _ & _ & _ & _ & _ & _ & Hbody & Hpath
        & _).
  injection Hurl as <-. vm_compute in Hid. injection Hid as <-. exists success.
  split; assumption.
Defined.

(** ** The standalone script as a whole *)

Section ConverterFacts.

Import Converter.

Variable fetchTranscript : string -> Route.FetchOutcome.
Variable generateContent : GenerateRequest -> result (js string).
Variable path_join : list string -> string.
Variable path_dirname : string -> string.
Variable cwd : string.
Variable stringify : js Caption.CaptionSegment -> string.
Variable perform : Fs.FsOp -> result unit.

Lemma saveMarkdown_run (videoId : string)
    (responseText outputPath : js string) :
  (exists message,
     Script.saveMarkdown path_join path_dirname cwd videoId responseText
       outputPath [] = (Throw message, []))
  \/ (exists completion,
        responseText = Def completion
        /\ (100 <= String.length (trim completion))%nat
        /\ Script.saveMarkdown path_join path_dirname cwd videoId
             responseText outputPath []
           = (Ok tt,
              [Fs.Mkdir
                 (path_dirname
                    (finalOutputPath path_join cwd videoId outputPath));
               Fs.WriteFile (finalOutputPath path_join cwd videoId outputPath)
                 (trim completion)])).
Proof.
  unfold Script.saveMarkdown.
  destruct responseText as [| |[|c r]]; try (left; eexists; reflexivity).
  destruct (degenerate (trim (String c r))) eqn:Hd;
    [left; eexists; reflexivity|].
  right. apply degenerate_false_length in Hd.
  exists (String c r). split; [reflexivity|]. split; [assumption|].
  reflexivity.
Qed.

Ltac exits_with_error :=
  split; [auto|];
  split; [intros _ ?op ?Hin _; exfalso; revert Hin; cbn;
          intuition discriminate|];
  split; [intros; reflexivity || discriminate|intros; discriminate].

(** X9. The script exits with code 0 or 1.  With code 1 the only
    file-system operation that can have succeeded is the creation of the
    directory: no file has been written; and without an API key the script
    does not even request the captions.  Code 0 means: the URL resolved, the
    caption service returned a non-empty transcript that step 2 accepted,
    the one call of the generative-text service returned a text of at least
    100 trimmed characters, the file system accepted both operations, and
    the events were the caption request, that call, the creation of the
    directory of the output file and the write of the trimmed text to the
    output file (the second argument, or the default path), in this
    order. *)
Theorem script_writes_only_on_success (args : list string) (key : js string) :
  let exitCode :=
    fst (main fetchTranscript generateContent path_join path_dirname cwd
           stringify perform args key) in
  let events :=
    snd (main fetchTranscript generateContent path_join path_dirname cwd
           stringify perform args key) in
  (exitCode = 0 \/ exitCode = 1)%Z
  /\ (exitCode = 1%Z ->
      forall op, In (FileSystem op) events -> perform op = Ok tt ->
                 exists dir, op = Fs.Mkdir dir)
  /\ (absent key = true -> events = [])
  /\ (exitCode = 0%Z ->
      exists url rest videoId raw processed request completion,
        args = url :: rest
        /\ extractVideoId url = Some videoId
        /\ fetchTranscript videoId = Route.Resolves (Def raw)
        /\ raw <> []
        /\ Script.processSegments stringify raw = Ok processed
        /\ contents request
           = formattingPrompt url videoId (Script.totalDuration processed)
               (List.length (Script.transcriptSegments processed))
               (Script.fullTranscriptText processed)
        /\ generateContent request = Ok (Def completion)
        /\ (100 <= String.length (trim completion))%nat
        /\ (forall op, In (FileSystem op) events -> perform op = Ok tt)
        /\ events
           = [CaptionFetch videoId;
              GenerateContent request;
              FileSystem
                (Fs.Mkdir
                   (path_dirname
                      (finalOutputPath path_join cwd videoId
                         (hd_error_js rest))));
              FileSystem
                (Fs.WriteFile
                   (finalOutputPath path_join cwd videoId (hd_error_js rest))
                   (trim completion))]).
Proof.
  intros exitCode events. subst exitCode events.
  unfold main. destruct args as [|url rest]; [exits_with_error|].
  unfold Effect.run, transcriptToMarkdown.
  destruct (extractVideoId url) as [[|i d]|] eqn:Hid;
    try (cbn; exits_with_error).
  destruct key as [| |[|k ey]]; try (cbn; exits_with_error).
  unfold Effect.bind, downloadStep, Effect.catch, Effect.bind, Effect.emit,
    Effect.lift, Effect.throw, Effect.ret.
  destruct (fetchTranscript (String i d)) as [m|[| |[|item items]]] eqn:Hfetch;
    try (cbn; exits_with_error).
  cbn [app].
  destruct (Script.processSegments stringify (item :: items))
    as [processed|m] eqn:Hproc; [|cbn; exits_with_error].
  cbv zeta.
  set (request := {| apiKey := String k ey; model := _; contents := _;
                     temperature := _; maxOutputTokens := _ |}).
  destruct (generateContent request) as [responseText|m] eqn:Hgen;
    [|cbn; exits_with_error].
  unfold saveStep.
  destruct (saveMarkdown_run (String i d) responseText (hd_error_js rest))
    as [[message Hrun]|(completion & -> & Hlen & Hrun)];
    unfold hd_error_js in Hrun.
  - rewrite (withFileSystem_throw _ _ _ _ _ Hrun). cbn. exits_with_error.
  - rewrite (withFileSystem_two _ _ _ _ _ _ _ Hrun).
    fold (hd_error_js rest).
    set (mkdir := Fs.Mkdir _). set (write := Fs.WriteFile _ _).
    destruct (perform mkdir) as [[]|m1] eqn:Hmk.
    2:{ cbn [fst snd app]. split; [auto|]. split.
        - intros _ op [H|[H|[H|[]]]] Hop; try discriminate.
          injection H as <-. congruence.
        - split; intros; discriminate. }
    destruct (perform write) as [[]|m2] eqn:Hwr.
    2:{ cbn [fst snd app]. split; [auto|]. split.
        - intros _ op [H|[H|[H|[H|[]]]]] Hop; try discriminate.
          + injection H as <-. now eexists.
          + injection H as <-. congruence.
        - split; intros; discriminate. }
    cbn [fst snd map app].
    split; [auto|]. split; [intros; discriminate|].
    split; [intros; discriminate|]. intros _.
    exists url, rest, (String i d), (item :: items), processed, request,
      completion.
    repeat split; try assumption; try reflexivity; [discriminate|].
    intros op [H|[H|[H|[H|[]]]]]; try discriminate;
      injection H as <-; assumption.
Qed.

(** X10. The errors of the script before step 2: an unresolvable URL and a
    missing key are reported before any request; an error of the caption
    request, and the emptiness the script detects itself, are rethrown
    behind the download prefix and followed by the tip. *)
Theorem transcriptToMarkdown_early_errors
    (youtubeUrl : string) (outputPath key : js string) :
  let outcome :=
    Effect.run
      (transcriptToMarkdown fetchTranscript generateContent path_join
         path_dirname cwd stringify perform youtubeUrl outputPath key) in
  (extractVideoId youtubeUrl = None ->
     outcome = (Throw ("Invalid YouTube URL format: " ++ youtubeUrl), []))
  /\ (forall i d, extractVideoId youtubeUrl = Some (String i d) ->
        absent key = true ->
        outcome
        = (Throw "GOOGLE_API_KEY not found in environment variables", []))
  /\ (forall i d message,
        extractVideoId youtubeUrl = Some (String i d) ->
        absent key = false ->
        fetchTranscript (String i d) = Route.Rejects message ->
        outcome
        = (Throw ("Failed to download transcript: " ++ message ++ nl
                    ++ "   Tip: The video may not have captions enabled."),
           [CaptionFetch (String i d)]))
  /\ (forall i d raw,
        extractVideoId youtubeUrl = Some (String i d) ->
        absent key = false ->
        fetchTranscript (String i d) = Route.Resolves raw ->
        (raw = Undefined \/ raw = Null \/ raw = Def []) ->
        outcome
        = (Throw ("Failed to download transcript: Transcript is empty. "
                    ++ "The video may not have captions available." ++ nl
                    ++ "   Tip: The video may not have captions enabled."),
           [CaptionFetch (String i d)])).
Proof.
  intros outcome. subst outcome. unfold Effect.run, transcriptToMarkdown.
  split; [intros ->; reflexivity|].
  split; [intros i d -> Hkey; destruct key as [| |[|k ey]];
          (reflexivity || discriminate)|].
  split.
  - intros i d message -> Hkey Hfetch.
    destruct key as [| |[|k ey]]; try discriminate.
    unfold Effect.bind, downloadStep, Effect.catch, Effect.bind, Effect.emit,
      Effect.throw. now rewrite Hfetch.
  - intros i d raw -> Hkey Hfetch Hraw.
    destruct key as [| |[|k ey]]; try discriminate.
    unfold Effect.bind, downloadStep, Effect.catch, Effect.bind, Effect.emit,
      Effect.throw. rewrite Hfetch.
    destruct Hraw as [->|[->| ->]]; reflexivity.
Qed.

End ConverterFacts.

Lemma script_writes_only_on_success_witness :
  exists request,
    snd (Converter.main englishCaptions (fun _ => Ok (Def sampleCompletion))
           slashJoin (fun _ => "/repo/youtube/kCc8FmEb1nY") "/repo"
           (fun _ => "{}") succeeds
           ["https://youtu.be/kCc8FmEb1nY"] (Def "key"))
    = [Converter.CaptionFetch "kCc8FmEb1nY";
       Converter.GenerateContent request;
       Converter.FileSystem (Fs.Mkdir "/repo/youtube/kCc8FmEb1nY");
       Converter.FileSystem
         (Fs.WriteFile "/repo/youtube/kCc8FmEb1nY/transcript.md"
            sampleCompletion)].
Proof.
  destruct (proj2 (proj2 (proj2
              (script_writes_only_on_success
                 englishCaptions (fun _ => Ok (Def sampleCompletion))
                 slashJoin (fun _ => "/repo/youtube/kCc8FmEb1nY") "/repo"
                 (fun _ => "{}") succeeds
                 ["https://youtu.be/kCc8FmEb1nY"] (Def "key"))))
              eq_refl)
    as (url & rest & videoId & raw & processed & request & completion
        & Hargs & Hid & _ & _ & _ & _ & Hgen & _ & _ & Hevents).
  injection Hargs as <- <-. vm_compute in Hid. injection Hid as <-.
  injection Hgen as <-.
  exists request. exact Hevents.
Defined.

Lemma transcriptToMarkdown_early_errors_witness :
  Effect.run
    (Converter.transcriptToMarkdown
       (fun _ => Route.Rejects "Transcript is disabled on this video")
       (fun _ => Ok (Def sampleCompletion)) slashJoin (fun path => path)
       "/repo" (fun _ => "{}") succeeds "https://youtu.be/kCc8FmEb1nY"
       Undefined
       (Def "key"))
  = (Throw ("Failed to download transcript: "
              ++ "Transcript is disabled on this video" ++ nl
              ++ "   Tip: The video may not have captions enabled."),
     [Converter.CaptionFetch "kCc8FmEb1nY"]).
Proof.
  apply (proj1 (proj2 (proj2
           (transcriptToMarkdown_early_errors
              (fun _ => Route.Rejects "Transcript is disabled on this video")
              (fun _ => Ok (Def sampleCompletion)) slashJoin
              (fun path => path) "/repo" (fun _ => "{}") succeeds
              "https://youtu.be/kCc8FmEb1nY" Undefined (Def "key"))))
           "k"%char "Cc8FmEb1nY" "Transcript is disabled on this video");
    reflexivity.
Defined.

(** ** The transcription script: durations and file names *)

Section DurationFacts.

Local Open Scope Z_scope.

(** X11. On a non-negative (finite) number of seconds [formatDuration]
    prints the minutes and seconds of the whole seconds below one hour, and
    the hours, the minutes within the hour and the seconds from one hour on,
    each as a plain decimal numeral followed by its unit letter. *)
Theorem formatDuration_units (q : Q) :
  (0 <= q)%Q ->
  let n := Qfloor q in
  ((q < 3600)%Q ->
     Transcriber.formatDuration (Fin q)
     = decimal (n / 60) ++ "m " ++ decimal (n mod 60) ++ "s")
  /\ ((3600 <= q)%Q ->
      Transcriber.formatDuration (Fin q)
      = decimal (n / 3600) ++ "h " ++ decimal ((n / 60) mod 60) ++ "m "
          ++ decimal (n mod 60) ++ "s").
Proof.
  intros Hq n.
  pose proof (Qfloor_nonneg q Hq) as Hn. fold n in Hn.
  assert (Hunits :
    Transcriber.formatDuration (Fin q)
    = if 0 <? n / 3600 then
        decimal (n / 3600) ++ "h " ++ decimal ((n / 60) mod 60) ++ "m "
          ++ decimal (n mod 60) ++ "s"
      else decimal ((n / 60) mod 60) ++ "m " ++ decimal (n mod 60) ++ "s").
  { unfold Transcriber.formatDuration.
    rewrite floor_divBy. fold n.
    destruct (floor_remBy q 3600 Hq) as (r1 & -> & Hr1 & Hf1).
    destruct (floor_remBy q 60 Hq) as (r2 & -> & Hr2 & Hf2).
    rewrite floor_divBy, Hf1. fold n.
    change (Math_floor (Fin r2)) with (Int (Qfloor r2)). rewrite Hf2. fold n.
    rewrite minutes_of_hour by assumption. reflexivity. }
  rewrite Hunits. split; intros Hlt.
  - assert (Hb : n < 3600).
    { apply Z.lt_nge. intros Hge. apply (Qlt_not_le _ _ Hlt).
      apply Qle_trans with (inject_Z n); [|apply Qfloor_le].
      change 3600%Q with (inject_Z 3600). now rewrite <- Zle_Qle. }
    replace (n / 3600) with 0 by (symmetry; apply Z.div_small; lia).
    cbn [Z.ltb Z.compare].
    rewrite (Z.mod_small (n / 60)); [reflexivity|].
    split; [apply Z.div_pos; lia|apply Z.div_lt_upper_bound; lia].
  - assert (Hb : 3600 <= n).
    { change 3600 with (Qfloor (inject_Z 3600)). now apply Qfloor_resp_le. }
    assert (Hh : (0 <? n / 3600) = true).
    { apply Z.ltb_lt. apply Z.div_str_pos; lia. }
    now rewrite Hh.
Qed.

End DurationFacts.

Lemma formatDuration_units_witness :
  Transcriber.formatDuration (Fin (7451 # 2)) = "1h 2m 5s".
Proof.
  destruct (formatDuration_units (7451 # 2)) as [_ Hlong].
  - unfold Qle; simpl; lia.
  - apply Hlong. unfold Qle; simpl; lia.
Defined.

Lemma string_length_app (a b : string) :
  String.length (a ++ b) = (String.length a + String.length b)%nat.
Proof. induction a; simpl; congruence. Qed.

Lemma extension_length (ext : string) :
  In ext Transcriber.audioExtensions -> String.length ext = 4%nat.
Proof. intros [<-|[<-|[<-|[]]]]; reflexivity. Qed.

Lemma existsb_extension (s : string) :
  existsb (String.eqb s) Transcriber.audioExtensions = true
  <-> In s Transcriber.audioExtensions.
Proof.
  rewrite existsb_exists. split.
  - intros (ext & Hin & Heq). apply String.eqb_eq in Heq. now subst.
  - intros Hin. exists s. split; [assumption|apply String.eqb_refl].
Qed.

(** X12. The transcript file of an audio file whose name ends in [.mp3],
    [.wav] or [.m4a] is named after the audio file, the extension replaced
    by [-transcript.json].  For every other name (another extension, an
    upper-case one, none) the output name is the name of the audio file
    itself. *)
Theorem outputFileName_cases :
  (forall stem ext, In ext Transcriber.audioExtensions ->
     Transcriber.outputFileName (stem ++ ext) = stem ++ "-transcript.json")
  /\ (forall audioFile,
        (forall stem ext, In ext Transcriber.audioExtensions ->
           audioFile <> stem ++ ext) ->
        Transcriber.outputFileName audioFile = audioFile)
  /\ Transcriber.outputFileName "youtube/kCc8FmEb1nY/audio.mp3"
     = "youtube/kCc8FmEb1nY/audio-transcript.json"
  /\ Transcriber.outputFileName "talk.MP3" = "talk.MP3"
  /\ Transcriber.outputFileName "talk.ogg" = "talk.ogg".
Proof.
  split; [|split; [|repeat split]].
  - intros stem ext Hin. induction stem as [|c stem IH].
    + apply existsb_extension in Hin. simpl append.
      destruct ext; cbn [Transcriber.outputFileName]; now rewrite Hin.
    + change (String c stem ++ ext) with (String c (stem ++ ext)).
      cbn [Transcriber.outputFileName].
      destruct (existsb _ Transcriber.audioExtensions) eqn:He.
      * apply existsb_extension, extension_length in He.
        apply extension_length in Hin.
        simpl in He. rewrite string_length_app in He. lia.
      * now rewrite IH.
  - intros audioFile. induction audioFile as [|c rest IH]; intros Hnot.
    + reflexivity.
    + cbn [Transcriber.outputFileName].
      destruct (existsb _ Transcriber.audioExtensions) eqn:He.
      * apply existsb_extension in He. now destruct (Hnot "" _ He).
      * f_equal. apply IH. intros stem ext Hin ->.
        now apply (Hnot (String c stem) ext Hin).
Qed.

Lemma outputFileName_cases_witness :
  Transcriber.outputFileName ("lecture" ++ ".wav")
  = "lecture" ++ "-transcript.json".
Proof.
  apply (proj1 outputFileName_cases). right. now left.
Defined.

(** ** The transcription script: the batch operation *)

Section PollFacts.

Import Transcriber.

Variable stringifyOperation : Operation -> string.
Variable getOperation : nat -> result Operation.
Variable writeFile : string -> string -> result unit.
Variable operationUrl authorization : string.

(** One round in which the operation is still running. *)
Lemma pollLoop_round (budget start : nat) (log : list Event) :
  running getOperation (S start) ->
  pollLoop stringifyOperation getOperation writeFile (S budget) start
    operationUrl authorization log
  = pollLoop stringifyOperation getOperation writeFile budget (S start)
      operationUrl authorization
      (log ++ pollRound operationUrl authorization (S start))%list.
Proof.
  intros (operation & Hop & Hdone).
  cbn [pollLoop]. cbv zeta. unfold pollRound.
  remember (S start) as i eqn:Hi.
  unfold Effect.bind, Effect.emit, Effect.lift, Effect.ret.
  destruct (i mod 4 =? 0)%nat; rewrite Hop;
    destruct (done operation) as [| |[|]]; try congruence;
    now rewrite <- !List.app_assoc.
Qed.

Lemma pollLoop_running (rounds : nat) :
  forall budget start log,
  (forall i, (start < i <= start + rounds)%nat -> running getOperation i) ->
  pollLoop stringifyOperation getOperation writeFile (rounds + budget) start
    operationUrl authorization log
  = pollLoop stringifyOperation getOperation writeFile budget (start + rounds)
      operationUrl authorization
      (log ++ flat_map (pollRound operationUrl authorization)
                (seq (S start) rounds))%list.
Proof.
  induction rounds as [|rounds IH]; intros budget start log Hrun.
  - simpl. now rewrite Nat.add_0_r, List.app_nil_r.
  - change (S rounds + budget)%nat with (S (rounds + budget)).
    rewrite pollLoop_round by (apply Hrun; lia).
    rewrite IH by (intros i Hi; apply Hrun; lia).
    cbn [seq flat_map]. rewrite <- List.app_assoc.
    f_equal. lia.
Qed.

(** The round in which the operation is done. *)
Lemma pollLoop_done (budget start : nat) (log : list Event)
    (operation : Operation) :
  getOperation (S start) = Ok operation -> done operation = Def true ->
  pollLoop stringifyOperation getOperation writeFile (S budget) start
    operationUrl authorization log
  = (match writeFile "youtube/J8Eh7RqggsU/debug-operation.json"
             (stringifyOperation operation) with
     | Ok _ => Ok (Some (completed operation))
     | Throw message => Throw message
     end,
     (log ++ pollRound operationUrl authorization (S start)
        ++ [WriteDebug "youtube/J8Eh7RqggsU/debug-operation.json"
              (stringifyOperation operation)])%list).
Proof.
  intros Hop Hdone.
  cbn [pollLoop]. cbv zeta. unfold pollRound.
  remember (S start) as i eqn:Hi.
  unfold writeDebug, Effect.bind, Effect.emit, Effect.lift, Effect.ret.
  destruct (i mod 4 =? 0)%nat; rewrite Hop, Hdone;
    destruct (writeFile _ _); now rewrite <- !List.app_assoc.
Qed.

Lemma count_rounds (f : Event -> bool) (per : nat -> nat) (n : nat) :
  (forall i, List.length (filter f (pollRound operationUrl authorization i))
             = per i) ->
  forall start,
  List.length
    (filter f (flat_map (pollRound operationUrl authorization)
                 (seq start n)))
  = list_sum (map per (seq start n)).
Proof.
  intros Hper. induction n as [|n IH]; intros start; [reflexivity|].
  cbn [seq flat_map map list_sum].
  now rewrite filter_app, List.length_app, Hper, IH.
Qed.

Lemma sum_ones (l : list nat) :
  list_sum (map (fun _ => 1%nat) l) = List.length l.
Proof. induction l; simpl; congruence. Qed.

Lemma multiples_of_four (n : nat) :
  list_sum (map (fun i => if (i mod 4 =? 0)%nat then 1 else 0)%nat (seq 1 n))
  = (n / 4)%nat.
Proof.
  induction n as [|n IH]; [reflexivity|].
  rewrite seq_S, map_app, list_sum_app, IH. cbn [map list_sum Nat.add].
  pose proof (Nat.div_mod_eq n 4) as Hn.
  pose proof (Nat.mod_upper_bound n 4 ltac:(lia)) as Hr.
  pose proof (Nat.div_mod_eq (S n) 4) as Hn'.
  pose proof (Nat.mod_upper_bound (S n) 4 ltac:(lia)) as Hr'.
  unfold list_sum at 1. cbn [fold_right].
  destruct (Nat.eqb_spec (S n mod 4) 0); lia.
Qed.

(** X13. If the operation is still running in the first [k] replies and
    done in the next one, the loop ends after exactly [k + 1] rounds,
    whatever larger budget it is given: each round sleeps 5 seconds and then
    asks for the status once, a heartbeat is logged in every fourth round,
    and the debug dump is written last, to a fixed path.  The loop returns
    the payload if that write succeeds and fails with the error of the write
    otherwise.  The payload is the [response] of the operation when it has
    one, else its [result] when it has one, else an object without results.
    While every reply says running the loop does not return. *)
Theorem pollLoop_returns_when_done (k extra : nat) (operation : Operation) :
  (forall i, (0 < i <= k)%nat -> running getOperation i) ->
  getOperation (S k) = Ok operation ->
  done operation = Def true ->
  let outcome :=
    Effect.run
      (pollLoop stringifyOperation getOperation writeFile (S k + extra) 0
         operationUrl authorization) in
  fst outcome
  = match writeFile "youtube/J8Eh7RqggsU/debug-operation.json"
            (stringifyOperation operation) with
    | Ok _ => Ok (Some (completed operation))
    | Throw message => Throw message
    end
  /\ snd outcome
     = (flat_map (pollRound operationUrl authorization) (seq 1 (S k))
        ++ [WriteDebug "youtube/J8Eh7RqggsU/debug-operation.json"
              (stringifyOperation operation)])%list
  /\ List.length (filter isSleep (snd outcome)) = S k
  /\ List.length (filter isStatusRequest (snd outcome)) = S k
  /\ List.length (filter isHeartbeat (snd outcome)) = (S k / 4)%nat
  /\ (forall payload, response operation = Def payload ->
        completed operation = payload)
  /\ (forall payload,
        isNullish (response operation) = true ->
        result_ operation = Def payload ->
        completed operation = payload)
  /\ (isNullish (response operation) = true ->
      isNullish (result_ operation) = true ->
      completed operation = {| results := Undefined |})
  /\ fst (Effect.run
            (pollLoop stringifyOperation getOperation writeFile k 0
               operationUrl authorization)) = Ok None.
Proof.
  intros Hrun Hop Hdone outcome.
  assert (Hout : outcome
                 = (match writeFile "youtube/J8Eh7RqggsU/debug-operation.json"
                          (stringifyOperation operation) with
                    | Ok _ => Ok (Some (completed operation))
                    | Throw message => Throw message
                    end,
                    (flat_map (pollRound operationUrl authorization)
                       (seq 1 (S k))
                     ++ [WriteDebug "youtube/J8Eh7RqggsU/debug-operation.json"
                           (stringifyOperation operation)])%list)).
  { unfold outcome, Effect.run.
    replace (S k + extra)%nat with (k + S extra)%nat by lia.
    rewrite pollLoop_running by (intros i Hi; apply Hrun; lia).
    rewrite (pollLoop_done _ _ _ operation) by assumption.
    rewrite seq_S, flat_map_app. cbn [flat_map app Nat.add].
    now rewrite List.app_nil_r, <- List.app_assoc. }
  rewrite Hout. cbn [fst snd].
  split; [reflexivity|]. split; [reflexivity|].
  split; [|split; [|split; [|split; [|split; [|split]]]]].
  - rewrite filter_app, List.length_app.
    rewrite (count_rounds isSleep (fun _ => 1%nat)).
    + cbn [filter isSleep List.length]. rewrite Nat.add_0_r.
      now rewrite sum_ones, length_seq.
    + intros i. unfold pollRound. now destruct (i mod 4 =? 0)%nat.
  - rewrite filter_app, List.length_app.
    rewrite (count_rounds isStatusRequest (fun _ => 1%nat)).
    + cbn [filter isStatusRequest List.length]. rewrite Nat.add_0_r.
      now rewrite sum_ones, length_seq.
    + intros i. unfold pollRound. now destruct (i mod 4 =? 0)%nat.
  - rewrite filter_app, List.length_app.
    rewrite (count_rounds isHeartbeat
               (fun i => if (i mod 4 =? 0)%nat then 1%nat else 0%nat)).
    + cbn [filter isHeartbeat List.length]. rewrite Nat.add_0_r.
      apply multiples_of_four.
    + intros i. unfold pollRound. now destruct (i mod 4 =? 0)%nat.
  - intros payload Hp. unfold completed. now rewrite Hp.
  - intros payload Hnull Hp. unfold completed. rewrite Hp.
    now destruct (response operation).
  - intros Hnull1 Hnull2. unfold completed.
    destruct (response operation); try discriminate;
      now destruct (result_ operation).
  - unfold Effect.run.
    replace k with (k + 0)%nat at 1 by lia.
    now rewrite pollLoop_running by (intros i Hi; apply Hrun; lia).
Qed.

End PollFacts.

Lemma pollLoop_returns_when_done_witness :
  List.length
    (filter isHeartbeat
       (snd (Effect.run
               (Transcriber.pollLoop (fun _ => "{}")
                  (doneAt 4 {| Transcriber.results := Undefined |})
                  succeeds2 10 0 "https://speech.googleapis.com/v2/op"
                  "Bearer token"))))
  = 1%nat.
Proof.
  apply (pollLoop_returns_when_done (fun _ => "{}")
           (doneAt 4 {| Transcriber.results := Undefined |}) succeeds2
           "https://speech.googleapis.com/v2/op" "Bearer token" 3 6
           {| Transcriber.done := Def true;
              Transcriber.response :=
                Def {| Transcriber.results := Undefined |};
              Transcriber.result_ := Undefined |}).
  - intros i Hi. unfold running, doneAt. eexists. split; [reflexivity|].
    cbn [Transcriber.done]. destruct (Nat.eqb_spec i 4); [lia|discriminate].
  - reflexivity.
  - reflexivity.
Defined.

(** ** The transcription script: reading the batch response, uploading *)

Section ExtractionFacts.

Import Transcriber.

Variable stringifyPayload : Payload -> string.
Variable writeFile : string -> string -> result unit.

(** X14. Reading a batch response: the entry stored under the submitted
    URI wins when it has a direct transcript; otherwise only the first
    entry of the response is looked at, whatever its key, first for a direct
    transcript and then for an inline one, and later entries are never
    consulted, so that a transcript stored under another key in second
    place is not found.  When this fails the raw response is dumped to a
    fixed path and the parse error is thrown, or the error of the dump if
    the file system refuses it; nothing is written on success.  An
    operation that completed without [response] and [result] always ends
    here. *)
Theorem extractBatch_shapes (audioUri : string) (apiResponse : Payload) :
  let outcome :=
    Effect.run
      (extractBatch stringifyPayload writeFile audioUri apiResponse) in
  (forall rs,
     directResults (lookup audioUri (entries apiResponse)) = Some rs ->
     outcome = (Ok rs, []))
  /\ (directResults (lookup audioUri (entries apiResponse)) = None ->
      forall rs,
        directResults (firstValue (entries apiResponse)) = Some rs
        \/ (directResults (firstValue (entries apiResponse)) = None
            /\ inlineResults (firstValue (entries apiResponse)) = Some rs) ->
        outcome = (Ok rs, []))
  /\ (directResults (lookup audioUri (entries apiResponse)) = None ->
      directResults (firstValue (entries apiResponse)) = None ->
      inlineResults (firstValue (entries apiResponse)) = None ->
      outcome
      = (match writeFile "youtube/J8Eh7RqggsU/debug-api-response.json"
               (stringifyPayload apiResponse) with
         | Ok _ =>
             Throw ("Could not parse batch response. "
                      ++ "Saved to debug-api-response.json")
         | Throw message => Throw message
         end,
         [WriteDebug "youtube/J8Eh7RqggsU/debug-api-response.json"
            (stringifyPayload apiResponse)]))
  /\ (forall rs, fst outcome = Ok rs -> snd outcome = [])
  /\ (forall operation rs,
        isNullish (response operation) = true ->
        isNullish (result_ operation) = true ->
        fst (Effect.run
               (extractBatch stringifyPayload writeFile audioUri
                  (completed operation)))
        <> Ok rs)
  /\ (forall rs,
        fst (Effect.run
               (extractBatch stringifyPayload writeFile "gs://b/a.mp3"
                  {| results :=
                       Def [("gs://b/other.mp3", withoutTranscript);
                            ("gs://b/second.mp3",
                             withTranscript [spoken "one" "3.500s"])] |}))
        <> Ok rs).
Proof.
  intros outcome. subst outcome.
  unfold Effect.run, extractBatch, writeDebug, Effect.bind, Effect.emit,
    Effect.lift, Effect.throw.
  split; [|split; [|split; [|split; [|split]]]].
  - intros rs ->. reflexivity.
  - intros -> rs [->|[-> ->]]; reflexivity.
  - intros -> -> ->. cbn [app]. now destruct (writeFile _ _) as [[]|m].
  - intros rs.
    destruct (directResults (lookup _ _)); [reflexivity|].
    destruct (directResults (firstValue _)); [reflexivity|].
    destruct (inlineResults (firstValue _)); [reflexivity|].
    cbn [app]. now destruct (writeFile _ _) as [[]|m].
  - intros operation rs Hresp Hres. unfold completed.
    destruct (response operation); try discriminate;
      destruct (result_ operation); try discriminate;
      cbn; now destruct (writeFile _ _) as [[]|m].
  - intros rs. cbn. now destruct (writeFile _ _) as [[]|m].
Qed.

End ExtractionFacts.

Lemma extractBatch_shapes_witness :
  Effect.run
    (Transcriber.extractBatch (fun _ => "{}") succeeds2 "gs://b/a.mp3"
       {| Transcriber.results :=
            Def [("gs://b/first.mp3", withoutTranscript);
                 ("gs://b/a.mp3", withTranscript [spoken "one" "3.500s"])] |})
  = (Ok [spoken "one" "3.500s"], []).
Proof.
  apply (proj1 (extractBatch_shapes (fun _ => "{}") succeeds2 "gs://b/a.mp3"
                  {| Transcriber.results :=
                       Def [("gs://b/first.mp3", withoutTranscript);
                            ("gs://b/a.mp3",
                             withTranscript [spoken "one" "3.500s"])] |})).
  reflexivity.
Defined.

Section UploadFacts.

Import Transcriber.

Variable now : string.
Variable basename : string -> string.
Variable encodeURIComponent : string -> string.
Variable readFile : string -> result string.
Variable send : Request -> result Reply.

(** X15. Uploading to object storage: the bucket is created exactly when
    the existence check answers 404 (any other status goes straight on to
    the upload); a failed creation throws before the file is read or
    uploaded; the upload is sent at most once and is then the last request;
    and the URI that is returned, only after an accepted upload, is the one
    the submission is made with. *)
Theorem uploadToGCS_flow (audioFile projectId accessToken : string) :
  let outcome :=
    Effect.run
      (uploadToGCS now basename encodeURIComponent readFile send audioFile
         projectId accessToken) in
  let check :=
    GetBucket
      ("https://storage.googleapis.com/storage/v1/b/" ++ projectId
         ++ "-speech-transcripts")
      ("Bearer " ++ accessToken) in
  (existsb isCreateBucket (snd outcome) = true <->
     exists reply, send check = Ok reply /\ status reply = 404%Z)
  /\ (forall reply created,
        send check = Ok reply -> status reply = 404%Z ->
        send (CreateBucket
                ("https://storage.googleapis.com/storage/v1/b?project="
                   ++ projectId)
                ("Bearer " ++ accessToken)
                (projectId ++ "-speech-transcripts") "US" "STANDARD")
        = Ok created ->
        ok created = false ->
        fst outcome = Throw ("Failed to create bucket: " ++ text created)
        /\ existsb isUpload (snd outcome) = false)
  /\ (List.length (filter isUpload (snd outcome)) <= 1)%nat
  /\ (forall uri, fst outcome = Ok uri ->
        uri = Speech.gcsUri now basename audioFile projectId
        /\ exists before url content accepted,
             snd outcome
             = (before
                  ++ [UploadMedia url ("Bearer " ++ accessToken) "audio/mpeg"
                        content])%list
             /\ readFile audioFile = Ok content
             /\ send (UploadMedia url ("Bearer " ++ accessToken) "audio/mpeg"
                        content) = Ok accepted
             /\ ok accepted = true).
Proof.
  intros outcome check. subst outcome check.
  unfold Effect.run, uploadToGCS, fetch, Effect.bind, Effect.emit,
    Effect.lift, Effect.ret, Effect.throw.
  cbv zeta. cbn [app].
  destruct (send (GetBucket _ _)) as [reply|m] eqn:Hcheck;
    [destruct (status reply =? 404)%Z eqn:H404;
     [apply Z.eqb_eq in H404;
      destruct (send (CreateBucket _ _ _ _ _)) as [created|m] eqn:Hcreate;
      [destruct (ok created) eqn:Hok|]
     |apply Z.eqb_neq in H404]|];
    try (destruct (readFile audioFile) as [content|m] eqn:Hread;
         [destruct (send (UploadMedia _ _ _ _)) as [accepted|m] eqn:Hup;
          [destruct (ok accepted) eqn:Hacc|]|]);
    cbn [fst snd app existsb isCreateBucket isUpload filter List.length orb];
    (split;
     [split;
      [intros H; first [discriminate H|eauto]
      |intros (r0 & Hr0 & Hs0); first [reflexivity|congruence]]
     |split;
      [intros reply' created' E1 E2 E3 E4;
       first [congruence
             |injection E1 as <-; first [contradiction|congruence
               |injection E3 as <-; first [congruence|split; reflexivity]]]
      |split;
       [lia
       |intros uri E;
        first [discriminate E
              |injection E as <-; split; [reflexivity|]]]]]).
  - eexists [_; _], _, content, accepted. repeat split; eassumption.
  - eexists [_], _, content, accepted. repeat split; eassumption.
Qed.

End UploadFacts.

Lemma uploadToGCS_flow_witness :
  "gs://demo-speech-transcripts/transcripts/1700000000000-audio.mp3"
  = Speech.gcsUri "1700000000000" (fun _ => "audio.mp3")
      "youtube/kCc8FmEb1nY/audio.mp3" "demo".
Proof.
  apply (proj2 (proj2 (proj2
           (uploadToGCS_flow "1700000000000" (fun _ => "audio.mp3")
              (fun name => name) (fun _ => Ok "ID3") (storageAnswering 404)
              "youtube/kCc8FmEb1nY/audio.mp3" "demo" "token")))).
  reflexivity.
Defined.

(** ** The audio download script *)

Section DownloaderFacts.

Import Downloader.

Variable createClient : result unit.
Variable download : string -> result Stream.
Variable mkdir : string -> result unit.
Variable finish : result unit.
Variable writeFile : string -> Metadata -> result unit.
Variable isoNow : string.
Variable path_join : list string -> string.
Variable cwd : string.

Lemma writtenBytes_app (xs ys : list Event) :
  writtenBytes (xs ++ ys)%list = (writtenBytes xs + writtenBytes ys)%nat.
Proof.
  unfold writtenBytes. now rewrite map_app, list_sum_app.
Qed.

Lemma metadataWritten_app (xs ys : list Event) :
  metadataWritten (xs ++ ys)%list
  = (metadataWritten xs ++ metadataWritten ys)%list.
Proof.
  unfold metadataWritten. now rewrite flat_map_app.
Qed.

Lemma writtenBytes_chunks (chunks : list (list Byte.byte)) :
  writtenBytes (map WriteChunk chunks)
  = list_sum (map (@List.length Byte.byte) chunks).
Proof.
  unfold writtenBytes. rewrite map_map. reflexivity.
Qed.

Lemma metadataWritten_chunks (chunks : list (list Byte.byte)) :
  metadataWritten (map WriteChunk chunks) = [].
Proof.
  induction chunks as [|c chunks IH]; [reflexivity|exact IH].
Qed.

(** The reading loop writes exactly the values that are present, in order,
    and counts their bytes. *)
Lemma writeValues_run (values : list (js (list Byte.byte))) :
  forall (downloadedBytes : nat) (log : list Event),
    writeValues values downloadedBytes log
    = (Ok (downloadedBytes
           + list_sum
               (map (@List.length Byte.byte) (presentChunks values)))%nat,
       (log ++ map WriteChunk (presentChunks values))%list).
Proof.
  induction values as [|v values IH]; intros n log.
  - cbn. now rewrite Nat.add_0_r, List.app_nil_r.
  - destruct v as [| |bytes]; cbn [writeValues presentChunks flat_map].
    + cbn [app]. apply IH.
    + cbn [app]. apply IH.
    + unfold Effect.bind, Effect.emit. rewrite IH.
      fold (presentChunks values). cbn [app map list_sum fold_right].
      rewrite <- List.app_assoc. cbn [app]. f_equal. f_equal.
      unfold list_sum. lia.
Qed.

(** X16. When the download script succeeds, the input resolved to an
    eleven-character identifier, the stream ended without a rejection, and
    the trace ends with the closing of the audio file and the writing of one
    metadata record, whose byte count is the total length of the chunks
    written to the audio file: the values the reader delivered that were
    present. *)
Theorem downloadVideo_metadata_counts_audio (videoInput : string) :
  let outcome :=
    Effect.run
      (downloadVideo createClient download mkdir finish writeFile isoNow
         path_join cwd videoInput) in
  fst outcome = Ok tt ->
  exists videoId stream events path,
    Download.extractVideoId videoInput = Ok videoId
    /\ isVideoIdentifier videoId = true
    /\ download videoId = Ok stream
    /\ failure stream = None
    /\ snd outcome
       = (events
            ++ [EndFile;
                WriteMetadata path
                  {| video_id := videoId;
                     url := "https://www.youtube.com/watch?v=" ++ videoId;
                     downloaded_at := isoNow;
                     file_size_bytes := writtenBytes (snd outcome) |}])%list
    /\ metadataWritten events = []
    /\ writtenBytes (snd outcome)
       = list_sum
           (map (@List.length Byte.byte) (presentChunks (values stream))).
Proof.
  unfold Effect.run, downloadVideo, Effect.bind at 1, Effect.lift at 1.
  destruct (Download.extractVideoId videoInput) as [videoId|m] eqn:Hid;
    [|discriminate].
  unfold Effect.catch, downloadAudio, Effect.bind, Effect.emit, Effect.lift.
  cbn [app].
  destruct createClient as [[]|m]; [|discriminate].
  destruct (download videoId) as [stream|m] eqn:Hdl; [|discriminate].
  destruct (mkdir _) as [[]|m]; [|discriminate].
  rewrite writeValues_run.
  destruct (failure stream) as [m|] eqn:Hfail; [discriminate|].
  destruct finish as [[]|m]; [|discriminate].
  destruct (writeFile _ _) as [[]|m]; [|discriminate].
  intros _. cbn [fst snd].
  set (opening := [CreateClient; _; _; _]).
  set (chunks := presentChunks (values stream)).
  assert (Hbytes : forall tail,
             writtenBytes
               (((opening ++ map WriteChunk chunks) ++ [EndFile]) ++ tail)%list
             = (list_sum (map (@List.length Byte.byte) chunks)
                + writtenBytes tail)%nat).
  { intros tail. rewrite !writtenBytes_app, writtenBytes_chunks.
    unfold opening, writtenBytes at 1 2. cbn. lia. }
  exists videoId, stream, (opening ++ map WriteChunk chunks)%list.
  eexists.
  split; [reflexivity|]. split; [eapply resolved_identifier; eassumption|].
  split; [exact Hdl|]. split; [exact Hfail|].
  rewrite Hbytes.
  split; [|split].
  - rewrite <- !List.app_assoc. cbn [app writtenBytes map list_sum fold_right].
    rewrite Nat.add_0_r, Nat.add_0_l. reflexivity.
  - rewrite metadataWritten_app, metadataWritten_chunks. reflexivity.
  - subst chunks. unfold writtenBytes, list_sum at 2.
    cbn [map fold_right]. lia.
Qed.

(** X17. When the download script fails, either the input was rejected
    before anything happened, with the resolver's own message, or the
    failure happened inside the [try] block and its message is the cause
    prefixed with ["Download failed: "]; a metadata record is then in the
    trace only if writing it was the failure.  When the stream rejects, the
    chunks read so far have been written, the audio file is not closed and
    no metadata record is written. *)
Theorem downloadVideo_failures (videoInput message : string) :
  let outcome :=
    Effect.run
      (downloadVideo createClient download mkdir finish writeFile isoNow
         path_join cwd videoInput) in
  fst outcome = Throw message ->
  (message = "Invalid YouTube URL or video ID: " ++ videoInput
   /\ snd outcome = [])
  \/ (exists videoId cause,
        Download.extractVideoId videoInput = Ok videoId
        /\ message = "Download failed: " ++ cause
        /\ hd_error (snd outcome) = Some CreateClient
        /\ (metadataWritten (snd outcome) = []
            \/ exists path metadata, writeFile path metadata = Throw cause)
        /\ (forall stream rejection,
              createClient = Ok tt -> download videoId = Ok stream ->
              mkdir (path_join [cwd; "youtube"; videoId]) = Ok tt ->
              failure stream = Some rejection ->
              cause = rejection
              /\ snd outcome
                 = ([CreateClient; RequestAudio videoId;
                     Mkdir (path_join [cwd; "youtube"; videoId]);
                     OpenFile
                       (path_join
                          [path_join [cwd; "youtube"; videoId];
                           "audio.mp3"])]
                      ++ map WriteChunk (presentChunks (values stream)))%list)).
Proof.
  unfold Effect.run, downloadVideo, Effect.bind at 1, Effect.lift at 1.
  destruct (Download.extractVideoId videoInput) as [videoId|m] eqn:Hid.
  - unfold Effect.catch, downloadAudio, Effect.bind, Effect.emit,
      Effect.lift, Effect.throw.
    cbn [app]. intros H. right. exists videoId.
    destruct createClient as [[]|m] eqn:Hc.
    2:{ exists m. injection H as <-. cbn [fst snd].
        repeat (split; [reflexivity|]). split; [now left|].
        intros; discriminate. }
    destruct (download videoId) as [stream|m] eqn:Hdl.
    2:{ exists m. injection H as <-. cbn [fst snd].
        repeat (split; [reflexivity|]). split; [now left|].
        intros; discriminate. }
    destruct (mkdir _) as [[]|m] eqn:Hmk.
    2:{ exists m. injection H as <-. cbn [fst snd].
        repeat (split; [reflexivity|]). split; [now left|].
        intros; congruence. }
    rewrite writeValues_run in H |- *.
    destruct (failure stream) as [m|] eqn:Hfail.
    { exists m. injection H as <-. cbn [fst snd].
      repeat (split; [reflexivity|]). split.
      - left. rewrite metadataWritten_app, metadataWritten_chunks.
        reflexivity.
      - intros stream' rejection _ [= <-] _ Hrej. split; [congruence|].
        reflexivity. }
    destruct finish as [[]|m] eqn:Hfin.
    2:{ exists m. injection H as <-. cbn [fst snd].
        repeat (split; [reflexivity|]). split.
        - left. rewrite !metadataWritten_app, metadataWritten_chunks.
          reflexivity.
        - intros stream' rejection _ [= <-] _ Hrej. congruence. }
    destruct (writeFile _ _) as [[]|m] eqn:Hwr; [discriminate|].
    exists m. injection H as <-. cbn [fst snd].
    repeat (split; [reflexivity|]). split.
    + right. eauto.
    + intros stream' rejection _ [= <-] _ Hrej. congruence.
  - intros [= <-]. left. split; [|reflexivity].
    eapply rejected_input; eassumption.
Qed.

End DownloaderFacts.

Lemma downloadVideo_metadata_counts_audio_witness :
  exists events path,
    snd (Effect.run
           (Downloader.downloadVideo (Ok tt) (fun _ => Ok threeReads)
              succeeds (Ok tt) succeeds2 "2025-01-01T00:00:00.000Z"
              slashJoin "/repo" "https://youtu.be/kCc8FmEb1nY"))
    = (events
         ++ [Downloader.EndFile;
             Downloader.WriteMetadata path
               {| Downloader.video_id := "kCc8FmEb1nY";
                  Downloader.url :=
                    "https://www.youtube.com/watch?v=kCc8FmEb1nY";
                  Downloader.downloaded_at := "2025-01-01T00:00:00.000Z";
                  Downloader.file_size_bytes := 4 |}])%list.
Proof.
  destruct (downloadVideo_metadata_counts_audio
              (Ok tt) (fun _ => Ok threeReads) succeeds (Ok tt) succeeds2
              "2025-01-01T00:00:00.000Z" slashJoin "/repo"
              "https://youtu.be/kCc8FmEb1nY" eq_refl)
    as (videoId & stream & events & path & Hid & _ & _ & _ & Htrace & _).
  injection Hid as <-. exists events, path. exact Htrace.
Defined.

Lemma downloadVideo_failures_witness :
  exists cause, "Download failed: terminated" = "Download failed: " ++ cause.
Proof.
  destruct (downloadVideo_failures
              (Ok tt) (fun _ => Ok brokenStream) succeeds (Ok tt) succeeds2
              "2025-01-01T00:00:00.000Z" slashJoin "/repo"
              "kCc8FmEb1nY" "Download failed: terminated" eq_refl)
    as [[H _]|(videoId & cause & _ & H & _)]; [discriminate H|].
  exists cause. exact H.
Defined.

(** ** The prompt and the errors of the generative-text service *)

Lemma substring_all (n : nat) :
  forall s, (String.length s <= n)%nat -> substring 0 n s = s.
Proof.
  induction n as [|n IH]; intros [|c s] H; simpl in *;
    try reflexivity; try lia.
  f_equal. apply IH. lia.
Qed.

Lemma substring_cut (n : nat) :
  forall s, (n <= String.length s)%nat ->
            String.length (substring 0 n s) = n
            /\ exists rest, s = substring 0 n s ++ rest.
Proof.
  induction n as [|n IH]; intros s H.
  - split; [now destruct s|]. exists s. now destruct s.
  - destruct s as [|c s]; simpl in H; [lia|].
    destruct (IH s ltac:(lia)) as [Hlen [rest Hrest]].
    split; [simpl; congruence|]. exists rest. simpl. now f_equal.
Qed.

(** X18. The transcript as it enters the prompt of the route and of the
    script: a transcript of at most [excerptLimit] (200000) characters is
    passed whole; a longer one is cut to its first 200000 characters,
    followed by the continuation mark on a line of its own, and everything
    after the cut is left out: two long transcripts with the same first
    200000 characters give the same prompt, in the route and in the script.
    The excerpt never exceeds 200031 characters; the prompt of the route is
    the excerpt, the URL, the identifier and 517 characters of fixed text,
    and the prompt of the script is the excerpt, the URL, the identifier,
    the formatted duration, the number of segments and 1285 characters of
    fixed text. *)
Theorem transcriptExcerpt_bounds (text : string) :
  ((String.length text <= excerptLimit)%nat -> transcriptExcerpt text = text)
  /\ ((excerptLimit < String.length text)%nat ->
      exists kept dropped,
        text = kept ++ dropped
        /\ String.length kept = excerptLimit
        /\ dropped <> ""
        /\ transcriptExcerpt text
           = kept ++ nl ++ "[... transcript continues ...]")
  /\ (String.length (transcriptExcerpt text) <= excerptLimit + 31)%nat
  /\ (forall url videoId,
        String.length (Handler.formattingPrompt url videoId text)
        = (String.length url + String.length videoId
           + String.length (transcriptExcerpt text) + 517)%nat)
  /\ (forall url videoId totalDuration segmentCount,
        String.length
          (Converter.formattingPrompt url videoId totalDuration segmentCount
             text)
        = (String.length url + String.length videoId
           + String.length (formatTimestamp totalDuration)
           + String.length (decimal (Z.of_nat segmentCount))
           + String.length (transcriptExcerpt text) + 1285)%nat)
  /\ (forall other url videoId totalDuration segmentCount,
        (excerptLimit < String.length text)%nat ->
        (excerptLimit < String.length other)%nat ->
        substring 0 excerptLimit other = substring 0 excerptLimit text ->
        Handler.formattingPrompt url videoId other
        = Handler.formattingPrompt url videoId text
        /\ Converter.formattingPrompt url videoId totalDuration segmentCount
             other
           = Converter.formattingPrompt url videoId totalDuration
               segmentCount text).
Proof.
  split; [|split; [|split; [|split; [|split]]]].
  - unfold transcriptExcerpt. intros H.
    rewrite substring_all by assumption.
    apply Nat.ltb_ge in H. rewrite H. apply append_nil_r.
  - unfold transcriptExcerpt. intros H.
    destruct (substring_cut excerptLimit text ltac:(lia))
      as [Hlen [dropped Hcut]].
    exists (substring 0 excerptLimit text), dropped.
    split; [assumption|]. split; [assumption|]. split.
    + intros ->. rewrite append_nil_r in Hcut. rewrite <- Hcut in Hlen. lia.
    + apply Nat.ltb_lt in H. now rewrite H.
  - unfold transcriptExcerpt.
    destruct (Nat.ltb_spec excerptLimit (String.length text)) as [H|H].
    + destruct (substring_cut excerptLimit text ltac:(lia)) as [Hlen _].
      rewrite string_length_app, Hlen.
      change (String.length (nl ++ "[... transcript continues ...]"))
        with 31%nat.
      lia.
    + rewrite substring_all, append_nil_r by assumption. lia.
  - intros url videoId. unfold Handler.formattingPrompt.
    set (excerpt := transcriptExcerpt text).
    rewrite !string_length_app. cbn [String.length nl dq]. lia.
  - intros url videoId totalDuration segmentCount.
    unfold Converter.formattingPrompt.
    set (excerpt := transcriptExcerpt text).
    set (duration := formatTimestamp totalDuration).
    set (count := decimal (Z.of_nat segmentCount)).
    rewrite !string_length_app. cbn [String.length nl dq]. lia.
  - intros other url videoId totalDuration segmentCount Htext Hother Hsame.
    assert (Hexcerpt : transcriptExcerpt other = transcriptExcerpt text).
    { unfold transcriptExcerpt. apply Nat.ltb_lt in Htext, Hother.
      now rewrite Htext, Hother, Hsame. }
    unfold Handler.formattingPrompt, Converter.formattingPrompt.
    now rewrite Hexcerpt.
Qed.

Lemma transcriptExcerpt_bounds_witness :
  transcriptExcerpt sixtyCharacters = sixtyCharacters.
Proof.
  apply (proj1 (transcriptExcerpt_bounds sixtyCharacters)).
  apply Nat.ltb_ge. vm_compute. reflexivity.
Defined.

Section ServiceErrorFacts.

Import Handler.

Variable fetchTranscript : string -> option string -> Route.FetchOutcome.
Variable callGemini : GeminiRequest -> result HttpReply.
Variable path_join : list string -> string.
Variable cwd : string.
Variable stringify : Route.ErrorBody -> string.
Variable perform : Fs.FsOp -> result unit.

(** X19. What the client is told when the generative-text service answers
    with a status that is not ok: always a 500, after the caption requests
    and the one call, with nothing touched on disk.  A service message that
    mentions the token count or the maximum number of tokens is replaced by
    the fixed too-long explanation, which the surrounding [catch] lets
    through; any other non-empty service message is passed on as it is; and
    a body without [error] gives the status line. *)
Theorem POST_reports_service_error
    (url videoId key transcriptText : string) (reply : HttpReply)
    (data : Route.GeminiData) :
  url <> "" -> videoId <> "" -> key <> "" ->
  extractVideoId url = Some videoId ->
  snd (Route.fetchCaptions (fetchTranscript videoId)) = Ok transcriptText ->
  callGemini (geminiRequest key url videoId transcriptText) = Ok reply ->
  ok reply = false ->
  json reply = Ok data ->
  let outcome :=
    POST fetchTranscript callGemini path_join cwd stringify perform
      (Ok (Def url)) (Def key) in
  code (fst outcome) = 500%Z
  /\ snd outcome
     = (map (CaptionFetch videoId)
          (Route.attempted
             (fst (Route.fetchCaptions (fetchTranscript videoId))))
        ++ [GeminiCall (geminiRequest key url videoId transcriptText)])%list
  /\ (forall e message,
        Route.error data = Def e -> Route.message e = Def message ->
        message <> "" ->
        body (fst outcome)
        = ErrorJson
            (if includes message "token count exceeds"
                || includes message "maximum number of tokens"
             then tooLongMessage
             else message))
  /\ (isNullish (Route.error data) = true ->
      body (fst outcome)
      = ErrorJson
          ("Gemini API failed: " ++ decimal (status reply) ++ " "
             ++ statusText reply)).
Proof.
  intros Hurl Hvid Hkey Hid Hfetch Hcall Hok Hjson outcome. subst outcome.
  unfold POST, Effect.run, handle, Effect.bind, Effect.lift, Effect.ret,
    Effect.throw, Effect.emit, fetchStep.
  destruct url as [|c u]; [congruence|]. rewrite Hid.
  destruct videoId as [|i d]; [congruence|].
  destruct key as [|k ey]; [congruence|].
  destruct (Route.fetchCaptions (fetchTranscript (String i d)))
    as [st outcome]. cbn [fst snd] in Hfetch |- *. subst outcome.
  rewrite Hcall, Hok. cbn [app].
  assert (Hmsg : forall m,
             (let (response, _) :=
                match m with
                | "" => (respond 500 "Failed to process YouTube video",
                         (map (CaptionFetch (String i d)) (Route.attempted st)
                            ++ [GeminiCall
                                  (geminiRequest (String k ey) (String c u)
                                     (String i d) transcriptText)])%list)
                | String _ _ =>
                    (respond 500 m,
                     (map (CaptionFetch (String i d)) (Route.attempted st)
                        ++ [GeminiCall
                              (geminiRequest (String k ey) (String c u)
                                 (String i d) transcriptText)])%list)
                end in code response) = 500%Z) by (now intros [|]).
  split; [now destruct (geminiFailure stringify reply)|].
  split; [now destruct (geminiFailure stringify reply)|].
  unfold geminiFailure, readError. rewrite Hjson. cbn [bindResult].
  split.
  - intros e message -> -> Hne.
    destruct message as [|m0 m]; [congruence|].
    destruct (includes (String m0 m) "token count exceeds"
              || includes (String m0 m) "maximum number of tokens");
      reflexivity.
  - intros Hnull. destruct (Route.error data); try discriminate; reflexivity.
Qed.

End ServiceErrorFacts.

Lemma POST_reports_service_error_witness :
  Handler.body
    (fst (Handler.POST (fun _ => serviceWith "en" sixtyCharacters)
            (fun _ =>
               Ok (refusalReply
                     "The input token count exceeds the maximum number"))
            slashJoin "/repo" (fun _ => "{}") succeeds
            (Ok (Def "kCc8FmEb1nY")) (Def "key")))
  = Handler.ErrorJson Handler.tooLongMessage.
Proof.
  refine (proj1 (proj2 (proj2
            (POST_reports_service_error
               (fun _ => serviceWith "en" sixtyCharacters)
               (fun _ =>
                  Ok (refusalReply
                        "The input token count exceeds the maximum number"))
               slashJoin "/repo" (fun _ => "{}") succeeds
               "kCc8FmEb1nY" "kCc8FmEb1nY" "key" sixtyCharacters
               (refusalReply
                  "The input token count exceeds the maximum number")
               _ _ _ _ eq_refl eq_refl eq_refl eq_refl eq_refl)))
            _ "The input token count exceeds the maximum number"
            eq_refl eq_refl _);
    discriminate.
Defined.
